(** * SQL-of-Thought evaluation pipeline: a shallow embedding

    The development follows the Python sources of the evaluation
    pipeline: [utils.py] (SQL normalizer, result comparator, clause
    policy table, JSON extraction), [analyze_by_subproblems.py]
    (clause detector), [prompts.py] (prompt builders) and
    [run_eval.py] (the orchestrator with its correction loop).

    Python [str] values are modelled as lists of characters.  The
    character classes ([str.isspace], the regular-expression classes
    [\s], [\w] and [\b], [str.lower], [str.upper]) are the ASCII ones:
    the model is that of the code on ASCII texts (see [ascii_text]).
    A property that Python's Unicode tables would break on other
    characters carries that restriction as a hypothesis. *)

From Stdlib Require Import List String Ascii Bool Arith ZArith QArith Lia.
From Stdlib Require Import DecimalString.
From Stdlib Require DecimalZ.
From Stdlib Require Import Permutation Sorted.
Import ListNotations.

Close Scope Q_scope.
Local Open Scope char_scope.
Local Open Scope list_scope.
Local Open Scope nat_scope.

(* ================================================================= *)
(** ** Text *)

Definition text := list ascii.

(** A literal of the source. *)
Definition T (s : string) : text := list_ascii_of_string s.

Definition code (c : ascii) : nat := nat_of_ascii c.

(** [str.isspace] on the ASCII range: TAB, LF, VT, FF, CR, the four
    separators FS, GS, RS, US and the space. *)
Definition is_space (c : ascii) : bool :=
  let n := code c in
  ((9 <=? n) && (n <=? 13)) || ((28 <=? n) && (n <=? 32)).

Definition is_upper (c : ascii) : bool :=
  let n := code c in (65 <=? n) && (n <=? 90).

Definition is_lower (c : ascii) : bool :=
  let n := code c in (97 <=? n) && (n <=? 122).

Definition is_digit (c : ascii) : bool :=
  let n := code c in (48 <=? n) && (n <=? 57).

(** The class [\w]: letters, digits and the underscore. *)
Definition is_word (c : ascii) : bool :=
  is_upper c || is_lower c || is_digit c || Ascii.eqb c "_".

Definition lower_char (c : ascii) : ascii :=
  if is_upper c then ascii_of_nat (code c + 32) else c.

Definition upper_char (c : ascii) : ascii :=
  if is_lower c then ascii_of_nat (code c - 32) else c.

(** [s.lower()] and [s.upper()], on ASCII texts. *)
Definition lower (s : text) : text := map lower_char s.
Definition upper (s : text) : text := map upper_char s.

(** Every character of the text is an ASCII character (below 128). *)
Definition ascii_text (s : text) : bool := forallb (fun c => code c <? 128) s.

Fixpoint text_eqb (a b : text) : bool :=
  match a, b with
  | [], [] => true
  | x :: a', y :: b' => Ascii.eqb x y && text_eqb a' b'
  | _, _ => false
  end.

(** [s.startswith(p)]. *)
Fixpoint starts_with (p s : text) : bool :=
  match p, s with
  | [], _ => true
  | x :: p', y :: s' => Ascii.eqb x y && starts_with p' s'
  | _ :: _, [] => false
  end.

(** [p in s] for strings: [p] occurs in [s] as a substring. *)
Fixpoint contains (p s : text) : bool :=
  starts_with p s ||
  match s with
  | [] => false
  | _ :: s' => contains p s'
  end.

Fixpoint drop_while (f : ascii -> bool) (s : text) : text :=
  match s with
  | [] => []
  | c :: s' => if f c then drop_while f s' else s
  end.

(** [s.strip()] with no argument, and [s.strip(chars)]. *)
Definition strip_chars (f : ascii -> bool) (s : text) : text :=
  rev (drop_while f (rev (drop_while f s))).

Definition strip (s : text) : text := strip_chars is_space s.

(** [s.endswith(";")]. *)
Definition ends_with_char (c : ascii) (s : text) : bool :=
  match rev s with
  | d :: _ => Ascii.eqb c d
  | [] => false
  end.

(** [s[:-1]]. *)
Definition drop_last (s : text) : text := removelast s.

(* ================================================================= *)
(** ** SQL normalizer ([postprocess_sql], utils.py) *)

Module Normalizer.

(** The keyword alternatives of [\b(select|insert)\b] under
    [re.IGNORECASE], tried at the head of [s]; the trailing [\b] holds
    when the keyword is followed by a non-word character or by the end
    of the text. *)
Definition keyword_here (s : text) : bool :=
  (starts_with (T "select") (lower (firstn 6 s))
   || starts_with (T "insert") (lower (firstn 6 s)))
  && match skipn 6 s with
     | [] => true
     | c :: _ => negb (is_word c)
     end.

(** [re.search(sql_start_pattern, sql, re.IGNORECASE)] followed by
    [sql[match.start():]]: the suffix at the leftmost match.
    [prev_word] tells whether the character before the current
    position is a word character (the leading [\b]).  Case folding
    and the word characters are those of ASCII texts. *)
Fixpoint search_start (prev_word : bool) (s : text) : option text :=
  match s with
  | [] => None
  | c :: s' =>
      if negb prev_word && keyword_here s then Some s
      else search_start (is_word c) s'
  end.

Definition cut_to_statement (s : text) : text :=
  match search_start false s with
  | Some suffix => suffix
  | None => s
  end.

(** [re.sub(r"```sql|```", "", sql)]: leftmost matches, the longer
    alternative first. *)
Fixpoint remove_fences (s : text) : text :=
  match s with
  | "`" :: "`" :: "`" :: "s" :: "q" :: "l" :: rest => remove_fences rest
  | "`" :: "`" :: "`" :: rest => remove_fences rest
  | c :: rest => c :: remove_fences rest
  | [] => []
  end.

(** [re.sub(r"^sql[:\s]*", "", sql)]. *)
Definition label_char (c : ascii) : bool := Ascii.eqb c ":" || is_space c.

Definition remove_label (s : text) : text :=
  match s with
  | "s" :: "q" :: "l" :: rest => drop_while label_char rest
  | _ => s
  end.

(** [sql.replace("`", "")]. *)
Definition remove_backticks (s : text) : text :=
  filter (fun c => negb (Ascii.eqb c "`")) s.

(** [re.sub(r"\s+", " ", sql)]: every maximal run of whitespace becomes
    one space, emitted at the first character of the run. *)
Fixpoint collapse_from (in_run : bool) (s : text) : text :=
  match s with
  | [] => []
  | c :: s' =>
      if is_space c
      then (if in_run then collapse_from true s' else " " :: collapse_from true s')
      else c :: collapse_from false s'
  end.

Definition collapse_ws (s : text) : text := collapse_from false s.

(** The first character after the leading whitespace of [s] is a comma. *)
Definition comma_next (s : text) : bool :=
  match drop_while is_space s with
  | "," :: _ => true
  | _ => false
  end.

(** [re.sub(r"\s+,", ",", sql)]: a whitespace character is deleted
    exactly when the run it belongs to is followed by a comma. *)
Fixpoint remove_space_before_comma (s : text) : text :=
  match s with
  | [] => []
  | c :: s' =>
      if is_space c && comma_next s' then remove_space_before_comma s'
      else c :: remove_space_before_comma s'
  end.

(** The two substitutions read as the regular-expression engine runs
    them, scanning from the left: at a whitespace character the greedy
    [\s+] takes the whole run (and for [\s+,] the comma after it, or
    there is no match there); the scan resumes after the match.  The
    fuel bounds the number of steps by the length of the text. *)
Fixpoint sub_ws_scan (fuel : nat) (s : text) : text :=
  match fuel, s with
  | S fuel', c :: s' =>
      if is_space c then " " :: sub_ws_scan fuel' (drop_while is_space s')
      else c :: sub_ws_scan fuel' s'
  | _, _ => []
  end.

Fixpoint sub_ws_comma_scan (fuel : nat) (s : text) : text :=
  match fuel, s with
  | S fuel', c :: s' =>
      if is_space c && comma_next s'
      then "," :: sub_ws_comma_scan fuel' (tl (drop_while is_space s'))
      else c :: sub_ws_comma_scan fuel' s'
  | _, _ => []
  end.

(** [if sql.endswith(";"): sql = sql[:-1].strip()]. *)
Definition strip_terminator (s : text) : text :=
  if ends_with_char ";" s then strip (drop_last s) else s.

Definition postprocess_sql (sql : text) : text :=
  let sql := cut_to_statement sql in
  let sql := lower (strip sql) in
  let sql := remove_fences sql in
  let sql := remove_label sql in
  let sql := remove_fences sql in
  let sql := remove_backticks sql in
  let sql := strip (collapse_ws sql) in
  let sql := remove_space_before_comma sql in
  strip_terminator sql.

End Normalizer.
Import Normalizer.

(* ================================================================= *)
(** ** Python values, exceptions *)

(** The exceptions the modelled code can raise; [str_exn] is [str(e)]. *)
(** The exceptions met in the pipeline.  [OtherError kind msg] is an
    exception of any other class, [kind] being the name of the class
    (RecursionError, sqlite3.DatabaseError, OSError, ...). *)
Inductive exn : Type :=
| ValueError (msg : text)
| TypeError (msg : text)
| AttributeError (msg : text)
| OtherError (kind msg : text).

Definition str_exn (e : exn) : text :=
  match e with
  | ValueError m | TypeError m | AttributeError m | OtherError _ m => m
  end.

(** The result of a call that may raise. *)
Inductive result (A : Type) : Type :=
| Ok (a : A)
| Raise (e : exn).
Arguments Ok {A} a.
Arguments Raise {A} e.

(** [str(x)] for a value that is a string or [None]. *)
Definition str_opt_text (x : option text) : text :=
  match x with
  | Some s => s
  | None => T "None"
  end.

(** Truthiness of a list: [if not dev]. *)
Definition is_nil {A : Type} (l : list A) : bool :=
  match l with
  | [] => true
  | _ :: _ => false
  end.

(** Truthiness of a string: [if not s]. *)
Definition is_empty (s : text) : bool :=
  match s with
  | [] => true
  | _ :: _ => false
  end.

(* ================================================================= *)
(** ** Result comparator ([normalize_rows], [exec_query],
       [query_execution], utils.py) *)

(** [str(n)] for an integer: its decimal digits, with a minus sign when
    it is negative. *)
Definition str_Z (n : Z) : text :=
  list_ascii_of_string (NilEmpty.string_of_int (Z.to_int n)).

(** A cell of a row returned by sqlite3.  A REAL is carried by its
    Python [repr] and a BLOB by the [repr] of its bytes: [str] is the
    only operation the comparator applies to a cell. *)
Inductive cell : Type :=
| CNull
| CInt (n : Z)
| CReal (repr : text)
| CText (s : text)
| CBlob (repr : text).

(** [str(cell)]. *)
Definition str_cell (c : cell) : text :=
  match c with
  | CNull => T "None"
  | CInt n => str_Z n
  | CReal r => r
  | CText s => s
  | CBlob r => r
  end.

Definition row := list cell.

Section Sorting.
Context {A : Type}.
Variable leb : A -> A -> bool.

(** Python compares sequences (strings, tuples) lexicographically:
    the first position where the two differ decides, a proper prefix
    comes first. *)
Fixpoint lex_leb (a b : list A) : bool :=
  match a, b with
  | [], _ => true
  | _ :: _, [] => false
  | x :: a', y :: b' =>
      if leb x y then (if leb y x then lex_leb a' b' else true) else false
  end.

Fixpoint insert_sorted (x : A) (l : list A) : list A :=
  match l with
  | [] => [x]
  | y :: l' => if leb x y then x :: l else y :: insert_sorted x l'
  end.

(** [sorted(l)]: the list in ascending order.  The orders used by the
    comparator are total and antisymmetric, so the sorted list does
    not depend on the sorting algorithm. *)
Definition sorted (l : list A) : list A := fold_right insert_sorted [] l.
End Sorting.

Definition char_leb (a b : ascii) : bool := code a <=? code b.
Definition text_leb : text -> text -> bool := lex_leb char_leb.
Definition tuple_leb : list text -> list text -> bool := lex_leb text_leb.

(** [tuple(sorted(map(str, r)))]. *)
Definition canonical_row (r : row) : list text := sorted text_leb (map str_cell r).

(** [sorted([tuple(sorted(map(str, r))) for r in rows])]. *)
Definition normalize_rows (rows : list row) : list (list text) :=
  sorted tuple_leb (map canonical_row rows).

Fixpoint tuple_eqb (a b : list text) : bool :=
  match a, b with
  | [], [] => true
  | x :: a', y :: b' => text_eqb x y && tuple_eqb a' b'
  | _, _ => false
  end.

(** [gen_norm == gold_norm] on lists of tuples of strings. *)
Fixpoint rows_eqb (a b : list (list text)) : bool :=
  match a, b with
  | [], [] => true
  | x :: a', y :: b' => tuple_eqb x y && rows_eqb a' b'
  | _, _ => false
  end.

(** One evaluation unit of the dataset: [item['question']],
    [item['query']] (the reference SQL) and [item['db_id']]. *)
Record sample : Type := {
  question : text;
  query : text;
  db_id : text
}.

(** [f"../spider/database/{db_id}/{db_id}.sqlite"]. *)
Definition db_path (db : text) : text :=
  T "../spider/database/" ++ db ++ T "/" ++ db ++ T ".sqlite".

(* ================================================================= *)
(** ** JSON values *)

(** The values [json.loads] produces.  A non-integer number is carried
    by its rational value (NaN and the infinities are left out); an
    object is the list of its keys and values, each key once, in
    insertion order. *)
#[warnings="-register-all"]
Inductive json : Type :=
| JNull
| JBool (b : bool)
| JInt (n : Z)
| JFloat (q : Q)
| JStr (s : text)
| JArr (items : list json)
| JObj (fields : list (text * json)).

(* ================================================================= *)
(** ** External collaborators *)

(** What [json.loads] does with a text: it decodes it, it raises
    JSONDecodeError, or it raises an exception of another class
    (RecursionError on deeply nested input, ValueError on an integer
    literal beyond the digit limit). *)
Inductive loads_result : Type :=
| Decoded (data : json)
| DecodeError
| LoadsRaised (e : exn).

(** What the pipeline takes from outside:
    - the text-generation backend, a stateful service: [World] is its
      state, and a call either gives the message content or raises;
    - the file system ([os.path.exists]);
    - the SQL engine behind [exec_query]: rows, or the text of the
      exception.  The engine is modelled as a deterministic function of
      the database file and the statement, which leaves out statements
      such as [select random()] and statements that change the
      database; the properties that depend on this say so;
    - the sqlite3 calls of [load_schema] on an existing database file:
      the rendered tables, keys and foreign keys, or the exception that
      sqlite3 raises (a file that is not a database, a table whose name
      is a keyword);
    - the [json] module;
    - the reading of the taxonomy file at the start of [evaluate]:
      [None] when [json.load] returns or the file is missing (the
      FileNotFoundError is handled), the exception otherwise. *)
Record Env : Type := {
  World : Type;
  chat_completion : text -> World -> option text * World;
  path_exists : text -> bool;
  sqlite_execute : text -> text -> list row + text;
  render_schema : text -> result text;
  json_loads : text -> loads_result;
  json_dumps : json -> text;
  taxonomy_error : option exn
}.

Section Comparator.
Variable E : Env.

(** [exec_query(db_file, sql)]: the pair [(rows, error)], exactly one
    of the two being [None].  The engine is the deterministic function
    [sqlite_execute] of the collaborators: two executions of one
    statement give the same outcome. *)
Definition exec_query (db_file sql : text) : option (list row) * option text :=
  if negb (path_exists E db_file)
  then (None, Some (T "Database file does not exist: " ++ db_file))
  else match sqlite_execute E db_file sql with
       | inl rows => (Some rows, None)
       | inr msg => (None, Some msg)
       end.

(** [query_execution(item, sql)]: [(exec_match, gen_err)]. *)
Definition query_execution (item : sample) (sql : text) : bool * option text :=
  let sql := postprocess_sql sql in
  let gold_sql := postprocess_sql (query item) in
  let '(gold_rows, gold_err) := exec_query (db_path (db_id item)) gold_sql in
  let '(gen_rows, gen_err) := exec_query (db_path (db_id item)) sql in
  let exec_match :=
    match gen_err, gold_err, gen_rows, gold_rows with
    | None, None, Some gen, Some gold =>
        rows_eqb (normalize_rows gen) (normalize_rows gold)
    | _, _, _, _ => false
    end in
  (exec_match, gen_err).

(** [load_schema(db_id)]: the empty string when the database file does
    not exist; otherwise the rendered schema, or the exception of the
    sqlite3 calls, which the function does not handle. *)
Definition load_schema (db : text) : result text :=
  if negb (path_exists E (db_path db)) then Ok []
  else render_schema E (db_path db).
End Comparator.

(* ================================================================= *)
(** ** Clause policy table ([clause_specific_prompts], utils.py) *)

Module Policy.

Definition group_by_plan : text := T "
    GROUP BY detected:
    - All non-aggregated SELECT columns must be in GROUP BY.
    - GROUP BY should appear after WHERE but before HAVING/ORDER BY.

    If HAVING is present:
    - Use HAVING to filter on aggregates, not WHERE.
    ".

Definition group_by_sql : text := T "
    Ensure:
    - All non-aggregated SELECT columns are in GROUP BY.
    - HAVING filters only aggregated expressions.
    - HAVING appears after GROUP BY.
    - Use WHERE for pre-aggregation filters only.
    ".

Definition order_by_plan : text := T "
    ORDER BY detected:
    - Specify column(s) to sort on with direction (ASC/DESC).
    - ORDER BY should be planned after WHERE/ GROUP BY / HAVING steps.
    - If LIMIT or OFFSET is present, ORDER BY must come before them.
    ".

Definition order_by_sql : text := T "
    Ensure:
    - ORDER BY references valid columns (or aliases defined in SELECT/grouping).
    - ORDER BY is placed after GROUP BY or HAVING if those exist.
    - If LIMIT is used, ORDER BY must guarantee deterministic results.
    ".

Definition limit_plan : text := T "
    LIMIT detected:
    - Decide which rows are returned: use ORDER BY to define which subset is used.
    - Plan ORDER BY step before LIMIT to ensure consistent results.
    ".

Definition limit_sql : text := T "
    Ensure:
    - Use ORDER BY before LIMIT for deterministic row selection.
    - LIMIT appears as the final clause after ORDER BY.
    ".

Definition join_plan : text := T "
    JOIN detected:
    - Plan all necessary JOINs between tables, listing each table and ON condition.
    - Each JOIN must reference valid foreign key paths from schema.
    - Avoid Cartesian products: every JOIN must include a precise ON clause.
    ".

Definition join_sql : text := T "
    Ensure:
    - Include all tables referenced in the plan via JOINS.
    - Each JOIN uses correct foreign key column(s) in ON clause.
    - Do not introduce unintended full joins or missing JOIN conditions.
    ".

Definition union_plan : text := T "
    UNION detected:
    - Both subqueries must select the same number of columns with compatible types.
    - Specify UNION vs UNION ALL depending on whether duplicates should be removed.
    - Plan ORDER BY / LIMIT after the entire UNION block.
    ".

Definition union_sql : text := T "
    Ensure:
    - Each UNION branch has identical column count and data types.
    - Use DISTINCT (default UNION) or ALL explicitly.
    - If ORDER BY or LIMIT is applied, apply it only at the end of the UNION output.
    ".

Definition intersect_plan : text := T "
    INTERSECT detected:
    - Both queries must select the same number and type of columns.
    - Plan for duplicates: INTERSECT removes duplicates unless INTERSECT ALL is specified.
    - ORDER BY / LIMIT clauses apply after the intersect.
    ".

Definition intersect_sql : text := T "
    Ensure:
    - Each INTERSECT branch selects same number and types of columns.
    - Use INTERSECT or INTERSECT ALL as needed.
    - Place ORDER BY and LIMIT after the intersect expression.
    ".

Definition except_plan : text := T "
    EXCEPT detected:
    - Both queries must select the same number and type of columns.
    - Plan which side to apply EXCEPT (left - right rows).
    - ORDER BY / LIMIT should be planned after the EXCEPT block.
    ".

Definition except_sql : text := T "
    Ensure:
    - EXCEPT branches share identical column count/types.
    - Use EXCEPT or EXCEPT ALL appropriately.
    - Apply ORDER BY and LIMIT only to the final output of the EXCEPT.
    ".

(** Membership of a string in a list of string literals. *)
Definition text_in (s : text) (l : list text) : bool := existsb (text_eqb s) l.

(** The guidance of one clause tag: the body of the loop, after
    [clause = clause.upper()].  The tests are separate [if]s in the
    source; their conditions exclude one another. *)
Definition clause_block (clause : text) : text * text :=
  let clause := upper clause in
  if text_in clause [T "HAVING"; T "GROUPBY"; T "GROUP BY"] then (group_by_plan, group_by_sql)
  else if text_in clause [T "ORDERBY"; T "ORDER BY"] then (order_by_plan, order_by_sql)
  else if text_eqb clause (T "LIMIT") then (limit_plan, limit_sql)
  else if text_eqb clause (T "JOIN") then (join_plan, join_sql)
  else if text_eqb clause (T "UNION") then (union_plan, union_sql)
  else if text_eqb clause (T "INTERSECT") then (intersect_plan, intersect_sql)
  else if text_eqb clause (T "EXCEPT") then (except_plan, except_sql)
  else ([], []).

(** The loop [for clause in clauses], with the accumulators [plan] and
    [sql]. *)
Fixpoint clause_loop (clauses : list text) (plan sql : text) : text * text :=
  match clauses with
  | [] => (plan, sql)
  | clause :: rest =>
      let '(p, q) := clause_block clause in
      clause_loop rest (plan ++ p) (sql ++ q)
  end.

Definition clause_specific_prompts (clauses : list text) : text * text :=
  clause_loop clauses [] [].

End Policy.
Import Policy.

(* ================================================================= *)
(** ** Clause detector ([analyze_by_subproblems.py]) *)

Module Detector.

(** [clause_patterns], in the insertion order of the dictionary. *)
Definition clause_patterns : list (text * list text) :=
  [ (T "SELECT", [T "SELECT"; T "SELECTING"; T "COLUMNS"; T "FIELDS"]);
    (T "FROM", [T "FROM"; T "TABLE"; T "TABLES"]);
    (T "WHERE", [T "WHERE"; T "FILTER"; T "CONDITION"; T "FILTERING"]);
    (T "JOIN", [T "JOIN"; T "JOINING"; T "INNER JOIN"; T "LEFT JOIN";
                T "RIGHT JOIN"; T "OUTER JOIN"]);
    (T "GROUP BY", [T "GROUP BY"; T "GROUPING"; T "AGGREGATE"; T "AGGREGATION"]);
    (T "HAVING", [T "HAVING"]);
    (T "ORDER BY", [T "ORDER BY"; T "SORT"; T "SORTING"; T "ORDERING"]);
    (T "LIMIT", [T "LIMIT"; T "TOP"; T "FIRST"]);
    (T "UNION", [T "UNION"]);
    (T "INTERSECT", [T "INTERSECT"]);
    (T "EXCEPT", [T "EXCEPT"; T "MINUS"]);
    (T "DISTINCT", [T "DISTINCT"; T "UNIQUE"]);
    (T "SUBQUERY", [T "SUBQUERY"; T "NESTED"; T "INNER QUERY"]) ].

(** [extract_clauses_from_text(text)]: a clause is appended once, at
    the first of its patterns found in the upper-cased text. *)
Definition extract_clauses_from_text (txt : text) : list text :=
  let text_upper := upper txt in
  map fst
    (filter (fun cp => existsb (fun pattern => contains pattern text_upper) (snd cp))
            clause_patterns).

(** [d[key]] when [key in d]. *)
Fixpoint lookup (key : text) (fields : list (text * json)) : option json :=
  match fields with
  | [] => None
  | (k, v) :: rest => if text_eqb k key then Some v else lookup key rest
  end.

(** Truthiness of a value ([if clauses]). *)
Definition truthy (v : json) : bool :=
  match v with
  | JNull => false
  | JBool b => b
  | JInt n => negb (Z.eqb n 0)
  | JFloat q => negb (Qeq_bool q 0)
  | JStr s => negb (is_empty s)
  | JArr items => match items with [] => false | _ :: _ => true end
  | JObj fields => match fields with [] => false | _ :: _ => true end
  end.

(** Lists and dictionaries cannot be members of a set. *)
Definition hashable (v : json) : bool :=
  match v with
  | JArr _ | JObj _ => false
  | _ => true
  end.

(** The numeric value of a number or a boolean ([True == 1]). *)
Definition number_of (v : json) : option Q :=
  match v with
  | JBool b => Some (if b then 1%Q else 0%Q)
  | JInt n => Some (inject_Z n)
  | JFloat q => Some q
  | _ => None
  end.

(** [a == b] on hashable values. *)
Definition py_eqb (a b : json) : bool :=
  match a, b with
  | JNull, JNull => true
  | JStr s, JStr t => text_eqb s t
  | _, _ =>
      match number_of a, number_of b with
      | Some x, Some y => Qeq_bool x y
      | _, _ => false
      end
  end.

(** The members of [set(l)], each kept at its first occurrence.  The
    iteration order of a Python set is unspecified; nothing below
    depends on the order chosen here. *)
Fixpoint dedup (l : list json) : list json :=
  match l with
  | [] => []
  | x :: rest => x :: filter (fun y => negb (py_eqb x y)) (dedup rest)
  end.

Definition type_name (v : json) : text :=
  match v with
  | JNull => T "NoneType"
  | JBool _ => T "bool"
  | JInt _ => T "int"
  | JFloat _ => T "float"
  | JStr _ => T "str"
  | JArr _ => T "list"
  | JObj _ => T "dict"
  end.

(** [list(set(v))] for an arbitrary value [v]: a list is iterated (its
    members must be hashable), a string gives its characters, a
    dictionary its keys; any other value is not iterable. *)
Definition list_of_set (v : json) : result (list json) :=
  match v with
  | JArr items =>
      match find (fun x => negb (hashable x)) items with
      | Some bad => Raise (TypeError (T "unhashable type: '" ++ type_name bad ++ T "'"))
      | None => Ok (dedup items)
      end
  | JStr s => Ok (dedup (map (fun c => JStr [c]) s))
  | JObj fields => Ok (dedup (map (fun kv => JStr (fst kv)) fields))
  | _ => Raise (TypeError (T "'" ++ type_name v ++ T "' object is not iterable"))
  end.

(** The loop over the sub-items (Methods 2 and 3): an object with a
    ["clause"] field contributes that field, a string contributes the
    clauses extracted from it, anything else nothing. *)
Fixpoint collect_items (items : list json) : list json :=
  match items with
  | [] => []
  | item :: rest =>
      match item with
      | JObj fields =>
          match lookup (T "clause") fields with
          | Some v => v :: collect_items rest
          | None => collect_items rest
          end
      | JStr s => map JStr (extract_clauses_from_text s) ++ collect_items rest
      | _ => collect_items rest
      end
  end.

Section Parse.
Variable E : Env.

(** The value of the variable [clauses] after the four methods, for
    the decoded value [data]. *)
Definition clauses_of_data (data : json) : json :=
  let as_text := JArr (map JStr (extract_clauses_from_text (json_dumps E data))) in
  match data with
  | JObj fields =>
      match lookup (T "clauses") fields with
      | Some v => v
      | None =>
          match lookup (T "subproblems") fields with
          | Some (JArr items) => JArr (collect_items items)
          | Some _ => JArr []
          | None => as_text
          end
      end
  | JArr items => JArr (collect_items items)
  | _ => as_text
  end.

(** The value of the variable [clauses] when the [try] block is left:
    [except json.JSONDecodeError] handles the decoding error only, any
    other exception of [json.loads] leaves the function. *)
Definition detected_clauses (sub_json : text) : result json :=
  match json_loads E sub_json with
  | LoadsRaised e => Raise e
  | DecodeError => Ok (JArr (map JStr (extract_clauses_from_text sub_json)))
  | Decoded data => Ok (clauses_of_data data)
  end.

(** [parse_subproblems(sub_json)]:
    [return list(set(clauses)) if clauses else []]. *)
Definition parse_subproblems (sub_json : text) : result (list json) :=
  match detected_clauses sub_json with
  | Raise e => Raise e
  | Ok clauses => if truthy clauses then list_of_set clauses else Ok []
  end.
End Parse.

End Detector.
Import Detector.

(* ================================================================= *)
(** ** JSON extraction ([clean_json], utils.py) *)

(** [text.find(c)]: the index of the first occurrence. *)
Fixpoint find_char (c : ascii) (s : text) : option nat :=
  match s with
  | [] => None
  | d :: s' => if Ascii.eqb c d then Some 0
               else option_map S (find_char c s')
  end.

(** [text.rfind(c)]: the index of the last occurrence. *)
Fixpoint rfind_char (c : ascii) (s : text) : option nat :=
  match s with
  | [] => None
  | d :: s' =>
      match rfind_char c s' with
      | Some i => Some (S i)
      | None => if Ascii.eqb c d then Some 0 else None
      end
  end.

(** [text[start:stop]] for indices within the text. *)
Definition slice (start stop : nat) (s : text) : text :=
  skipn start (firstn stop s).

(** The characters of [strip("`\n\r ")]. *)
Definition json_strip_char (c : ascii) : bool :=
  Ascii.eqb c "`" || Ascii.eqb c "010" || Ascii.eqb c "013" || Ascii.eqb c " ".

Definition clean_json (txt : text) : result text :=
  match find_char "{" txt with
  | None => Raise (ValueError (T "No JSON object found"))
  | Some start =>
      match rfind_char "}" txt with
      | None => Raise (ValueError (T "No closing '}' found"))
      | Some stop => Ok (strip_chars json_strip_char (slice start (stop + 1) txt))
      end
  end.

(* ================================================================= *)
(** ** Prompt builders ([prompts.py]) *)

Module Prompts.

Definition dquote : ascii := "034".

Definition alt_schema_linking_agent_prompt (question : text) (table_schema : text) : text :=
  T "You are a Schema Linking Agent in an NL2SQL framework. Return the relevant schema links for generating SQL query for the question.

Given:
- A natural language question
- Database schemas with columns, primary keys (PK), and foreign keys (FK)

Cross-check your schema for:
- Missing or incorrect FK-PK relationships and add them
- Incomplete column selections (especially join keys)
- Table alias mismatches
- Linkage errors that would lead to incorrect joins or groupBy clauses

Question: "
  ++ question
  ++ T "

Table Schema:
"
  ++ table_schema
  ++ T "

Return the schema links in given format:

Table: primary_key_col, foreign_key_col, col1, col2, ... all other columns in Table

ONLY list relevant tables and columns and Foreign Keys in given format and no other extra characters.
".

Definition subproblem_agent_prompt (question : text) (schema : text) : text :=
  T "You are a Subproblem Agent in an NL2SQL system. Break down the question into subproblems.

Question: "
  ++ question
  ++ T "

Schema:
"
  ++ schema
  ++ T "

Identify SQL clauses needed (SELECT, WHERE, JOIN, GROUP BY, HAVING, ORDER BY, LIMIT, etc.)

Return JSON format:
{
  "
  ++ [dquote]
  ++ T "clauses"
  ++ [dquote]
  ++ T ": ["
  ++ [dquote]
  ++ T "SELECT"
  ++ [dquote]
  ++ T ", "
  ++ [dquote]
  ++ T "WHERE"
  ++ [dquote]
  ++ T ", "
  ++ [dquote]
  ++ T "JOIN"
  ++ [dquote]
  ++ T "],
  "
  ++ [dquote]
  ++ T "subproblems"
  ++ [dquote]
  ++ T ": [
    {"
  ++ [dquote]
  ++ T "clause"
  ++ [dquote]
  ++ T ": "
  ++ [dquote]
  ++ T "SELECT"
  ++ [dquote]
  ++ T ", "
  ++ [dquote]
  ++ T "description"
  ++ [dquote]
  ++ T ": "
  ++ [dquote]
  ++ T "..."
  ++ [dquote]
  ++ T "},
    {"
  ++ [dquote]
  ++ T "clause"
  ++ [dquote]
  ++ T ": "
  ++ [dquote]
  ++ T "WHERE"
  ++ [dquote]
  ++ T ", "
  ++ [dquote]
  ++ T "description"
  ++ [dquote]
  ++ T ": "
  ++ [dquote]
  ++ T "..."
  ++ [dquote]
  ++ T "}
  ]
}

Return ONLY valid JSON, no extra text.
".

Definition query_plan_agent_prompt (question : text) (schema : text) (subproblems : text) : text :=
  T "You are a Query Plan Agent. Create a step-by-step natural language plan for SQL generation.

Question: "
  ++ question
  ++ T "

Schema:
"
  ++ schema
  ++ T "

Subproblems:
"
  ++ subproblems
  ++ T "

Create a clear plan with:
1. Which tables to use
2. What columns to select
3. Join conditions
4. Filter conditions
5. Grouping/aggregation if needed
6. Sorting/limiting if needed

Return a concise bullet-pointed plan. Do NOT write SQL code.
".

Definition sql_agent_prompt (question : text) (plan : text) (schema : text) : text :=
  T "You are a SQL Generation Agent. Generate SQL query based on the plan.

Question: "
  ++ question
  ++ T "

Schema:
"
  ++ schema
  ++ T "

Plan:
"
  ++ plan
  ++ T "

Generate a valid SQL query that:
- Follows standard SQL syntax
- Uses correct table and column names from schema
- Implements all steps in the plan
- Is executable on SQLite

Return ONLY the SQL query, no explanations.
".

Definition correction_plan_agent_prompt (question : text) (sql : text) (schema : text) (error : option text) : text :=
  T "You are a SQL Correction Plan Agent. The generated SQL has an error.

Question: "
  ++ question
  ++ T "

Schema:
"
  ++ schema
  ++ T "

Current SQL:
"
  ++ sql
  ++ T "

Error:
"
  ++ str_opt_text error
  ++ T "

Analyze the error and create a correction plan. What needs to be fixed?

Return a concise correction plan.
".

Definition correction_sql_agent_prompt (question : text) (schema : text) (correction_plan : text) (old_sql : text) : text :=
  T "You are a SQL Correction Agent. Fix the SQL based on the correction plan.

Question: "
  ++ question
  ++ T "

Schema:
"
  ++ schema
  ++ T "

Old SQL (with error):
"
  ++ old_sql
  ++ T "

Correction Plan:
"
  ++ correction_plan
  ++ T "

Generate the corrected SQL query. Return ONLY the SQL, no explanations.
".

End Prompts.
Import Prompts.

(* ================================================================= *)
(** ** Pipeline orchestrator ([run_eval.py]) *)

Definition MAX_CRITIC_ATTEMPTS : nat := 3.

(** The outcome of the [try] block for one sample: the generation stage
    failed (the early [continue]), or the sample was scored. *)
Inductive outcome : Type :=
| GenerationFailed
| Scored (sql : text) (exact valid exec : bool).

(** A finalized Sample Result (the dictionary [entry] when it is
    appended to [results]). *)
Record entry : Type := {
  sample_id : nat;
  entry_question : text;
  entry_db_id : text;
  gold_sql : text;
  gen_sql : text;
  exact_match : bool;
  valid_sql : bool;
  exec_match : bool;
  error : option text
}.

(** The counters and the result list of a run. *)
Record run : Type := {
  total : nat;
  exact_matches : nat;
  valid_sqls : nat;
  exec_correct : nat;
  results : list entry
}.

(** The variables of the correction loop. *)
Record loop_state : Type := {
  cur_sql : text;
  cur_exec_match : bool;
  cur_error : option text;
  exec_failed : bool;
  attempts : nat
}.

(** [clause.upper()] needs a string: the members of the clause list
    as strings, or the AttributeError of the first one that is not. *)
Fixpoint as_tags (clauses : list json) : result (list text) :=
  match clauses with
  | [] => Ok []
  | JStr s :: rest =>
      match as_tags rest with
      | Ok tags => Ok (s :: tags)
      | Raise e => Raise e
      end
  | v :: _ =>
      Raise (AttributeError (T "'" ++ type_name v ++ T "' object has no attribute 'upper'"))
  end.

Section Orchestrator.
Variable E : Env.

(** The state threaded through a run: the backend's state, and the
    prompts sent so far (a ghost log, oldest first). *)
Record state : Type := {
  world : World E;
  prompts_sent : list text
}.

(** A computation: it may not terminate within its fuel ([None]),
    raise, or return. *)
Definition M (A : Type) : Type := state -> option (result A * state).

Definition ret {A} (a : A) : M A := fun st => Some (Ok a, st).

Definition bind {A B} (m : M A) (k : A -> M B) : M B :=
  fun st =>
    match m st with
    | None => None
    | Some (Raise e, st') => Some (Raise e, st')
    | Some (Ok a, st') => k a st'
    end.

Definition lift {A} (r : result A) : M A := fun st => Some (r, st).

Definition out_of_fuel {A} : M A := fun _ => None.

Notation "x <- m ;; k" := (bind m (fun x => k))
  (at level 61, m at next level, right associativity).

(** [call_agent(prompt, MODEL)]: the stripped content of the reply,
    or the empty string when the call raised. *)
Definition call_agent (prompt : text) : M text :=
  fun st =>
    let '(reply, w) := chat_completion E prompt (world st) in
    Some (Ok (match reply with
              | Some content => strip content
              | None => []
              end),
          {| world := w; prompts_sent := prompts_sent st ++ [prompt] |}).

Section Sample.
Variable item : sample.

(** [while exec_failed and attempts < MAX_CRITIC_ATTEMPTS]. *)
Definition loop_cond (ls : loop_state) : bool :=
  exec_failed ls && (attempts ls <? MAX_CRITIC_ATTEMPTS).

(** One iteration of the loop body; the boolean tells whether the
    iteration left the loop through [break]. *)
Definition loop_body (corrected_schema : text) (ls : loop_state)
  : M (loop_state * bool) :=
  correction_plan <-
    call_agent (correction_plan_agent_prompt
                  (question item) (cur_sql ls) corrected_schema (cur_error ls)) ;;
  corrected_sql <-
    call_agent (correction_sql_agent_prompt
                  (question item) corrected_schema correction_plan (cur_sql ls)) ;;
  if is_empty corrected_sql then ret (ls, true)
  else
    let sql := postprocess_sql corrected_sql in
    let '(exec_match, error) := query_execution E item sql in
    ret ({| cur_sql := sql;
            cur_exec_match := exec_match;
            cur_error := error;
            exec_failed := negb exec_match;
            attempts := attempts ls + 1 |}, false).

(** The loop; [iterations] counts the executions of the body. *)
Fixpoint correction_loop (fuel : nat) (corrected_schema : text)
         (ls : loop_state) (iterations : nat) : M (loop_state * nat) :=
  match fuel with
  | 0 => out_of_fuel
  | S fuel' =>
      if loop_cond ls then
        r <- loop_body corrected_schema ls ;;
        (if snd r then ret (fst r, S iterations)
         else correction_loop fuel' corrected_schema (fst r) (S iterations))
      else ret (ls, iterations)
  end.

(** Agent 1, with the fallback to the raw schema. *)
Definition schema_linking (schema : text) : M text :=
  corrected_schema <-
    call_agent (alt_schema_linking_agent_prompt (question item) schema) ;;
  ret (if is_empty corrected_schema then schema else corrected_schema).

(** Agent 2: the decomposition text handed to the clause detector. *)
Definition decomposition (corrected_schema : text) : M text :=
  sub_json_raw <-
    call_agent (subproblem_agent_prompt (question item) corrected_schema) ;;
  if is_empty sub_json_raw then ret (T "{}") else lift (clean_json sub_json_raw).

(** [list(set(parse_subproblems(sub_json)))] and
    [clause_specific_prompts] on it. *)
Definition clause_guidance (sub_json : text) : M (text * text) :=
  parsed <- lift (parse_subproblems E sub_json) ;;
  subproblem_specific_clauses <- lift (list_of_set (JArr parsed)) ;;
  tags <- lift (as_tags subproblem_specific_clauses) ;;
  ret (clause_specific_prompts tags).

(** Agent 3, with the generic plan as fallback. *)
Definition planning (corrected_schema sub_json : text) : M text :=
  plan <-
    call_agent (query_plan_agent_prompt (question item) corrected_schema sub_json) ;;
  ret (if is_empty plan then T "Generate SQL based on the question" else plan).

(** Metrics 1 to 3 on the final candidate. *)
Definition scoring (sql : text) (exec_match : bool) : outcome :=
  let gold_sql_processed := postprocess_sql (query item) in
  let exact := text_eqb (lower (strip sql)) (lower (strip gold_sql_processed)) in
  let '(_, gen_err) := exec_query E (db_path (db_id item)) sql in
  let valid := match gen_err with None => true | Some _ => false end in
  Scored sql exact valid exec_match.

(** Agents 4 and 5 and the scoring. *)
Definition generation (fuel : nat) (plan corrected_schema : text) : M outcome :=
  sql <- call_agent (sql_agent_prompt (question item) plan corrected_schema) ;;
  if is_empty sql then ret GenerationFailed
  else
    let sql := postprocess_sql sql in
    let '(exec_match, error) := query_execution E item sql in
    r <- correction_loop fuel corrected_schema
           {| cur_sql := sql;
              cur_exec_match := exec_match;
              cur_error := error;
              exec_failed := negb exec_match;
              attempts := 0 |} 0 ;;
    ret (scoring (cur_sql (fst r)) (cur_exec_match (fst r))).

(** The [try] block of one sample. *)
Definition sample_body (fuel : nat) (schema : text) : M outcome :=
  corrected_schema <- schema_linking schema ;;
  sub_json <- decomposition corrected_schema ;;
  _ <- clause_guidance sub_json ;;
  plan <- planning corrected_schema sub_json ;;
  generation fuel plan corrected_schema.

(** The entry appended for the sample, and the counters. *)
Definition new_entry (idx : nat) (sql : text) (exact valid exec : bool)
           (err : option text) : entry :=
  {| sample_id := idx + 1;
     entry_question := question item;
     entry_db_id := db_id item;
     gold_sql := query item;
     gen_sql := sql;
     exact_match := exact;
     valid_sql := valid;
     exec_match := exec;
     error := err |}.

Definition count (b : bool) : nat := if b then 1 else 0.

Definition record_outcome (idx : nat) (r : result outcome) (acc : run) : run :=
  match r with
  | Ok (Scored sql exact valid exec) =>
      {| total := total acc + 1;
         exact_matches := exact_matches acc + count exact;
         valid_sqls := valid_sqls acc + count valid;
         exec_correct := exec_correct acc + count exec;
         results := results acc ++ [new_entry idx sql exact valid exec None] |}
  | Ok GenerationFailed =>
      {| total := total acc + 1;
         exact_matches := exact_matches acc;
         valid_sqls := valid_sqls acc;
         exec_correct := exec_correct acc;
         results := results acc ++ [new_entry idx [] false false false None] |}
  | Raise e =>
      {| total := total acc + 1;
         exact_matches := exact_matches acc;
         valid_sqls := valid_sqls acc;
         exec_correct := exec_correct acc;
         results := results acc ++ [new_entry idx [] false false false (Some (str_exn e))] |}
  end.

(** One iteration of [for idx, item in enumerate(dev)].  The schema
    is loaded before the [try] block: an exception of [load_schema]
    leaves the loop and [evaluate].  A sample whose schema is empty is
    skipped; otherwise the [try] block runs and its outcome, or the
    exception it raised, is recorded. *)
Definition evaluate_sample (fuel idx : nat) (acc : run) (st : state)
  : option (result run * state) :=
  match load_schema E (db_id item) with
  | Raise e => Some (Raise e, st)
  | Ok schema =>
      if is_empty schema then Some (Ok acc, st)
      else
        match sample_body fuel schema st with
        | None => None
        | Some (r, st') => Some (Ok (record_outcome idx r acc), st')
        end
  end.
End Sample.

Fixpoint evaluate_from (fuel idx : nat) (dev : list sample) (acc : run)
         (st : state) : option (result run * state) :=
  match dev with
  | [] => Some (Ok acc, st)
  | item :: rest =>
      match evaluate_sample item fuel idx acc st with
      | None => None
      | Some (Raise e, st') => Some (Raise e, st')
      | Some (Ok acc', st') => evaluate_from fuel (S idx) rest acc' st'
      end
  end.

(** [dev[:num_samples]]. *)
Definition take (num_samples : Z) (dev : list sample) : list sample :=
  if (0 <=? num_samples)%Z then firstn (Z.to_nat num_samples) dev
  else firstn (List.length dev - Z.to_nat (- num_samples)) dev.

Definition empty_run : run :=
  {| total := 0; exact_matches := 0; valid_sqls := 0; exec_correct := 0;
     results := [] |}.

(** [evaluate(num_samples)], [dev] being the dataset that
    [load_spider] returned, up to the end of the loop: the counters and
    the results list.  With an empty dataset the function returns
    before anything is produced (inner [None]).  An exception of the
    taxonomy file or of [load_schema] is not handled and leaves the
    function.  The rates, the timing, the file written and the lines
    printed after the loop are left out here (see [evaluate_end]). *)
Definition evaluate (fuel : nat) (dev : list sample) (num_samples : Z)
           (st : state) : option (result (option run) * state) :=
  if is_nil dev then Some (Ok None, st)
  else
    match taxonomy_error E with
    | Some e => Some (Raise e, st)
    | None =>
        match evaluate_from fuel 0 (take num_samples dev) empty_run st with
        | None => None
        | Some (Raise e, st') => Some (Raise e, st')
        | Some (Ok r, st') => Some (Ok (Some r), st')
        end
    end.
End Orchestrator.

Arguments world {E} s.
Arguments prompts_sent {E} s.
Arguments ret {E A} a st.
Arguments bind {E A B} m k st.
Arguments lift {E A} r st.
Arguments out_of_fuel {E A} st.

(* ================================================================= *)
(** ** Scripted collaborators *)

(** A backend that plays a script: each call consumes the next reply of
    the list ([None] is a call that raises); an exhausted script keeps
    failing. *)
Definition scripted_chat (prompt : text) (script : list (option text))
  : option text * list (option text) :=
  match script with
  | [] => (None, [])
  | reply :: rest => (reply, rest)
  end.

(** A backend that gives the same reply to every call. *)
Definition constant_chat (reply : text) (prompt : text) (w : unit)
  : option text * unit := (Some reply, w).

(** A toy SQL engine: a table of the statements that run, each with its
    rows; every other statement is a syntax error. *)
Fixpoint table_execute (known : list (text * list row)) (db_file sql : text)
  : list row + text :=
  match known with
  | [] => inr (T "syntax error")
  | (stmt, rows) :: rest =>
      if text_eqb stmt sql then inl rows else table_execute rest db_file sql
  end.

(** The decoder and the encoder on the texts used below: the empty
    object decodes, every other text used below is not JSON. *)
Definition toy_loads (s : text) : loads_result :=
  if text_eqb s (T "{}") then Decoded (JObj []) else DecodeError.

Definition dumps_empty_object (v : json) : text :=
  match v with
  | JObj [] => T "{}"
  | _ => T "null"
  end.

(** Only the database [concert_singer] has a file. *)
Definition singer_db_exists (db_file : text) : bool :=
  text_eqb db_file (db_path (T "concert_singer")).

Definition scripted_env (known : list (text * list row)) (schema : text)
           (loads : text -> loads_result) : Env :=
  {| World := list (option text);
     chat_completion := scripted_chat;
     path_exists := singer_db_exists;
     sqlite_execute := table_execute known;
     render_schema := fun _ => Ok schema;
     json_loads := loads;
     json_dumps := dumps_empty_object;
     taxonomy_error := None |}.

Definition constant_env (reply : text) (known : list (text * list row))
           (schema : text) : Env :=
  {| World := unit;
     chat_completion := constant_chat reply;
     path_exists := singer_db_exists;
     sqlite_execute := table_execute known;
     render_schema := fun _ => Ok schema;
     json_loads := toy_loads;
     json_dumps := dumps_empty_object;
     taxonomy_error := None |}.

Definition start (E : Env) (w : World E) : state E :=
  {| world := w; prompts_sent := [] |}.

Definition singer_sample : sample :=
  {| question := T "How many singers are there?";
     query := T "SELECT count(*) FROM singer";
     db_id := T "concert_singer" |}.

Definition singer_db : list (text * list row) :=
  [ (T "select count(*) from singer", [[CInt 6]]);
    (T "select 1", [[CInt 1]]) ].

Definition singer_env : Env := scripted_env singer_db (T "singer: id") toy_loads.

(** The same collaborators with an engine that also runs the empty
    statement, as sqlite3 does. *)
Definition lenient_env : Env :=
  scripted_env (([], []) :: singer_db) (T "singer: id") toy_loads.

(** A state of the scripted backend: the replies still to come and the
    prompts already sent. *)
Definition singer_state (script : list (option text)) (sent : list text)
  : state singer_env :=
  Build_state singer_env script sent.

(** The loop variables after a first candidate that does not parse. *)
Definition failed_candidate : loop_state :=
  {| cur_sql := T "select 2";
     cur_exec_match := false;
     cur_error := Some (T "syntax error");
     exec_failed := true;
     attempts := 0 |}.

(** A sample on a database that has no file. *)
Definition unknown_db_sample : sample :=
  {| question := T "How many pets are there?";
     query := T "SELECT count(*) FROM pets";
     db_id := T "pets_1" |}.

(** The reference statement [select 1]. *)
Definition select_one_sample : sample :=
  {| question := T "What is one?";
     query := T "SELECT 1";
     db_id := T "concert_singer" |}.

(** The decomposition text whose ["clauses"] field is a number, and its
    decoding. *)
Definition scalar_clauses_text : text :=
  T "{" ++ [dquote] ++ T "clauses" ++ [dquote] ++ T ": 5}".

Definition scalar_clauses_loads (s : text) : loads_result :=
  if text_eqb s scalar_clauses_text then Decoded (JObj [(T "clauses", JInt 5)])
  else DecodeError.

Definition scalar_clauses_env : Env :=
  scripted_env singer_db (T "singer: id") scalar_clauses_loads.

(* ================================================================= *)
(** ** Predicates used in the statements *)

(** The text does not begin with whitespace. *)
Definition head_ok (s : text) : bool :=
  match s with
  | c :: _ => negb (is_space c)
  | [] => true
  end.

(** The text does not end with whitespace. *)
Definition last_ok (s : text) : bool := head_ok (rev s).

(** Every pair of adjacent characters satisfies [R]. *)
Fixpoint adj (R : ascii -> ascii -> bool) (s : text) : bool :=
  match s with
  | [] => true
  | c :: s' =>
      match s' with
      | d :: _ => R c d
      | [] => true
      end && adj R s'
  end.

(** No two whitespace characters in a row. *)
Definition no_ws_pair (c d : ascii) : bool := negb (is_space c && is_space d).

(** No whitespace before whitespace or before a comma. *)
Definition no_ws_before (c d : ascii) : bool :=
  negb (is_space c && (is_space d || Ascii.eqb d ",")).

(** The only whitespace character is the space. *)
Definition plain_space (c : ascii) : bool := implb (is_space c) (Ascii.eqb c " ").

(** [lower] leaves the character as it is. *)
Definition lower_fixed (c : ascii) : bool := Ascii.eqb (lower_char c) c.

(** Any character but the backtick. *)
Definition not_backtick (c : ascii) : bool := negb (Ascii.eqb c "`").

(** The text is lower-case, has no backtick, and its whitespace is
    single spaces between other characters, none of them before a
    comma. *)
Definition tidy (s : text) : Prop :=
  forallb lower_fixed s = true
  /\ forallb not_backtick s = true
  /\ forallb plain_space s = true
  /\ adj no_ws_before s = true
  /\ head_ok s = true
  /\ last_ok s = true.

(** The statement keyword, if the text has one, is at its start. *)
Definition statement_at_start (s : text) : bool :=
  match search_start false s with
  | None => true
  | Some _ => keyword_here s
  end.

(** A tag that has guidance text. *)
Definition has_guidance (clause : text) : bool :=
  negb (is_empty (fst (clause_block clause)) && is_empty (snd (clause_block clause))).

(** The variables [exec_match], [error] and [exec_failed] of the
    correction loop are the verdict of the comparator on the current
    candidate. *)
Definition verdict_of_candidate (E : Env) (item : sample) (ls : loop_state) : Prop :=
  (cur_exec_match ls, cur_error ls) = query_execution E item (cur_sql ls)
  /\ exec_failed ls = negb (cur_exec_match ls).

(** The statement executes without error on the database. *)
Definition executes (E : Env) (db sql : text) : Prop :=
  snd (exec_query E (db_path db) sql) = None.

(** What the metrics of an outcome say about execution. *)
Definition outcome_sound (E : Env) (item : sample) (r : result outcome) : Prop :=
  match r with
  | Ok (Scored sql exact valid exec) =>
      (valid = true <-> executes E (db_id item) sql)
      /\ (exec = true -> executes E (db_id item) (postprocess_sql sql))
  | _ => True
  end.

Definition entry_sound (E : Env) (e : entry) : Prop :=
  (valid_sql e = true -> executes E (entry_db_id e) (gen_sql e))
  /\ (exec_match e = true -> executes E (entry_db_id e) (postprocess_sql (gen_sql e))).

(** An entry that carries an error message has the shape of a failure. *)
Definition failure_shape (e : entry) : Prop :=
  gen_sql e = [] /\ exact_match e = false /\ valid_sql e = false
  /\ exec_match e = false.

(** The sample ids of the samples the loop does not skip: position in
    the dataset plus one, for the samples whose schema loads. *)
Fixpoint processed_ids (E : Env) (idx : nat) (dev : list sample) : list nat :=
  match dev with
  | [] => []
  | item :: rest =>
      match load_schema E (db_id item) with
      | Ok schema =>
          if is_empty schema then processed_ids E (S idx) rest
          else (idx + 1) :: processed_ids E (S idx) rest
      | Raise _ => []
      end
  end.

(** [load_schema] returns for every sample of the list. *)
Definition schemas_load (E : Env) (dev : list sample) : Prop :=
  forall item, In item dev -> exists schema, load_schema E (db_id item) = Ok schema.

(** The exception [e] is one that [evaluate] does not handle: it comes
    from the taxonomy file or from [load_schema] on a sample of the
    list. *)
Definition escapes (E : Env) (dev : list sample) (e : exn) : Prop :=
  taxonomy_error E = Some e
  \/ exists item, In item dev /\ load_schema E (db_id item) = Raise e.

(** How [evaluate] ended over the samples [dev] of a non-empty dataset:
    with a run that satisfies [P], or by an exception that it does not
    handle.  (When neither the taxonomy file nor [load_schema] raises,
    only the first case is left.) *)
Definition run_ends_with (E : Env) (dev : list sample) (P : run -> Prop)
           (out : result (option run)) : Prop :=
  match out with
  | Ok (Some r) => P r
  | Ok None => False
  | Raise e => escapes E dev e
  end.

(** The plain-text decomposition of the detector's own test (its
    fourth input format). *)
Definition pure_text_reply : text := T "We need to SELECT, WHERE, and JOIN tables".

(** The reference statement is not in the toy engine's table, the
    candidate is. *)
Definition broken_gold_sample : sample :=
  {| question := T "How many singers are there?";
     query := T "SELECT count(*) FROM singers";
     db_id := T "concert_singer" |}.

(* ================================================================= *)
(** ** JSON extraction for the critic ([clean_json_prefix], utils.py) *)

(** [re.sub(r'^```+', '', s)]: a leading run of at least three
    backticks is removed whole. *)
Definition remove_leading_fence (s : text) : text :=
  if starts_with (T "```") s then drop_while (fun c => Ascii.eqb c "`") s else s.

(** The second [re.sub], whose pattern is a leading run of single or
    double quote characters: that run is removed. *)
Definition quote_char (c : ascii) : bool := Ascii.eqb c "'" || Ascii.eqb c dquote.

Definition remove_leading_quotes (s : text) : text := drop_while quote_char s.

(** [clean_json_prefix(text)].  [end] is the index of the last closing
    brace in [text] (-1 when there is none) and it is applied to
    [trimmed], the text from the first opening brace on. *)
Definition clean_json_prefix (txt : text) : result text :=
  match find_char "{" txt with
  | None => Raise (ValueError (T "No JSON object found in critic response"))
  | Some start =>
      let trimmed := skipn start txt in
      let trimmed := remove_leading_fence trimmed in
      let trimmed := remove_leading_quotes trimmed in
      let stop := match rfind_char "}" txt with
                  | Some e => e + 1
                  | None => 0
                  end in
      Ok (strip_chars json_strip_char (firstn stop trimmed))
  end.

(* ================================================================= *)
(** ** The end of [evaluate] ([run_eval.py]) *)

(** How a call of [evaluate] ends.  With an empty dataset it returns
    before the loop.  An exception of the taxonomy file or of
    [load_schema] leaves the function before anything is written.
    After the loop the summary is built (its rates are guarded by
    [total > 0]) and the report file is written, which may raise
    ([os.makedirs], [open], [json.dump]); the lines printed after that
    divide by [total] without a guard, so with [total = 0] the call
    ends in a ZeroDivisionError, the report being already written. *)
Inductive run_end : Type :=
| NoDataset
| Escaped (e : exn)
| ReportFailed (e : exn) (r : run)
| ReportWrittenThenZeroDivision (r : run)
| ReportPrinted (r : run).

(** [report_error r] is the exception that writing the report of the
    run [r] raises on the host, if any. *)
Definition evaluate_end (E : Env) (report_error : run -> option exn) (fuel : nat)
           (dev : list sample) (num_samples : Z) (st : state E)
  : option (run_end * state E) :=
  match evaluate E fuel dev num_samples st with
  | None => None
  | Some (Raise e, st') => Some (Escaped e, st')
  | Some (Ok None, st') => Some (NoDataset, st')
  | Some (Ok (Some r), st') =>
      match report_error r with
      | Some e => Some (ReportFailed e r, st')
      | None =>
          Some (if total r =? 0 then ReportWrittenThenZeroDivision r
                else ReportPrinted r, st')
      end
  end.

(* ================================================================= *)
(** ** The start-up script ([START.py]) *)

Module Startup.

(** What the script asks of its host: which paths exist, whether the
    [openai] package can be imported, and Python's [int] on a string
    ([None] is its ValueError). *)
Record Host : Type := {
  host_path_exists : text -> bool;
  openai_importable : bool;
  py_int : text -> option Z
}.






(** How [main] ends: [sys.exit(code)], a call of [run_evaluation] with
    a number of samples, or the EOFError of [input] when the input is
    exhausted. *)
Inductive main_end : Type :=
| Exit (code : Z)
| RunEvaluation (num_samples : Z)
| EndOfInput.

(** The menu loop, on the lines typed by the user. *)
Fixpoint menu (H : Host) (lines : list text) : main_end :=
  match lines with
  | [] => EndOfInput
  | line :: rest =>
      let choice := strip line in
      if text_eqb choice (T "1") then RunEvaluation 100
      else if text_eqb choice (T "2") then RunEvaluation 10
      else if text_eqb choice (T "3") then
        match rest with
        | [] => EndOfInput
        | number :: rest' =>
            match py_int H number with
            | Some num =>
                if ((1 <=? num) && (num <=? 1034))%Z then RunEvaluation num
                else menu H rest'
            | None => menu H rest'
            end
        end
      else if text_eqb choice (T "4") then Exit 0
      else menu H rest
  end.


End Startup.

(* ================================================================= *)
(** ** Definitions used in the further properties *)

(** A character of the normalized text is a space or a lower-cased
    character of the input. *)
Definition from_input (x : text) (c : ascii) : bool :=
  Ascii.eqb c " " || existsb (Ascii.eqb c) (lower x).

(** The text begins with one of the two keywords, in lower case. *)
Definition keyword_first (s : text) : bool :=
  starts_with (T "select") s || starts_with (T "insert") s.

(** What a call of [exec_query] returned: rows and no error, or an
    error and no rows. *)
Definition is_outcome (o : option (list row) * option text) : Prop :=
  match o with
  | (Some _, None) | (None, Some _) => True
  | _ => False
  end.

(** The comparison that [query_execution] makes once both statements
    have been executed: [gold] and [gen] are what the two calls of
    [exec_query] returned, whatever the engine did. *)
Definition compare_outcomes (gold gen : option (list row) * option text)
  : bool * option text :=
  let '(gold_rows, gold_err) := gold in
  let '(gen_rows, gen_err) := gen in
  let exec_match :=
    match gen_err, gold_err, gen_rows, gold_rows with
    | None, None, Some gen, Some gold =>
        rows_eqb (normalize_rows gen) (normalize_rows gold)
    | _, _, _, _ => false
    end in
  (exec_match, gen_err).


(** The number of results that have a flag set. *)
Definition count_flag (flag : entry -> bool) (l : list entry) : nat :=
  List.length (filter flag l).

(** The candidate of the loop is a normalized text. *)
Definition candidate_normalized (ls : loop_state) : Prop :=
  exists raw, cur_sql ls = postprocess_sql raw.

(** A decomposition whose ["clauses"] field lists strings, and its
    decoding. *)
Definition clauses_list_text : text :=
  T "{" ++ [dquote] ++ T "clauses" ++ [dquote] ++ T ": ["
    ++ [dquote] ++ T "SELECT" ++ [dquote] ++ T ", "
    ++ [dquote] ++ T "select" ++ [dquote] ++ T ", "
    ++ [dquote] ++ T "SELECT" ++ [dquote] ++ T "]}".

Definition clauses_list_loads (s : text) : loads_result :=
  if text_eqb s clauses_list_text
  then Decoded (JObj [(T "clauses", JArr [JStr (T "SELECT"); JStr (T "select");
                                             JStr (T "SELECT")])])
  else DecodeError.

Definition clauses_list_env : Env :=
  scripted_env singer_db (T "singer: id") clauses_list_loads.

(** A host on which every file exists and [int] reads one number. *)
Definition ready_host : Startup.Host :=
  {| Startup.host_path_exists := fun _ => true;
     Startup.openai_importable := true;
     Startup.py_int := fun s => if text_eqb s (T "25") then Some 25%Z
                                else if text_eqb s (T "5000") then Some 5000%Z
                                else None |}.


(** The schema of the sample's database loads. *)
Definition schema_loads (E : Env) (item : sample) : bool :=
  match load_schema E (db_id item) with
  | Ok schema => negb (is_empty schema)
  | Raise _ => false
  end.

(** [load_schema] returns the empty string for the sample. *)
Definition schema_empty (E : Env) (item : sample) : bool :=
  match load_schema E (db_id item) with
  | Ok schema => is_empty schema
  | Raise _ => false
  end.

(** The entry [e] was made for the sample at position [sample_id e - 1]
    of the dataset, counted from [idx], and carries its fields. *)
Definition from_sample (E : Env) (idx : nat) (dev : list sample) (e : entry) : Prop :=
  idx < sample_id e
  /\ exists item,
       nth_error dev (sample_id e - 1 - idx) = Some item
       /\ entry_question e = question item
       /\ entry_db_id e = db_id item
       /\ gold_sql e = query item
       /\ schema_loads E item = true.

(* ================================================================= *)
(** * Properties *)

(** ** Characters and text *)

Lemma text_eqb_eq (a b : text) : text_eqb a b = true <-> a = b.
Proof.
  revert b; induction a as [|x a IH]; intros [|y b]; simpl; split;
    try congruence; try reflexivity.
  - intros H. apply andb_true_iff in H as [H1 H2].
    apply Ascii.eqb_eq in H1. apply IH in H2. congruence.
  - intros H. injection H as -> ->.
    rewrite Ascii.eqb_refl. simpl. now apply IH.
Qed.

Lemma text_eqb_refl (a : text) : text_eqb a a = true.
Proof. now apply text_eqb_eq. Qed.

Lemma tuple_eqb_eq (a b : list text) : tuple_eqb a b = true <-> a = b.
Proof.
  revert b; induction a as [|x a IH]; intros [|y b]; simpl; split;
    try congruence; try reflexivity.
  - intros H. apply andb_true_iff in H as [H1 H2].
    apply text_eqb_eq in H1. apply IH in H2. congruence.
  - intros H. injection H as -> ->.
    rewrite text_eqb_refl. simpl. now apply IH.
Qed.

Lemma rows_eqb_eq (a b : list (list text)) : rows_eqb a b = true <-> a = b.
Proof.
  revert b; induction a as [|x a IH]; intros [|y b]; simpl; split;
    try congruence; try reflexivity.
  - intros H. apply andb_true_iff in H as [H1 H2].
    apply tuple_eqb_eq in H1. apply IH in H2. congruence.
  - intros H. injection H as -> ->.
    rewrite (proj2 (tuple_eqb_eq y y) eq_refl). simpl. now apply IH.
Qed.

(* ================================================================= *)
(** ** SQL normalizer *)

Lemma lower_char_idem (c : ascii) : lower_char (lower_char c) = lower_char c.
Proof. destruct c as [[] [] [] [] [] [] [] []]; reflexivity. Qed.

(** *** Prefixes, suffixes and [strip] *)

Lemma drop_while_split (f : ascii -> bool) (s : text) :
  exists pre, s = pre ++ drop_while f s /\ Forall (fun c => f c = true) pre.
Proof.
  induction s as [|c s (pre & Hs & Hpre)]; simpl.
  - exists []. split; [reflexivity|constructor].
  - destruct (f c) eqn:Hc.
    + exists (c :: pre). split; [simpl; congruence|now constructor].
    + exists []. split; [reflexivity|constructor].
Qed.

Lemma drop_while_head (f : ascii -> bool) (s : text) :
  match drop_while f s with
  | c :: _ => f c = false
  | [] => True
  end.
Proof.
  induction s as [|c s IH]; simpl; [exact I|].
  destruct (f c) eqn:Hc; [exact IH|exact Hc].
Qed.

Lemma drop_while_id (f : ascii -> bool) (s : text) :
  match s with c :: _ => f c = false | [] => True end -> drop_while f s = s.
Proof. destruct s as [|c s]; simpl; [reflexivity|]. now intros ->. Qed.

(** [strip_chars f s] is what is left of [s] between a prefix and a
    suffix of characters of the class [f]. *)
Lemma strip_chars_split (f : ascii -> bool) (s : text) :
  exists pre suf,
    s = pre ++ strip_chars f s ++ suf
    /\ Forall (fun c => f c = true) pre
    /\ Forall (fun c => f c = true) suf.
Proof.
  unfold strip_chars.
  destruct (drop_while_split f s) as (pre & Hs & Hpre).
  destruct (drop_while_split f (rev (drop_while f s))) as (suf & Ht & Hsuf).
  exists pre, (rev suf). split; [|split].
  - rewrite Hs at 1. f_equal.
    rewrite <- (rev_involutive (drop_while f s)) at 1.
    rewrite Ht at 1. now rewrite rev_app_distr.
  - exact Hpre.
  - now apply Forall_rev.
Qed.

Lemma strip_last_ok (s : text) : last_ok (strip s) = true.
Proof.
  unfold last_ok, strip, strip_chars. rewrite rev_involutive.
  pose proof (drop_while_head is_space (rev (drop_while is_space s))) as H.
  destruct (drop_while is_space (rev (drop_while is_space s))); simpl;
    [reflexivity|now rewrite H].
Qed.

Lemma strip_head_ok (s : text) : head_ok (strip s) = true.
Proof.
  destruct (strip_chars_split is_space (drop_while is_space s)) as (pre & suf & Hs & Hpre & _).
  assert (Hstrip : strip_chars is_space (drop_while is_space s) = strip s).
  { unfold strip, strip_chars.
    now rewrite (drop_while_id is_space _ (drop_while_head is_space s)). }
  rewrite Hstrip in Hs.
  pose proof (drop_while_head is_space s) as Hhead.
  rewrite Hs in Hhead.
  destruct pre as [|p pre].
  - simpl in Hhead. destruct (strip s); simpl in *; [reflexivity|now rewrite Hhead].
  - simpl in Hhead. inversion Hpre; subst. congruence.
Qed.

Lemma strip_id (s : text) : head_ok s = true -> last_ok s = true -> strip s = s.
Proof.
  intros Hh Hl. unfold strip, strip_chars.
  rewrite (drop_while_id is_space s).
  - rewrite (drop_while_id is_space (rev s)); [apply rev_involutive|].
    unfold last_ok, head_ok in Hl. destruct (rev s); [exact I|].
    now apply negb_true_iff in Hl.
  - unfold head_ok in Hh. destruct s; [exact I|]. now apply negb_true_iff in Hh.
Qed.

(** *** Properties of all characters and of adjacent characters *)

Lemma adj_app_inv (R : ascii -> ascii -> bool) (a b : text) :
  adj R (a ++ b) = true -> adj R a = true /\ adj R b = true.
Proof.
  induction a as [|c a IH]; simpl; intros H; [now split|].
  apply andb_true_iff in H as [Hhead Htail].
  destruct (IH Htail) as [Ha Hb]. split; [|exact Hb].
  rewrite Ha, andb_true_r.
  destruct a as [|d a]; [reflexivity|exact Hhead].
Qed.

Lemma adj_infix (R : ascii -> ascii -> bool) (pre s suf : text) :
  adj R (pre ++ s ++ suf) = true -> adj R s = true.
Proof.
  intros H. apply adj_app_inv in H as [_ H]. now apply adj_app_inv in H as [H _].
Qed.

Lemma adj_weaken (R R' : ascii -> ascii -> bool) (s : text) :
  (forall c d, R c d = true -> R' c d = true) ->
  adj R s = true -> adj R' s = true.
Proof.
  intros HR. induction s as [|c s IH]; simpl; [reflexivity|].
  intros H. apply andb_true_iff in H as [Hhead Htail].
  rewrite (IH Htail), andb_true_r.
  destruct s as [|d s]; [reflexivity|now apply HR].
Qed.

Lemma forallb_infix (P : ascii -> bool) (pre s suf : text) :
  forallb P (pre ++ s ++ suf) = true -> forallb P s = true.
Proof.
  rewrite !forallb_app. intros H.
  apply andb_true_iff in H as [_ H]. now apply andb_true_iff in H as [H _].
Qed.

Lemma strip_forallb (P : ascii -> bool) (s : text) :
  forallb P s = true -> forallb P (strip s) = true.
Proof.
  intros H. destruct (strip_chars_split is_space s) as (pre & suf & Hs & _).
  rewrite Hs in H. exact (forallb_infix P pre _ suf H).
Qed.

Lemma strip_adj (R : ascii -> ascii -> bool) (s : text) :
  adj R s = true -> adj R (strip s) = true.
Proof.
  intros H. destruct (strip_chars_split is_space s) as (pre & suf & Hs & _).
  rewrite Hs in H. exact (adj_infix R pre _ suf H).
Qed.

Lemma removelast_forallb (P : ascii -> bool) (s : text) :
  forallb P s = true -> forallb P (removelast s) = true.
Proof.
  induction s as [|c s IH]; [reflexivity|].
  intros H. simpl in H. apply andb_true_iff in H as [Hc Hs].
  destruct s as [|d s]; [reflexivity|].
  change (removelast (c :: d :: s)) with (c :: removelast (d :: s)).
  simpl. rewrite Hc. now apply IH.
Qed.

Lemma removelast_adj (R : ascii -> ascii -> bool) (s : text) :
  adj R s = true -> adj R (removelast s) = true.
Proof.
  destruct s as [|c s]; [reflexivity|].
  intros H.
  rewrite (app_removelast_last c (l := c :: s)) in H by discriminate.
  now apply adj_app_inv in H as [H _].
Qed.

(** *** The steps keep what earlier steps established *)

Ltac char_cases c := destruct c as [[] [] [] [] [] [] [] []]; try reflexivity.

(** The equation of [remove_fences] in terms of prefix tests. *)
Lemma remove_fences_eq (s : text) :
  remove_fences s
  = match s with
    | [] => []
    | c :: rest =>
        if starts_with (T "```sql") s then remove_fences (skipn 6 s)
        else if starts_with (T "```") s then remove_fences (skipn 3 s)
        else c :: remove_fences rest
    end.
Proof.
  destruct s as [|c1 s]; [reflexivity|]. char_cases c1.
  destruct s as [|c2 s]; [reflexivity|]. char_cases c2.
  destruct s as [|c3 s]; [reflexivity|]. char_cases c3.
  destruct s as [|c4 s]; [reflexivity|]. char_cases c4.
  destruct s as [|c5 s]; [reflexivity|]. char_cases c5.
  destruct s as [|c6 s]; [reflexivity|]. char_cases c6.
Qed.

Lemma forallb_skipn (P : ascii -> bool) (n : nat) (s : text) :
  forallb P s = true -> forallb P (skipn n s) = true.
Proof.
  intros H. rewrite <- (firstn_skipn n s), forallb_app in H.
  now apply andb_true_iff in H as [_ H].
Qed.

Lemma remove_fences_forallb_len (P : ascii -> bool) (n : nat) :
  forall s, List.length s <= n ->
            forallb P s = true -> forallb P (remove_fences s) = true.
Proof.
  induction n as [|n IH]; intros s Hlen H.
  - destruct s; [reflexivity|simpl in Hlen; lia].
  - rewrite remove_fences_eq. destruct s as [|c rest]; [reflexivity|].
    destruct (starts_with (T "```sql") (c :: rest)).
    + apply IH; [|now apply forallb_skipn].
      rewrite length_skipn. lia.
    + destruct (starts_with (T "```") (c :: rest)).
      * apply IH; [|now apply forallb_skipn].
        rewrite length_skipn. lia.
      * simpl in H. apply andb_true_iff in H as [Hc Hrest].
        simpl. rewrite Hc. apply IH; [simpl in Hlen; lia|exact Hrest].
Qed.

Lemma remove_fences_forallb (P : ascii -> bool) (s : text) :
  forallb P s = true -> forallb P (remove_fences s) = true.
Proof. apply (remove_fences_forallb_len P (List.length s)). lia. Qed.

Lemma remove_label_eq (s : text) :
  remove_label s
  = if starts_with (T "sql") s then drop_while label_char (skipn 3 s) else s.
Proof.
  destruct s as [|c1 s]; [reflexivity|]. char_cases c1.
  destruct s as [|c2 s]; [reflexivity|]. char_cases c2.
  destruct s as [|c3 s]; [reflexivity|]. char_cases c3.
Qed.

Lemma drop_while_forallb (P f : ascii -> bool) (s : text) :
  forallb P s = true -> forallb P (drop_while f s) = true.
Proof.
  intros H. destruct (drop_while_split f s) as (pre & Hs & _).
  rewrite Hs, forallb_app in H. now apply andb_true_iff in H as [_ H].
Qed.

Lemma remove_label_forallb (P : ascii -> bool) (s : text) :
  forallb P s = true -> forallb P (remove_label s) = true.
Proof.
  intros H. rewrite remove_label_eq.
  destruct (starts_with (T "sql") s); [|exact H].
  now apply drop_while_forallb, forallb_skipn.
Qed.

Lemma remove_backticks_forallb (P : ascii -> bool) (s : text) :
  forallb P s = true -> forallb P (remove_backticks s) = true.
Proof.
  unfold remove_backticks. induction s as [|c s IH]; simpl; [reflexivity|].
  intros H. apply andb_true_iff in H as [Hc Hs].
  destruct (negb (Ascii.eqb c "`")); simpl; [rewrite Hc|]; now apply IH.
Qed.

Lemma remove_backticks_clean (s : text) :
  forallb not_backtick (remove_backticks s) = true.
Proof.
  unfold remove_backticks, not_backtick.
  induction s as [|c s IH]; simpl; [reflexivity|].
  destruct (negb (Ascii.eqb c "`")) eqn:Hc; simpl; [rewrite Hc|]; exact IH.
Qed.

Lemma collapse_from_forallb (P : ascii -> bool) (b : bool) (s : text) :
  P " " = true -> forallb P s = true -> forallb P (collapse_from b s) = true.
Proof.
  intros Hsp. revert b. induction s as [|c s IH]; intros b H; simpl; [reflexivity|].
  simpl in H. apply andb_true_iff in H as [Hc Hs].
  destruct (is_space c); [destruct b|]; simpl; rewrite ?Hsp, ?Hc; now apply IH.
Qed.

Lemma remove_space_before_comma_forallb (P : ascii -> bool) (s : text) :
  forallb P s = true -> forallb P (remove_space_before_comma s) = true.
Proof.
  induction s as [|c s IH]; simpl; [reflexivity|].
  intros H. apply andb_true_iff in H as [Hc Hs].
  destruct (is_space c && comma_next s); simpl; [|rewrite Hc]; now apply IH.
Qed.

Lemma strip_terminator_forallb (P : ascii -> bool) (s : text) :
  forallb P s = true -> forallb P (strip_terminator s) = true.
Proof.
  intros H. unfold strip_terminator.
  destruct (ends_with_char ";" s); [|exact H].
  now apply strip_forallb, removelast_forallb.
Qed.

Lemma lower_fixed_after_lower (s : text) : forallb lower_fixed (lower s) = true.
Proof.
  unfold lower, lower_fixed. induction s as [|c s IH]; simpl; [reflexivity|].
  now rewrite lower_char_idem, Ascii.eqb_refl.
Qed.

(** *** The shape of the whitespace *)

Lemma collapse_from_adj (s : text) :
  forall b,
    adj no_ws_pair (collapse_from b s) = true
    /\ (b = true -> head_ok (collapse_from b s) = true).
Proof.
  induction s as [|c s IH]; intros b; simpl; [now split|].
  destruct (is_space c) eqn:Hc.
  - destruct b.
    + apply IH.
    + destruct (IH true) as [Hadj Hhead]. split; [|discriminate].
      simpl. rewrite Hadj, andb_true_r.
      specialize (Hhead eq_refl).
      destruct (collapse_from true s) as [|d t]; [reflexivity|].
      simpl in Hhead. unfold no_ws_pair.
      apply negb_true_iff in Hhead. now rewrite Hhead, andb_false_r.
  - destruct (IH false) as [Hadj _]. split.
    + simpl. rewrite Hadj, andb_true_r.
      destruct (collapse_from false s) as [|d t]; [reflexivity|].
      unfold no_ws_pair. now rewrite Hc.
    + intros _. simpl. now rewrite Hc.
Qed.

Lemma collapse_from_plain (b : bool) (s : text) :
  forallb plain_space (collapse_from b s) = true.
Proof.
  revert b. induction s as [|c s IH]; intros b; simpl; [reflexivity|].
  destruct (is_space c) eqn:Hc; [destruct b|]; simpl; rewrite ?IH; auto.
  unfold plain_space. now rewrite Hc.
Qed.

Lemma comma_next_cons (d : ascii) (s : text) :
  is_space d = false -> comma_next (d :: s) = Ascii.eqb d ",".
Proof.
  intros Hd. unfold comma_next. simpl. rewrite Hd.
  destruct d as [[] [] [] [] [] [] [] []]; reflexivity.
Qed.

Lemma remove_space_before_comma_adj (s : text) :
  adj no_ws_pair s = true ->
  adj no_ws_before (remove_space_before_comma s) = true.
Proof.
  induction s as [|c s IH]; simpl; [reflexivity|].
  intros H. apply andb_true_iff in H as [Hhead Htail].
  specialize (IH Htail).
  destruct (is_space c) eqn:Hc; simpl.
  - destruct s as [|d s]; [reflexivity|].
    unfold no_ws_pair in Hhead. rewrite Hc in Hhead. simpl in Hhead.
    apply negb_true_iff in Hhead.
    rewrite (comma_next_cons d s Hhead).
    destruct (Ascii.eqb d ",") eqn:Hd; [exact IH|].
    simpl in IH |- *. rewrite Hhead in IH |- *. simpl in IH |- *.
    rewrite IH, andb_true_r. unfold no_ws_before.
    now rewrite Hc, Hhead, Hd.
  - rewrite IH, andb_true_r.
    destruct (remove_space_before_comma s); [reflexivity|].
    unfold no_ws_before. now rewrite Hc.
Qed.

Lemma remove_space_before_comma_head (s : text) :
  head_ok s = true -> head_ok (remove_space_before_comma s) = true.
Proof.
  destruct s as [|c s]; simpl; [reflexivity|].
  intros H. apply negb_true_iff in H. rewrite H. simpl. now rewrite H.
Qed.

Lemma remove_space_before_comma_snoc (s : text) (c : ascii) :
  is_space c = false ->
  exists t, remove_space_before_comma (s ++ [c]) = t ++ [c].
Proof.
  intros Hc. induction s as [|a s (t & IH)]; simpl.
  - rewrite Hc. simpl. now exists [].
  - rewrite IH. destruct (is_space a && comma_next (s ++ [c])).
    + now exists t.
    + now exists (a :: t).
Qed.

Lemma last_ok_snoc (s : text) (c : ascii) : last_ok (s ++ [c]) = negb (is_space c).
Proof. unfold last_ok. now rewrite rev_app_distr. Qed.

Lemma last_ok_inv (s : text) :
  last_ok s = true ->
  s = [] \/ exists t c, s = t ++ [c] /\ is_space c = false.
Proof.
  destruct s as [|a s] using rev_ind; [now left|].
  rewrite last_ok_snoc. intros H. apply negb_true_iff in H. right. eauto.
Qed.

Lemma remove_space_before_comma_last (s : text) :
  last_ok s = true -> last_ok (remove_space_before_comma s) = true.
Proof.
  intros H. apply last_ok_inv in H as [->|(t & c & -> & Hc)]; [reflexivity|].
  destruct (remove_space_before_comma_snoc t c Hc) as (u & ->).
  now rewrite last_ok_snoc, Hc.
Qed.

Lemma strip_terminator_tidy (s : text) : tidy s -> tidy (strip_terminator s).
Proof.
  intros (Hl & Hb & Hp & Ha & Hh & Hlast).
  unfold tidy. repeat split; try now apply strip_terminator_forallb.
  - unfold strip_terminator. destruct (ends_with_char ";" s); [|exact Ha].
    now apply strip_adj, removelast_adj.
  - unfold strip_terminator. destruct (ends_with_char ";" s); [|exact Hh].
    apply strip_head_ok.
  - unfold strip_terminator. destruct (ends_with_char ";" s); [|exact Hlast].
    apply strip_last_ok.
Qed.

(** Every output of the normalizer is tidy. *)
Lemma postprocess_sql_tidy (x : text) : tidy (postprocess_sql x).
Proof.
  unfold postprocess_sql.
  set (x1 := lower (strip (cut_to_statement x))).
  set (x5 := remove_backticks (remove_fences (remove_label (remove_fences x1)))).
  apply strip_terminator_tidy.
  assert (Hl5 : forallb lower_fixed x5 = true).
  { subst x5. apply remove_backticks_forallb, remove_fences_forallb,
      remove_label_forallb, remove_fences_forallb. subst x1.
    apply lower_fixed_after_lower. }
  assert (Hb5 : forallb not_backtick x5 = true) by apply remove_backticks_clean.
  destruct (collapse_from_adj x5 false) as [Hadj _].
  unfold tidy. repeat split.
  - apply remove_space_before_comma_forallb, strip_forallb,
      collapse_from_forallb; [reflexivity|exact Hl5].
  - apply remove_space_before_comma_forallb, strip_forallb,
      collapse_from_forallb; [reflexivity|exact Hb5].
  - apply remove_space_before_comma_forallb, strip_forallb, collapse_from_plain.
  - apply remove_space_before_comma_adj, strip_adj. exact Hadj.
  - apply remove_space_before_comma_head, strip_head_ok.
  - apply remove_space_before_comma_last, strip_last_ok.
Qed.

(** *** The steps on a tidy text *)

Lemma lower_id (s : text) : forallb lower_fixed s = true -> lower s = s.
Proof.
  unfold lower, lower_fixed. induction s as [|c s IH]; simpl; [reflexivity|].
  intros H. apply andb_true_iff in H as [Hc Hs].
  apply Ascii.eqb_eq in Hc. now rewrite Hc, IH.
Qed.

Lemma remove_fences_cons (c : ascii) (s : text) :
  not_backtick c = true -> remove_fences (c :: s) = c :: remove_fences s.
Proof.
  unfold not_backtick. intros H.
  destruct c as [[] [] [] [] [] [] [] []]; try reflexivity; discriminate.
Qed.

Lemma remove_fences_id (s : text) :
  forallb not_backtick s = true -> remove_fences s = s.
Proof.
  induction s as [|c s IH]; [reflexivity|].
  intros H. simpl in H. apply andb_true_iff in H as [Hc Hs].
  now rewrite (remove_fences_cons c s Hc), IH.
Qed.

Lemma remove_backticks_id (s : text) :
  forallb not_backtick s = true -> remove_backticks s = s.
Proof.
  unfold remove_backticks, not_backtick.
  induction s as [|c s IH]; simpl; [reflexivity|].
  intros H. apply andb_true_iff in H as [Hc Hs]. now rewrite Hc, IH.
Qed.

Lemma collapse_from_id (s : text) :
  forall b,
    forallb plain_space s = true ->
    adj no_ws_pair s = true ->
    (b = true -> head_ok s = true) ->
    collapse_from b s = s.
Proof.
  induction s as [|c s IH]; intros b Hp Ha Hh; simpl; [reflexivity|].
  simpl in Hp, Ha. apply andb_true_iff in Hp as [Hc Hp].
  apply andb_true_iff in Ha as [Hcd Ha].
  destruct (is_space c) eqn:Hsp.
  - destruct b.
    + specialize (Hh eq_refl). simpl in Hh. now rewrite Hsp in Hh.
    + unfold plain_space in Hc. rewrite Hsp in Hc. simpl in Hc.
      apply Ascii.eqb_eq in Hc. subst c. f_equal.
      apply IH; [exact Hp|exact Ha|]. intros _.
      destruct s as [|d s]; [reflexivity|].
      unfold no_ws_pair in Hcd. rewrite Hsp in Hcd. exact Hcd.
  - f_equal. apply IH; [exact Hp|exact Ha|discriminate].
Qed.

Lemma remove_space_before_comma_id (s : text) :
  adj no_ws_before s = true -> remove_space_before_comma s = s.
Proof.
  induction s as [|c s IH]; simpl; [reflexivity|].
  intros H. apply andb_true_iff in H as [Hcd Ha].
  rewrite (IH Ha).
  destruct (is_space c) eqn:Hc; [|reflexivity]. simpl.
  destruct s as [|d s]; [reflexivity|].
  unfold no_ws_before in Hcd. rewrite Hc in Hcd. simpl in Hcd.
  apply negb_true_iff, orb_false_iff in Hcd as [Hd Hcomma].
  now rewrite (comma_next_cons d s Hd), Hcomma.
Qed.

Lemma no_ws_before_pair (c d : ascii) :
  no_ws_before c d = true -> no_ws_pair c d = true.
Proof.
  unfold no_ws_before, no_ws_pair.
  destruct (is_space c), (is_space d); simpl; congruence.
Qed.

Lemma cut_to_statement_id (s : text) :
  statement_at_start s = true -> cut_to_statement s = s.
Proof.
  unfold statement_at_start, cut_to_statement.
  destruct s as [|c s]; [reflexivity|]. simpl.
  destruct (keyword_here (c :: s)); [reflexivity|].
  destruct (search_start (is_word c) s); [discriminate|reflexivity].
Qed.

(** A tidy text is left unchanged by the normalizer as soon as it does
    not end with a semicolon, does not start with the label [sql], and
    has its statement keyword, if any, at its start. *)
Lemma postprocess_sql_tidy_id (y : text) :
  tidy y ->
  statement_at_start y = true ->
  starts_with (T "sql") y = false ->
  ends_with_char ";" y = false ->
  postprocess_sql y = y.
Proof.
  intros (Hl & Hb & Hp & Ha & Hh & Hlast) Hstart Hlabel Hsemi.
  unfold postprocess_sql.
  rewrite (cut_to_statement_id y Hstart), (strip_id y Hh Hlast), (lower_id y Hl).
  rewrite (remove_fences_id y Hb), remove_label_eq, Hlabel.
  rewrite (remove_fences_id y Hb), (remove_backticks_id y Hb).
  unfold collapse_ws.
  rewrite (collapse_from_id y false Hp
             (adj_weaken no_ws_before no_ws_pair y no_ws_before_pair Ha)
             ltac:(discriminate)).
  rewrite (strip_id y Hh Hlast), (remove_space_before_comma_id y Ha).
  unfold strip_terminator. now rewrite Hsemi.
Qed.

Example postprocess_sql_fenced_reply :
  postprocess_sql (T "Here you go:
```sql
SELECT  name , age FROM `singer` ;
```") = T "select name, age from singer".
Proof. vm_compute. reflexivity. Qed.

(** The keyword must stand alone as a word. *)
Example postprocess_sql_word_boundaries :
  postprocess_sql (T "Preselect: SELECT 1") = T "select 1"
  /\ postprocess_sql (T "selection of select*") = T "select*"
  /\ postprocess_sql (T "my_select x") = T "my_select x".
Proof. repeat split; vm_compute; reflexivity. Qed.

(** C2, counterexample: a second pass strips a second semicolon. *)
Lemma postprocess_sql_not_idempotent :
  postprocess_sql (postprocess_sql (T "select 1;;"))
  <> postprocess_sql (T "select 1;;").
Proof. vm_compute. discriminate. Qed.

Example postprocess_sql_reveals_keyword :
  postprocess_sql (T "the query is sel`ect 1") = T "the query is select 1"
  /\ postprocess_sql (T "the query is select 1") = T "select 1".
Proof. split; vm_compute; reflexivity. Qed.

Example postprocess_sql_repeated_label :
  postprocess_sql (T "sql: sql: x") = T "sql: x"
  /\ postprocess_sql (T "sql: x") = T "x".
Proof. split; vm_compute; reflexivity. Qed.

(** C2, amended: normalizing a second time changes nothing whenever
    the normalized text does not end with a semicolon, does not start
    with the label [sql], and has its first statement keyword, if it
    has one, at its very start. *)
Theorem postprocess_sql_idempotent_when_settled (x : text) :
  ends_with_char ";" (postprocess_sql x) = false ->
  starts_with (T "sql") (postprocess_sql x) = false ->
  statement_at_start (postprocess_sql x) = true ->
  postprocess_sql (postprocess_sql x) = postprocess_sql x.
Proof.
  intros Hsemi Hlabel Hstart.
  apply postprocess_sql_tidy_id; auto using postprocess_sql_tidy.
Qed.

Lemma postprocess_sql_idempotent_when_settled_witness :
  postprocess_sql (postprocess_sql (T "Answer:
```sql
SELECT  name , age FROM `singer` ;
```"))
  = postprocess_sql (T "Answer:
```sql
SELECT  name , age FROM `singer` ;
```").
Proof.
  apply postprocess_sql_idempotent_when_settled; reflexivity.
Defined.

Lemma drop_while_length (f : ascii -> bool) (s : text) :
  List.length (drop_while f s) <= List.length s.
Proof.
  destruct (drop_while_split f s) as (pre & Hs & _).
  rewrite Hs at 2. rewrite length_app. lia.
Qed.

(** *** The substitutions as the scanning engine runs them *)

Lemma collapse_from_run (s : text) :
  collapse_from true s = collapse_from false (drop_while is_space s).
Proof.
  induction s as [|c s IH]; simpl; [reflexivity|].
  destruct (is_space c) eqn:Hc; [exact IH|]. simpl. now rewrite Hc.
Qed.

Lemma collapse_ws_scan (fuel : nat) :
  forall s, List.length s <= fuel -> sub_ws_scan fuel s = collapse_ws s.
Proof.
  unfold collapse_ws.
  induction fuel as [|fuel IH]; intros [|c s] Hlen; simpl in *;
    try reflexivity; try lia.
  destruct (is_space c).
  - rewrite collapse_from_run. f_equal. apply IH.
    pose proof (drop_while_length is_space s). lia.
  - f_equal. apply IH. lia.
Qed.

Lemma remove_space_before_comma_run (s : text) :
  comma_next s = true ->
  remove_space_before_comma s
  = "," :: remove_space_before_comma (tl (drop_while is_space s)).
Proof.
  induction s as [|d s IH]; [discriminate|].
  destruct (is_space d) eqn:Hd.
  - intros Hnext.
    assert (Hs : comma_next s = true)
      by (unfold comma_next in *; simpl in Hnext; now rewrite Hd in Hnext).
    simpl. rewrite Hd, Hs. simpl. now apply IH.
  - rewrite (comma_next_cons d s Hd). intros Hcomma.
    apply Ascii.eqb_eq in Hcomma. subst d. reflexivity.
Qed.

Lemma remove_space_before_comma_scan (fuel : nat) :
  forall s, List.length s <= fuel ->
            sub_ws_comma_scan fuel s = remove_space_before_comma s.
Proof.
  induction fuel as [|fuel IH]; intros [|c s] Hlen; simpl in *;
    try reflexivity; try lia.
  destruct (is_space c && comma_next s) eqn:Hm.
  - apply andb_true_iff in Hm as [_ Hnext].
    rewrite (remove_space_before_comma_run s Hnext). f_equal. apply IH.
    pose proof (drop_while_length is_space s).
    destruct (drop_while is_space s); simpl in *; lia.
  - f_equal. apply IH. lia.
Qed.

(** *** No step makes the text longer *)

Lemma strip_length (s : text) : List.length (strip s) <= List.length s.
Proof.
  destruct (strip_chars_split is_space s) as (pre & suf & Hs & _).
  rewrite Hs at 2. rewrite !length_app. unfold strip. lia.
Qed.

Lemma remove_fences_length_le (n : nat) :
  forall s, List.length s <= n ->
            List.length (remove_fences s) <= List.length s.
Proof.
  induction n as [|n IH]; intros s Hlen.
  - destruct s; [simpl; lia|simpl in Hlen; lia].
  - rewrite remove_fences_eq. destruct s as [|c rest]; [simpl; lia|].
    assert (Hskip : forall k, List.length (remove_fences (skipn (S k) (c :: rest)))
                              <= List.length (c :: rest)).
    { intros k.
      pose proof (length_skipn (S k) (c :: rest)) as Hk.
      pose proof (IH (skipn (S k) (c :: rest))) as Hi.
      simpl in Hlen. simpl List.length in *. lia. }
    destruct (starts_with (T "```sql") (c :: rest)); [apply (Hskip 5)|].
    destruct (starts_with (T "```") (c :: rest)); [apply (Hskip 2)|].
    simpl in Hlen |- *. specialize (IH rest). lia.
Qed.

Lemma remove_fences_length (s : text) :
  List.length (remove_fences s) <= List.length s.
Proof. apply (remove_fences_length_le (List.length s)). lia. Qed.

Lemma remove_backticks_length (s : text) :
  List.length (remove_backticks s) <= List.length s.
Proof. apply filter_length_le. Qed.

Lemma collapse_from_length (b : bool) (s : text) :
  List.length (collapse_from b s) <= List.length s.
Proof.
  revert b. induction s as [|c s IH]; intros b; simpl; [lia|].
  pose proof (IH true). pose proof (IH false).
  destruct (is_space c); [destruct b|]; simpl; lia.
Qed.

Lemma remove_space_before_comma_length (s : text) :
  List.length (remove_space_before_comma s) <= List.length s.
Proof.
  induction s as [|c s IH]; simpl; [lia|].
  destruct (is_space c && comma_next s); simpl; lia.
Qed.

Lemma removelast_length (s : text) :
  s <> [] -> S (List.length (removelast s)) = List.length s.
Proof.
  intros Hs. rewrite (app_removelast_last " " Hs) at 2.
  rewrite length_app. simpl. lia.
Qed.

Lemma strip_terminator_length (s : text) :
  List.length (strip_terminator s) <= List.length s
  /\ (ends_with_char ";" s = true ->
      List.length (strip_terminator s) < List.length s).
Proof.
  unfold strip_terminator, drop_last.
  destruct (ends_with_char ";" s) eqn:He; [|split; [lia|discriminate]].
  assert (Hs : s <> []) by (intros ->; discriminate).
  pose proof (removelast_length s Hs). pose proof (strip_length (removelast s)).
  split; [lia|intros _; lia].
Qed.

(** What follows the removal of the label. *)
Lemma postprocess_tail_length (s : text) :
  List.length
    (strip_terminator
       (remove_space_before_comma
          (strip (collapse_ws (remove_backticks (remove_fences s))))))
  <= List.length s.
Proof.
  pose proof (remove_fences_length s).
  pose proof (remove_backticks_length (remove_fences s)).
  pose proof (collapse_from_length false (remove_backticks (remove_fences s))).
  pose proof (strip_length (collapse_ws (remove_backticks (remove_fences s)))).
  pose proof (remove_space_before_comma_length
                (strip (collapse_ws (remove_backticks (remove_fences s))))).
  pose proof (proj1 (strip_terminator_length
                (remove_space_before_comma
                   (strip (collapse_ws (remove_backticks (remove_fences s))))))).
  unfold collapse_ws in *. lia.
Qed.

Lemma remove_label_length (s : text) :
  List.length (remove_label s) <= List.length s
  /\ (starts_with (T "sql") s = true ->
      List.length (remove_label s) < List.length s).
Proof.
  rewrite remove_label_eq. destruct (starts_with (T "sql") s) eqn:Hl;
    [|split; [lia|discriminate]].
  pose proof (drop_while_length label_char (skipn 3 s)).
  pose proof (length_skipn 3 s).
  assert (3 <= List.length s).
  { destruct s as [|? [|? [|? ?]]]; simpl in Hl |- *;
      rewrite ?andb_false_r in Hl; try discriminate; lia. }
  split; [lia|intros _; lia].
Qed.

Lemma postprocess_sql_length (s : text) :
  List.length (postprocess_sql s) <= List.length (cut_to_statement s).
Proof.
  unfold postprocess_sql.
  set (x1 := lower (strip (cut_to_statement s))).
  assert (H1 : List.length x1 <= List.length (cut_to_statement s)).
  { subst x1. unfold lower. rewrite length_map. apply strip_length. }
  pose proof (remove_fences_length x1).
  pose proof (proj1 (remove_label_length (remove_fences x1))).
  pose proof (postprocess_tail_length (remove_label (remove_fences x1))).
  lia.
Qed.

(** The first match of the keyword pattern is a suffix of the text,
    and the whole text only when the keyword is at its start. *)
Lemma search_start_suffix (s : text) :
  forall b suffix,
    search_start b s = Some suffix ->
    exists pre, s = pre ++ suffix /\ (pre = [] -> keyword_here s = true).
Proof.
  induction s as [|c s IH]; intros b suffix; simpl; [discriminate|].
  destruct (negb b && keyword_here (c :: s)) eqn:Hk.
  - intros H. injection H as <-. exists []. split; [reflexivity|].
    intros _. now apply andb_true_iff in Hk as [_ Hk].
  - intros H. destruct (IH _ _ H) as (pre & -> & _).
    exists (c :: pre). split; [reflexivity|discriminate].
Qed.

Lemma cut_to_statement_length (s : text) :
  List.length (cut_to_statement s) <= List.length s
  /\ (statement_at_start s = false ->
      List.length (cut_to_statement s) < List.length s).
Proof.
  unfold cut_to_statement, statement_at_start.
  destruct (search_start false s) as [suffix|] eqn:Hs; [|split; [lia|discriminate]].
  destruct (search_start_suffix s false suffix Hs) as (pre & Hpre & Hk).
  assert (Hlen : List.length s = List.length pre + List.length suffix)
    by (rewrite <- length_app; now f_equal).
  split; [lia|].
  intros Hno. destruct pre as [|p pre]; [|simpl in Hlen; lia].
  rewrite (Hk eq_refl) in Hno. discriminate.
Qed.

(** The three conditions are necessary: a tidy text that violates one
    of them gets strictly shorter. *)
Lemma postprocess_sql_shrinks_unsettled (y : text) :
  tidy y ->
  statement_at_start y = false \/ starts_with (T "sql") y = true
  \/ ends_with_char ";" y = true ->
  List.length (postprocess_sql y) < List.length y.
Proof.
  intros Htidy Hcases.
  destruct (statement_at_start y) eqn:Hstart.
  - destruct Htidy as (Hl & Hb & Hp & Ha & Hh & Hlast).
    destruct (starts_with (T "sql") y) eqn:Hlabel.
    + unfold postprocess_sql.
      rewrite (cut_to_statement_id y Hstart), (strip_id y Hh Hlast), (lower_id y Hl).
      rewrite (remove_fences_id y Hb).
      pose proof (proj2 (remove_label_length y) Hlabel).
      pose proof (postprocess_tail_length (remove_label y)). lia.
    + destruct Hcases as [Hc|[Hc|Hsemi]]; try discriminate.
      unfold postprocess_sql.
      rewrite (cut_to_statement_id y Hstart), (strip_id y Hh Hlast), (lower_id y Hl).
      rewrite (remove_fences_id y Hb), remove_label_eq, Hlabel.
      rewrite (remove_fences_id y Hb), (remove_backticks_id y Hb).
      unfold collapse_ws.
      rewrite (collapse_from_id y false Hp
                 (adj_weaken no_ws_before no_ws_pair y no_ws_before_pair Ha)
                 ltac:(discriminate)).
      rewrite (strip_id y Hh Hlast), (remove_space_before_comma_id y Ha).
      now apply strip_terminator_length.
  - pose proof (proj2 (cut_to_statement_length y) Hstart).
    pose proof (postprocess_sql_length y). lia.
Qed.

(** The normalized text is a fixed point of the normalizer exactly
    when it satisfies the three conditions. *)
Lemma postprocess_sql_fixed_point_iff (x : text) :
  postprocess_sql (postprocess_sql x) = postprocess_sql x
  <-> (ends_with_char ";" (postprocess_sql x) = false
       /\ starts_with (T "sql") (postprocess_sql x) = false
       /\ statement_at_start (postprocess_sql x) = true).
Proof.
  split.
  - intros Hfix.
    destruct (ends_with_char ";" (postprocess_sql x)) eqn:Hsemi;
      [|destruct (starts_with (T "sql") (postprocess_sql x)) eqn:Hlabel;
        [|destruct (statement_at_start (postprocess_sql x)) eqn:Hstart;
          [now repeat split|]]].
    all: exfalso;
      assert (Hlt : List.length (postprocess_sql (postprocess_sql x))
                    < List.length (postprocess_sql x))
        by (apply postprocess_sql_shrinks_unsettled;
            [apply postprocess_sql_tidy|tauto]);
      rewrite Hfix in Hlt; lia.
  - intros (Hsemi & Hlabel & Hstart).
    apply postprocess_sql_tidy_id; auto using postprocess_sql_tidy.
Qed.

(* ================================================================= *)
(** ** Sorting does not depend on the order of its input *)

Section SortingFacts.
Context {A : Type}.
Variable leb : A -> A -> bool.
Hypothesis leb_total : forall x y, leb x y = true \/ leb y x = true.
Hypothesis leb_trans : forall x y z, leb x y = true -> leb y z = true -> leb x z = true.
Hypothesis leb_antisym : forall x y, leb x y = true -> leb y x = true -> x = y.

Lemma insert_sorted_comm (x y : A) (l : list A) :
  insert_sorted leb x (insert_sorted leb y l)
  = insert_sorted leb y (insert_sorted leb x l).
Proof.
  induction l as [|z l IH]; simpl.
  - destruct (leb x y) eqn:Hxy, (leb y x) eqn:Hyx; try reflexivity.
    + now rewrite (leb_antisym _ _ Hxy Hyx).
    + destruct (leb_total x y); congruence.
  - destruct (leb y z) eqn:Hyz, (leb x z) eqn:Hxz; simpl.
    + destruct (leb x y) eqn:Hxy, (leb y x) eqn:Hyx;
        rewrite ?Hxz, ?Hyz; try reflexivity.
      * now rewrite (leb_antisym _ _ Hxy Hyx).
      * destruct (leb_total x y); congruence.
    + destruct (leb x y) eqn:Hxy.
      * rewrite (leb_trans _ _ _ Hxy Hyz) in Hxz. discriminate.
      * now rewrite Hxz, Hyz.
    + destruct (leb y x) eqn:Hyx.
      * rewrite (leb_trans _ _ _ Hyx Hxz) in Hyz. discriminate.
      * now rewrite Hxz, Hyz.
    + now rewrite Hxz, Hyz, IH.
Qed.

Lemma sorted_permutation (l l' : list A) :
  Permutation l l' -> sorted leb l = sorted leb l'.
Proof.
  unfold sorted. induction 1; simpl.
  - reflexivity.
  - now rewrite IHPermutation.
  - apply insert_sorted_comm.
  - congruence.
Qed.

Lemma insert_sorted_permutation (x : A) (l : list A) :
  Permutation (x :: l) (insert_sorted leb x l).
Proof.
  induction l as [|y l IH]; simpl; [reflexivity|].
  destruct (leb x y); [reflexivity|].
  rewrite perm_swap. now constructor.
Qed.

Lemma sorted_is_permutation (l : list A) : Permutation l (sorted leb l).
Proof.
  unfold sorted. induction l as [|x l IH]; simpl; [constructor|].
  rewrite <- insert_sorted_permutation. now constructor.
Qed.

Lemma insert_sorted_length (x : A) (l : list A) :
  List.length (insert_sorted leb x l) = S (List.length l).
Proof.
  induction l as [|y l IH]; simpl; [reflexivity|].
  destruct (leb x y); simpl; congruence.
Qed.

Lemma sorted_length (l : list A) : List.length (sorted leb l) = List.length l.
Proof.
  unfold sorted. induction l as [|x l IH]; simpl; [reflexivity|].
  now rewrite insert_sorted_length, IH.
Qed.

(** The lexicographic order inherits the three properties. *)
Lemma lex_leb_total (a b : list A) :
  lex_leb leb a b = true \/ lex_leb leb b a = true.
Proof.
  revert b; induction a as [|x a IH]; intros [|y b]; simpl; auto.
  destruct (leb x y) eqn:Hxy, (leb y x) eqn:Hyx; auto.
  destruct (leb_total x y); congruence.
Qed.

Lemma lex_leb_antisym (a b : list A) :
  lex_leb leb a b = true -> lex_leb leb b a = true -> a = b.
Proof.
  revert b; induction a as [|x a IH]; intros [|y b]; simpl;
    try congruence.
  destruct (leb x y) eqn:Hxy, (leb y x) eqn:Hyx; try congruence.
  intros H1 H2. rewrite (leb_antisym _ _ Hxy Hyx). f_equal. now apply IH.
Qed.

Lemma lex_leb_trans (a b c : list A) :
  lex_leb leb a b = true -> lex_leb leb b c = true -> lex_leb leb a c = true.
Proof.
  revert b c; induction a as [|x a IH]; intros [|y b] [|z c]; simpl;
    try congruence.
  destruct (leb x y) eqn:Hxy; try congruence.
  destruct (leb y z) eqn:Hyz; try congruence.
  rewrite (leb_trans _ _ _ Hxy Hyz).
  destruct (leb y x) eqn:Hyx, (leb z y) eqn:Hzy, (leb z x) eqn:Hzx;
    intros H1 H2; try reflexivity; eauto;
    try (rewrite (leb_trans _ _ _ Hzx Hxy) in Hzy; discriminate);
    try (rewrite (leb_trans _ _ _ Hyz Hzx) in Hyx; discriminate).
Qed.
End SortingFacts.

Lemma code_inj (a b : ascii) : code a = code b -> a = b.
Proof.
  unfold code. intros H.
  rewrite <- (ascii_nat_embedding a), <- (ascii_nat_embedding b). now rewrite H.
Qed.

Lemma char_leb_total (x y : ascii) : char_leb x y = true \/ char_leb y x = true.
Proof. unfold char_leb. rewrite !Nat.leb_le. lia. Qed.

Lemma char_leb_trans (x y z : ascii) :
  char_leb x y = true -> char_leb y z = true -> char_leb x z = true.
Proof. unfold char_leb. rewrite !Nat.leb_le. lia. Qed.

Lemma char_leb_antisym (x y : ascii) :
  char_leb x y = true -> char_leb y x = true -> x = y.
Proof. unfold char_leb. rewrite !Nat.leb_le. intros. apply code_inj. lia. Qed.

Lemma text_leb_total (x y : text) : text_leb x y = true \/ text_leb y x = true.
Proof. apply lex_leb_total, char_leb_total. Qed.

Lemma text_leb_trans (x y z : text) :
  text_leb x y = true -> text_leb y z = true -> text_leb x z = true.
Proof.
  apply lex_leb_trans;
    eauto using char_leb_total, char_leb_trans, char_leb_antisym.
Qed.

Lemma text_leb_antisym (x y : text) :
  text_leb x y = true -> text_leb y x = true -> x = y.
Proof. apply lex_leb_antisym, char_leb_antisym. Qed.

Lemma sorted_text_permutation (l l' : list text) :
  Permutation l l' -> sorted text_leb l = sorted text_leb l'.
Proof.
  apply sorted_permutation;
    [apply text_leb_total|apply text_leb_trans|apply text_leb_antisym].
Qed.

Lemma sorted_tuple_permutation (l l' : list (list text)) :
  Permutation l l' -> sorted tuple_leb l = sorted tuple_leb l'.
Proof.
  apply sorted_permutation.
  - apply lex_leb_total, text_leb_total.
  - apply lex_leb_trans;
      eauto using text_leb_total, text_leb_trans, text_leb_antisym.
  - apply lex_leb_antisym, text_leb_antisym.
Qed.

Lemma normalize_rows_length (rows : list row) :
  List.length (normalize_rows rows) = List.length rows.
Proof. unfold normalize_rows. now rewrite sorted_length, length_map. Qed.

(* ================================================================= *)
(** ** Result comparator *)

Example rows_in_either_order :
  normalize_rows [[CInt 1; CText (T "a")]; [CInt 2; CText (T "b")]]
  = normalize_rows [[CInt 2; CText (T "b")]; [CInt 1; CText (T "a")]].
Proof. reflexivity. Qed.

Example cells_in_either_order :
  normalize_rows [[CInt 1; CInt 2]] = normalize_rows [[CInt 2; CInt 1]].
Proof. reflexivity. Qed.

Example coercion_collision :
  normalize_rows [[CInt 1]] = normalize_rows [[CText (T "1")]].
Proof. reflexivity. Qed.

Example str_of_integers :
  str_Z 0 = T "0" /\ str_Z (-120) = T "-120"
  /\ str_Z 9223372036854775807 = T "9223372036854775807".
Proof. repeat split. Qed.

Lemma normalize_rows_permutation (rows rows' : list row) :
  Permutation rows rows' -> normalize_rows rows = normalize_rows rows'.
Proof.
  intros H. unfold normalize_rows.
  apply sorted_tuple_permutation. now apply Permutation_map.
Qed.

Lemma normalize_rows_cell_order (rows rows' : list row) :
  Forall2 (@Permutation cell) rows rows' ->
  normalize_rows rows = normalize_rows rows'.
Proof.
  intros H. unfold normalize_rows. f_equal.
  induction H as [|r r' rows rows' Hr _ IH]; simpl; [reflexivity|].
  f_equal; [|exact IH].
  apply sorted_text_permutation. now apply Permutation_map.
Qed.

Lemma query_execution_both_succeed (E : Env) (item : sample) (sql : text)
      (gold gen : list row) :
  exec_query E (db_path (db_id item)) (postprocess_sql (query item)) = (Some gold, None) ->
  exec_query E (db_path (db_id item)) (postprocess_sql sql) = (Some gen, None) ->
  query_execution E item sql
  = (rows_eqb (normalize_rows gen) (normalize_rows gold), None).
Proof. intros Hgold Hgen. unfold query_execution. now rewrite Hgold, Hgen. Qed.

(** [str] is injective on the integers. *)
Lemma str_Z_inj (n m : Z) : str_Z n = str_Z m -> n = m.
Proof.
  unfold str_Z. intros H.
  apply (f_equal string_of_list_ascii) in H.
  rewrite !string_of_list_ascii_of_string in H.
  apply (f_equal NilEmpty.int_of_string) in H.
  rewrite !NilEmpty.isi in H. injection H as H.
  now apply DecimalZ.to_int_inj.
Qed.

(** Two rows have the same canonical form exactly when the texts of
    their cells are the same up to their order. *)
Lemma canonical_row_eq_iff (r r' : row) :
  canonical_row r = canonical_row r'
  <-> Permutation (map str_cell r) (map str_cell r').
Proof.
  unfold canonical_row. split.
  - intros Heq.
    rewrite (sorted_is_permutation text_leb (map str_cell r)), Heq.
    symmetry. apply sorted_is_permutation.
  - apply sorted_text_permutation.
Qed.

Lemma map_canonical_row_eq_iff (rows rows' : list row) :
  map canonical_row rows = map canonical_row rows'
  <-> Forall2 (fun r r' => Permutation (map str_cell r) (map str_cell r')) rows rows'.
Proof.
  revert rows'. induction rows as [|r rows IH]; intros [|r' rows']; simpl.
  - split; [constructor|reflexivity].
  - split; [discriminate|intros H; inversion H].
  - split; [discriminate|intros H; inversion H].
  - split.
    + intros H. injection H as Hr Hrows. constructor.
      * now apply canonical_row_eq_iff.
      * now apply IH.
    + intros H. inversion H as [|? ? ? ? Hr Hrows]; subst. f_equal.
      * now apply canonical_row_eq_iff.
      * now apply IH.
Qed.

(** Two row lists have the same canonical form exactly when one is
    obtained from the other by reordering its rows and, inside the
    rows, the texts of the cells. *)
Lemma normalize_rows_eq_iff (rows rows' : list row) :
  normalize_rows rows = normalize_rows rows'
  <-> exists rows'',
        Permutation rows' rows''
        /\ Forall2 (fun r r' => Permutation (map str_cell r) (map str_cell r'))
                   rows rows''.
Proof.
  unfold normalize_rows. split.
  - intros Heq.
    assert (Hperm : Permutation (map canonical_row rows) (map canonical_row rows')).
    { rewrite (sorted_is_permutation tuple_leb (map canonical_row rows)), Heq.
      symmetry. apply sorted_is_permutation. }
    apply Permutation_map_inv in Hperm as (rows'' & Hmap & Hp).
    exists rows''. split; [exact Hp|]. now apply map_canonical_row_eq_iff.
  - intros (rows'' & Hp & Hcells).
    rewrite (sorted_tuple_permutation _ _ (Permutation_map canonical_row Hp)).
    f_equal. now apply map_canonical_row_eq_iff.
Qed.

(** C3: when both statements execute without error the comparator
    answers true exactly when the canonical forms of the two row lists
    (cells as text, cells sorted within a row, rows sorted) are equal;
    the canonical form is the same for any reordering of the rows and
    for any reordering of the cells inside the rows, and it keeps the
    number of rows, so [(1,),(1,)] and [(1,)] are not equivalent: two
    row lists have the same canonical form exactly when their
    canonical rows are the same with the same multiplicities, that is,
    exactly when one is obtained from the other by reordering the rows
    and, inside each row, the texts of the cells.  The text of a cell
    is its [str]: a string is kept as it is (a REAL and a BLOB are
    carried by their [repr]), an integer gives its decimal digits (so
    different integers are told apart, while the integer 1 and the
    string 1 are not), and NULL gives [None]. *)
Theorem comparator_canonical_equivalence :
  (forall (E : Env) (item : sample) (sql : text) (gold gen : list row),
      exec_query E (db_path (db_id item)) (postprocess_sql (query item))
      = (Some gold, None) ->
      exec_query E (db_path (db_id item)) (postprocess_sql sql)
      = (Some gen, None) ->
      (fst (query_execution E item sql) = true
       <-> normalize_rows gen = normalize_rows gold))
  /\ (forall rows rows' : list row,
         Permutation rows rows' -> normalize_rows rows = normalize_rows rows')
  /\ (forall rows rows' : list row,
         Forall2 (@Permutation cell) rows rows' ->
         normalize_rows rows = normalize_rows rows')
  /\ (forall rows rows' : list row,
         List.length rows <> List.length rows' ->
         normalize_rows rows <> normalize_rows rows')
  /\ normalize_rows [[CInt 1]; [CInt 1]] <> normalize_rows [[CInt 1]]
  /\ (forall rows rows' : list row,
         normalize_rows rows = normalize_rows rows'
         <-> Permutation (map canonical_row rows) (map canonical_row rows'))
  /\ (forall rows rows' : list row,
         normalize_rows rows = normalize_rows rows'
         <-> exists rows'',
               Permutation rows' rows''
               /\ Forall2 (fun r r' =>
                             Permutation (map str_cell r) (map str_cell r'))
                          rows rows'')
  /\ (forall s : text,
         normalize_rows [[CText s]] = [[s]]
         /\ normalize_rows [[CReal s]] = [[s]]
         /\ normalize_rows [[CBlob s]] = [[s]])
  /\ (forall n m : Z, normalize_rows [[CInt n]] = normalize_rows [[CInt m]] <-> n = m)
  /\ normalize_rows [[CInt 1]] = normalize_rows [[CText (T "1")]]
  /\ normalize_rows [[CNull]] = [[T "None"]]
  /\ normalize_rows [[CInt 2; CText (T "b")]; [CText (T "a"); CInt (-10)]]
     = [[T "-10"; T "a"]; [T "2"; T "b"]].
Proof.
  split; [|split; [|split; [|split; [|split; [|split; [|split; [|split;
    [|split; [|split; [|split]]]]]]]]]].
  - intros E item sql gold gen Hgold Hgen.
    rewrite (query_execution_both_succeed E item sql _ _ Hgold Hgen). simpl.
    apply rows_eqb_eq.
  - apply normalize_rows_permutation.
  - apply normalize_rows_cell_order.
  - intros rows rows' Hlen Heq. apply Hlen.
    now rewrite <- (normalize_rows_length rows), Heq, normalize_rows_length.
  - discriminate.
  - intros rows rows'. unfold normalize_rows. split.
    + intros Heq.
      rewrite (sorted_is_permutation tuple_leb (map canonical_row rows)), Heq.
      symmetry. apply sorted_is_permutation.
    + apply sorted_tuple_permutation.
  - apply normalize_rows_eq_iff.
  - intros s. repeat split.
  - intros n m. split; [|now intros ->].
    intros H. injection H as H. now apply str_Z_inj.
  - reflexivity.
  - reflexivity.
  - reflexivity.
Qed.

Lemma comparator_canonical_equivalence_witness :
  (fst (query_execution (scripted_env singer_db (T "singer: id") toy_loads)
                        singer_sample (T "select count(*) from singer;")) = true
   <-> normalize_rows [[CInt 6]] = normalize_rows [[CInt 6]])
  /\ normalize_rows [[CInt 1; CInt 2]; [CInt 3; CInt 4]]
     = normalize_rows [[CInt 3; CInt 4]; [CInt 1; CInt 2]]
  /\ normalize_rows [[CInt 1; CInt 2]] = normalize_rows [[CInt 2; CInt 1]]
  /\ normalize_rows [[CInt 1]; [CInt 1]] <> normalize_rows [[CInt 1]].
Proof.
  split; [|split; [|split]].
  - apply (proj1 comparator_canonical_equivalence
                 (scripted_env singer_db (T "singer: id") toy_loads)
                 singer_sample (T "select count(*) from singer;")
                 [[CInt 6]] [[CInt 6]]); reflexivity.
  - apply (proj1 (proj2 comparator_canonical_equivalence)). apply perm_swap.
  - apply (proj1 (proj2 (proj2 comparator_canonical_equivalence))).
    constructor; [apply perm_swap|constructor].
  - apply (proj1 (proj2 (proj2 (proj2 comparator_canonical_equivalence)))).
    simpl. lia.
Defined.

(* ================================================================= *)
(** ** Clause policy table *)

Lemma clause_loop_app (clauses : list text) (plan sql : text) :
  clause_loop clauses plan sql
  = (plan ++ List.concat (map (fun c => fst (clause_block c)) clauses),
     sql ++ List.concat (map (fun c => snd (clause_block c)) clauses)).
Proof.
  revert plan sql; induction clauses as [|c rest IH]; intros plan sql; simpl.
  - now rewrite !app_nil_r.
  - destruct (clause_block c) as [p q]. simpl.
    now rewrite IH, !app_assoc.
Qed.

Lemma clause_loop_guidance_only (clauses : list text) (plan sql : text) :
  clause_loop clauses plan sql = clause_loop (filter has_guidance clauses) plan sql.
Proof.
  revert plan sql; induction clauses as [|c rest IH]; intros plan sql; simpl;
    [reflexivity|].
  unfold has_guidance at 1.
  destruct (clause_block c) as [p q] eqn:Hc. simpl.
  destruct p as [|x p]; destruct q as [|y q]; simpl; rewrite ?Hc;
    try apply IH.
  now rewrite !app_nil_r.
Qed.

(** C6, counterexample: LIMIT before JOIN and JOIN before LIMIT are
    permutations of each other and get different guidance texts. *)
Lemma clause_order_matters :
  Permutation [T "LIMIT"; T "JOIN"] [T "JOIN"; T "LIMIT"]
  /\ clause_specific_prompts [T "LIMIT"; T "JOIN"]
     <> clause_specific_prompts [T "JOIN"; T "LIMIT"].
Proof.
  split; [apply perm_swap|].
  vm_compute. discriminate.
Qed.

(** C6, amended: the guidance is the concatenation of the blocks of
    the tags in the order of the input list; a list and a permutation
    of it get the same pair of texts whenever the tags that have
    guidance come in the same order in both. *)
Theorem clause_guidance_follows_input_order (clauses clauses' : list text) :
  Permutation clauses clauses' ->
  filter has_guidance clauses = filter has_guidance clauses' ->
  clause_specific_prompts clauses
  = (List.concat (map (fun c => fst (clause_block c)) clauses),
     List.concat (map (fun c => snd (clause_block c)) clauses))
  /\ clause_specific_prompts clauses = clause_specific_prompts clauses'.
Proof.
  intros _ Hsame. split.
  - unfold clause_specific_prompts. now rewrite clause_loop_app.
  - unfold clause_specific_prompts.
    rewrite (clause_loop_guidance_only clauses),
            (clause_loop_guidance_only clauses').
    now rewrite Hsame.
Qed.

Lemma clause_guidance_follows_input_order_witness :
  clause_specific_prompts [T "where"; T "limit"; T "join"]
  = (limit_plan ++ join_plan ++ [], limit_sql ++ join_sql ++ [])
  /\ clause_specific_prompts [T "where"; T "limit"; T "join"]
     = clause_specific_prompts [T "limit"; T "where"; T "join"].
Proof.
  apply (@clause_guidance_follows_input_order
           [T "where"; T "limit"; T "join"] [T "limit"; T "where"; T "join"]).
  - apply perm_swap.
  - reflexivity.
Defined.

(* ================================================================= *)
(** ** Correction loop *)

Section LoopFacts.
Variable E : Env.
Variable item : sample.

Lemma bind_ok {A B} (m : M E A) (k : A -> M E B) (st st' : state E) (a : A) :
  m st = Some (Ok a, st') -> bind m k st = k a st'.
Proof. intros H. unfold bind. now rewrite H. Qed.

Lemma bind_raise {A B} (m : M E A) (k : A -> M E B) (st st' : state E) (e : exn) :
  m st = Some (Raise e, st') -> bind m k st = Some (Raise e, st').
Proof. intros H. unfold bind. now rewrite H. Qed.

(** A call to the backend always returns, and logs its prompt. *)
Lemma call_agent_returns (prompt : text) (st : state E) :
  exists reply w,
    call_agent E prompt st
    = Some (Ok reply, {| world := w; prompts_sent := prompts_sent st ++ [prompt] |}).
Proof.
  unfold call_agent. destruct (chat_completion E prompt (world st)) as [r w].
  eauto.
Qed.

(** One iteration: it returns; after a [break] nothing has changed;
    otherwise one more attempt is counted and the new candidate
    carries its verdict.  The first prompt sent is the correction-plan
    prompt for the current candidate and its error. *)
Lemma loop_body_returns (schema : text) (ls : loop_state) (st : state E) :
  exists ls' brk st' p,
    loop_body E item schema ls st = Some (Ok (ls', brk), st')
    /\ prompts_sent st'
       = prompts_sent st
         ++ [correction_plan_agent_prompt (question item) (cur_sql ls) schema
                                          (cur_error ls); p]
    /\ (brk = true -> ls' = ls)
    /\ (brk = false ->
        attempts ls' = attempts ls + 1 /\ verdict_of_candidate E item ls').
Proof.
  unfold loop_body.
  destruct (call_agent_returns
              (correction_plan_agent_prompt (question item) (cur_sql ls) schema
                                            (cur_error ls)) st)
    as (plan & w1 & H1).
  rewrite (bind_ok _ _ _ _ _ H1).
  match goal with
  | |- context [bind (call_agent E ?p) _ ?s] =>
      destruct (call_agent_returns p s) as (sql & w2 & H2);
      rewrite (bind_ok _ _ _ _ _ H2)
  end.
  simpl. rewrite <- app_assoc. simpl.
  destruct (is_empty sql).
  - do 4 eexists. split; [reflexivity|]. split; [reflexivity|].
    split; [reflexivity|discriminate].
  - destruct (query_execution E item (postprocess_sql sql)) as [m err] eqn:Hq.
    do 4 eexists. split; [reflexivity|]. split; [reflexivity|].
    split; [discriminate|]. intros _. split; [reflexivity|].
    split; simpl; [now rewrite Hq|reflexivity].
Qed.

(** The loop returns whenever its fuel exceeds the attempts that
    remain; the body runs at most that many times. *)
Lemma correction_loop_returns (schema : text) (fuel : nat) :
  forall (ls : loop_state) (n : nat) (st : state E),
    MAX_CRITIC_ATTEMPTS - attempts ls < fuel ->
    exists ls' n' st' sent,
      correction_loop E item fuel schema ls n st = Some (Ok (ls', n'), st')
      /\ n' <= n + (MAX_CRITIC_ATTEMPTS - attempts ls)
      /\ (verdict_of_candidate E item ls -> verdict_of_candidate E item ls')
      /\ prompts_sent st' = prompts_sent st ++ sent
      /\ (loop_cond ls = true ->
          exists rest,
            sent = correction_plan_agent_prompt (question item) (cur_sql ls)
                                                schema (cur_error ls) :: rest).
Proof.
  induction fuel as [|fuel IH]; intros ls n st Hfuel; [lia|].
  cbn [correction_loop]. destruct (loop_cond ls) eqn:Hcond.
  - assert (Hlt : attempts ls < MAX_CRITIC_ATTEMPTS).
    { unfold loop_cond in Hcond. apply andb_true_iff in Hcond as [_ Hc].
      now apply Nat.ltb_lt in Hc. }
    destruct (loop_body_returns schema ls st)
      as (ls1 & brk & st1 & p & Hbody & Hsent & Hbrk & Hcont).
    rewrite (bind_ok _ _ _ _ _ Hbody). cbn [fst snd].
    destruct brk.
    + rewrite (Hbrk eq_refl).
      exists ls, (S n), st1,
        [correction_plan_agent_prompt (question item) (cur_sql ls) schema
                                      (cur_error ls); p].
      split; [reflexivity|]. split; [lia|]. split; [tauto|].
      split; [exact Hsent|]. intros _. eauto.
    + destruct (Hcont eq_refl) as [Hatt Hverdict].
      destruct (IH ls1 (S n) st1)
        as (ls2 & n2 & st2 & sent & Hloop & Hn & Hv & Hs & _); [lia|].
      exists ls2, n2, st2,
        ([correction_plan_agent_prompt (question item) (cur_sql ls) schema
                                       (cur_error ls); p] ++ sent).
      split; [exact Hloop|]. split; [lia|]. split; [tauto|].
      split; [now rewrite Hs, Hsent, <- app_assoc|].
      intros _. simpl. eauto.
  - exists ls, n, st, []. rewrite app_nil_r.
    split; [reflexivity|]. split; [lia|]. split; [tauto|].
    split; [reflexivity|discriminate].
Qed.
End LoopFacts.

Arguments bind_ok {E A B m k st st' a} _.
Arguments bind_raise {E A B m k st st' e} _.

(** C4: from the state in which the loop is entered (no attempt made,
    the first candidate failed execution-match) and whatever the
    backend replies, the correction loop returns as soon as its fuel
    exceeds the attempt budget, and its body has run at most 3 times. *)
Theorem correction_loop_bounded (E : Env) (item : sample) (schema : text)
        (ls : loop_state) (st : state E) (fuel : nat) :
  attempts ls = 0 ->
  exec_failed ls = true ->
  MAX_CRITIC_ATTEMPTS < fuel ->
  exists ls' iterations st',
    correction_loop E item fuel schema ls 0 st = Some (Ok (ls', iterations), st')
    /\ iterations <= 3.
Proof.
  intros Hatt _ Hfuel.
  destruct (correction_loop_returns E item schema fuel ls 0 st)
    as (ls' & n' & st' & sent & Hloop & Hn & _); [lia|].
  exists ls', n', st'. split; [exact Hloop|].
  rewrite Hatt in Hn. unfold MAX_CRITIC_ATTEMPTS in Hn. lia.
Qed.

Lemma correction_loop_bounded_witness :
  exists ls' iterations st',
    correction_loop (constant_env (T "select 2") singer_db (T "singer: id"))
                    singer_sample 4 (T "singer: id") failed_candidate 0
                    (start (constant_env (T "select 2") singer_db (T "singer: id")) tt)
    = Some (Ok (ls', iterations), st')
    /\ iterations <= 3.
Proof.
  apply correction_loop_bounded; [reflexivity|reflexivity|].
  unfold MAX_CRITIC_ATTEMPTS. lia.
Defined.

(** A backend that keeps returning the SQL that was already tried: the
    body runs exactly three times and the candidate is unchanged. *)
Example repeated_candidate_three_iterations :
  exists ls' st',
    correction_loop (constant_env (T "select 2") singer_db (T "singer: id"))
                    singer_sample 4 (T "singer: id") failed_candidate 0
                    (start (constant_env (T "select 2") singer_db (T "singer: id")) tt)
    = Some (Ok (ls', 3), st')
    /\ cur_sql ls' = T "select 2" /\ attempts ls' = 3.
Proof. do 2 eexists. split; [vm_compute; reflexivity|]. split; reflexivity. Qed.

(** C5, counterexample: the correction-plan call fails (the script's
    first reply is a failure) while the loop may run; the loop does not
    exit: it sends the correction-SQL prompt and replaces the
    candidate. *)
Lemma plan_failure_does_not_exit :
  call_agent singer_env
             (correction_plan_agent_prompt (question singer_sample) (T "select 2")
                                           (T "singer: id") (Some (T "syntax error")))
             (singer_state [None; Some (T "select count(*) from singer")] [])
  = Some (Ok [],
          singer_state [Some (T "select count(*) from singer")]
            [correction_plan_agent_prompt (question singer_sample) (T "select 2")
                                          (T "singer: id") (Some (T "syntax error"))])
  /\ exists ls' st',
      correction_loop singer_env singer_sample 4 (T "singer: id") failed_candidate 0
                      (singer_state [None; Some (T "select count(*) from singer")] [])
      = Some (Ok (ls', 1), st')
      /\ cur_sql ls' = T "select count(*) from singer"
      /\ cur_sql ls' <> cur_sql failed_candidate
      /\ List.length (prompts_sent st') = 2.
Proof.
  split; [reflexivity|].
  do 2 eexists. split; [vm_compute; reflexivity|].
  split; [reflexivity|]. split; [discriminate|reflexivity].
Qed.

(** C5, amended: when the correction-SQL call fails the loop exits at
    once and every loop variable, the candidate among them, is left as
    it was; a failed correction-plan call does not end the loop: the
    empty plan goes into the correction-SQL prompt, and a non-empty
    reply to that prompt becomes the new candidate. *)
Theorem correction_sql_failure_exits (E : Env) (item : sample) (schema : text)
        (ls : loop_state) (st st1 st2 : state E) (plan reply : text)
        (fuel n : nat) :
  loop_cond ls = true ->
  call_agent E (correction_plan_agent_prompt (question item) (cur_sql ls) schema
                                             (cur_error ls)) st
  = Some (Ok plan, st1) ->
  call_agent E (correction_sql_agent_prompt (question item) schema plan (cur_sql ls)) st1
  = Some (Ok reply, st2) ->
  (reply = [] ->
   correction_loop E item (S fuel) schema ls n st = Some (Ok (ls, S n), st2))
  /\ (plan = [] -> reply <> [] ->
      correction_loop E item (S fuel) schema ls n st
      = correction_loop E item fuel schema
          {| cur_sql := postprocess_sql reply;
             cur_exec_match := fst (query_execution E item (postprocess_sql reply));
             cur_error := snd (query_execution E item (postprocess_sql reply));
             exec_failed := negb (fst (query_execution E item (postprocess_sql reply)));
             attempts := attempts ls + 1 |} (S n) st2).
Proof.
  intros Hcond Hplan Hsql.
  assert (Hbody : loop_body E item schema ls st
                  = if is_empty reply then Some (Ok (ls, true), st2)
                    else Some (Ok ({| cur_sql := postprocess_sql reply;
                                      cur_exec_match := fst (query_execution E item (postprocess_sql reply));
                                      cur_error := snd (query_execution E item (postprocess_sql reply));
                                      exec_failed := negb (fst (query_execution E item (postprocess_sql reply)));
                                      attempts := attempts ls + 1 |}, false), st2)).
  { unfold loop_body.
    rewrite (bind_ok Hplan), (bind_ok Hsql).
    destruct (is_empty reply); [reflexivity|].
    now destruct (query_execution E item (postprocess_sql reply)). }
  split.
  - intros ->. cbn [correction_loop]. rewrite Hcond.
    now rewrite (bind_ok Hbody).
  - intros _ Hreply. cbn [correction_loop]. rewrite Hcond.
    destruct reply as [|c reply]; [congruence|].
    now rewrite (bind_ok Hbody).
Qed.

Lemma correction_sql_failure_exits_witness :
  correction_loop singer_env singer_sample 4 (T "singer: id") failed_candidate 0
                  (singer_state [Some (T "fix the table name"); None] [])
  = Some (Ok (failed_candidate, 1),
          singer_state []
            [correction_plan_agent_prompt (question singer_sample) (T "select 2")
                                          (T "singer: id") (Some (T "syntax error"));
             correction_sql_agent_prompt (question singer_sample) (T "singer: id")
                                         (T "fix the table name") (T "select 2")]).
Proof.
  apply (proj1 (correction_sql_failure_exits singer_env singer_sample (T "singer: id")
           failed_candidate
           (singer_state [Some (T "fix the table name"); None] [])
           (singer_state [None]
              [correction_plan_agent_prompt (question singer_sample) (T "select 2")
                                            (T "singer: id") (Some (T "syntax error"))])
           (singer_state []
              [correction_plan_agent_prompt (question singer_sample) (T "select 2")
                                            (T "singer: id") (Some (T "syntax error"));
               correction_sql_agent_prompt (question singer_sample) (T "singer: id")
                                           (T "fix the table name") (T "select 2")])
           (T "fix the table name") [] 3 0 eq_refl eq_refl eq_refl)).
  reflexivity.
Defined.

(* ================================================================= *)
(** ** The comparator when the reference statement fails *)

Lemma query_execution_gold_fails (E : Env) (item : sample) (sql msg : text)
      (gen : list row) :
  exec_query E (db_path (db_id item)) (postprocess_sql (query item)) = (None, Some msg) ->
  exec_query E (db_path (db_id item)) (postprocess_sql sql) = (Some gen, None) ->
  query_execution E item sql = (false, None).
Proof. intros Hgold Hgen. unfold query_execution. now rewrite Hgold, Hgen. Qed.

(** C10: when the reference SQL fails to execute and the candidate
    executes, the comparator returns (false, None); the correction loop
    is then entered, and the first prompt it sends is the
    correction-plan prompt built with [error = None] (the template
    renders it as the word None: there is no error text to feed
    back). *)
Theorem gold_failure_enters_loop_without_feedback
        (E : Env) (item : sample) (plan schema reply msg : text)
        (gen : list row) (st st1 : state E) (fuel : nat) :
  call_agent E (sql_agent_prompt (question item) plan schema) st = Some (Ok reply, st1) ->
  is_empty reply = false ->
  exec_query E (db_path (db_id item)) (postprocess_sql (query item)) = (None, Some msg) ->
  exec_query E (db_path (db_id item)) (postprocess_sql (postprocess_sql reply))
  = (Some gen, None) ->
  MAX_CRITIC_ATTEMPTS < fuel ->
  query_execution E item (postprocess_sql reply) = (false, None)
  /\ exists out st' rest,
      generation E item fuel plan schema st = Some (Ok out, st')
      /\ prompts_sent st'
         = prompts_sent st1
           ++ correction_plan_agent_prompt (question item) (postprocess_sql reply)
                                           schema None :: rest.
Proof.
  intros Hcall Hreply Hgold Hgen Hfuel.
  pose proof (query_execution_gold_fails E item (postprocess_sql reply) msg gen Hgold Hgen)
    as Hq.
  split; [exact Hq|].
  unfold generation. rewrite (bind_ok Hcall), Hreply, Hq.
  match goal with
  | |- context [correction_loop E item fuel schema ?ls 0] =>
      destruct (correction_loop_returns E item schema fuel ls 0 st1)
        as (ls' & n' & st' & sent & Hloop & _ & _ & Hsent & Hfirst);
      [unfold MAX_CRITIC_ATTEMPTS in *; simpl; lia|]
  end.
  rewrite (bind_ok Hloop).
  destruct (Hfirst eq_refl) as [rest ->].
  exists (scoring E item (cur_sql (fst (ls', n'))) (cur_exec_match (fst (ls', n')))), st', rest.
  split; [reflexivity|exact Hsent].
Qed.

(** With [error = None] the prompt shows the word None where the error
    text would be. *)
Example no_feedback_renders_none :
  contains (T "Error:
None

Analyze the error")
           (correction_plan_agent_prompt (question broken_gold_sample) (T "select 1")
                                         (T "singer: id") None) = true.
Proof. vm_compute. reflexivity. Qed.

Lemma gold_failure_enters_loop_without_feedback_witness :
  query_execution singer_env broken_gold_sample (postprocess_sql (T "SELECT 1;"))
  = (false, None)
  /\ exists out st' rest,
      generation singer_env broken_gold_sample 4 (T "count the rows") (T "singer: id")
                 (singer_state [Some (T "SELECT 1;")] [])
      = Some (Ok out, st')
      /\ prompts_sent st'
         = prompts_sent
             (singer_state []
                [sql_agent_prompt (question broken_gold_sample) (T "count the rows")
                                  (T "singer: id")])
           ++ correction_plan_agent_prompt (question broken_gold_sample)
                                           (postprocess_sql (T "SELECT 1;"))
                                           (T "singer: id") None :: rest.
Proof.
  apply (gold_failure_enters_loop_without_feedback singer_env broken_gold_sample
           (T "count the rows") (T "singer: id") (T "SELECT 1;") (T "syntax error")
           [[CInt 1]] (singer_state [Some (T "SELECT 1;")] [])
           (singer_state []
              [sql_agent_prompt (question broken_gold_sample) (T "count the rows")
                                (T "singer: id")])).
  - reflexivity.
  - reflexivity.
  - reflexivity.
  - reflexivity.
  - unfold MAX_CRITIC_ATTEMPTS. lia.
Defined.

(* ================================================================= *)
(** ** One sample *)

Section SampleFacts.
Variable E : Env.
Variable item : sample.

Lemma query_execution_match_executes (sql : text) :
  fst (query_execution E item sql) = true ->
  executes E (db_id item) (postprocess_sql sql).
Proof.
  unfold query_execution, executes.
  destruct (exec_query E (db_path (db_id item)) (postprocess_sql (query item)))
    as [gold_rows gold_err].
  destruct (exec_query E (db_path (db_id item)) (postprocess_sql sql))
    as [gen_rows gen_err].
  simpl. destruct gen_err; [discriminate|reflexivity].
Qed.

Lemma scoring_sound (ls : loop_state) :
  verdict_of_candidate E item ls ->
  outcome_sound E item (Ok (scoring E item (cur_sql ls) (cur_exec_match ls))).
Proof.
  intros [Hv _]. unfold scoring, outcome_sound, executes.
  destruct (exec_query E (db_path (db_id item)) (cur_sql ls)) as [rows err] eqn:Hx.
  split.
  - rewrite Hx. simpl. destruct err; split; congruence.
  - intros Hm. apply query_execution_match_executes.
    now rewrite <- Hv.
Qed.

Lemma schema_linking_returns (schema : text) (st : state E) :
  exists cs st', schema_linking E item schema st = Some (Ok cs, st').
Proof.
  unfold schema_linking.
  destruct (call_agent_returns E (alt_schema_linking_agent_prompt (question item) schema) st)
    as (r & w & H).
  rewrite (bind_ok H). unfold ret. eauto.
Qed.

Lemma planning_returns (cs sub_json : text) (st : state E) :
  exists plan st', planning E item cs sub_json st = Some (Ok plan, st').
Proof.
  unfold planning.
  destruct (call_agent_returns E (query_plan_agent_prompt (question item) cs sub_json) st)
    as (r & w & H).
  rewrite (bind_ok H). unfold ret. eauto.
Qed.

Lemma decomposition_returns (cs : text) (st : state E) :
  exists r st', decomposition E item cs st = Some (r, st').
Proof.
  unfold decomposition.
  destruct (call_agent_returns E (subproblem_agent_prompt (question item) cs) st)
    as (r & w & H).
  rewrite (bind_ok H). destruct (is_empty r); unfold ret, lift; eauto.
Qed.

(** The clause stage does not touch the state. *)
Lemma clause_guidance_returns (sub_json : text) (st : state E) :
  exists r, clause_guidance E sub_json st = Some (r, st).
Proof.
  unfold clause_guidance, bind, lift, ret.
  destruct (parse_subproblems E sub_json) as [parsed|e]; [|eauto].
  destruct (list_of_set (JArr parsed)) as [cl|e]; [|eauto].
  destruct (as_tags cl) as [tags|e]; eauto.
Qed.

Lemma generation_returns (fuel : nat) (plan cs : text) (st : state E) :
  MAX_CRITIC_ATTEMPTS < fuel ->
  exists out st',
    generation E item fuel plan cs st = Some (Ok out, st')
    /\ outcome_sound E item (Ok out).
Proof.
  intros Hfuel. unfold generation.
  destruct (call_agent_returns E (sql_agent_prompt (question item) plan cs) st)
    as (r & w & H).
  rewrite (bind_ok H). destruct (is_empty r).
  - unfold ret. do 2 eexists. split; [reflexivity|exact I].
  - destruct (query_execution E item (postprocess_sql r)) as [m err] eqn:Hq.
    match goal with
    | |- context [correction_loop E item fuel cs ?ls 0] =>
        destruct (correction_loop_returns E item cs fuel ls 0
                    {| world := w;
                       prompts_sent :=
                         prompts_sent st ++ [sql_agent_prompt (question item) plan cs] |})
          as (ls' & n' & st' & sent & Hloop & _ & Hv & _);
        [unfold MAX_CRITIC_ATTEMPTS in *; simpl; lia|]
    end.
    rewrite (bind_ok Hloop). unfold ret. cbn [fst].
    do 2 eexists. split; [reflexivity|].
    apply scoring_sound, Hv. split; simpl; [now rewrite Hq|reflexivity].
Qed.

(** The [try] block returns or raises; it never runs out of fuel
    once the fuel exceeds the attempt budget. *)
Lemma sample_body_returns (fuel : nat) (schema : text) (st : state E) :
  MAX_CRITIC_ATTEMPTS < fuel ->
  exists r st',
    sample_body E item fuel schema st = Some (r, st')
    /\ outcome_sound E item r.
Proof.
  intros Hfuel. unfold sample_body.
  destruct (schema_linking_returns schema st) as (cs & st1 & H1).
  rewrite (bind_ok H1).
  destruct (decomposition_returns cs st1) as ([sub_json|e] & st2 & H2);
    [|rewrite (bind_raise H2); do 2 eexists; split; [reflexivity|exact I]].
  rewrite (bind_ok H2).
  destruct (clause_guidance_returns sub_json st2) as ([g|e] & H3);
    [|rewrite (bind_raise H3); do 2 eexists; split; [reflexivity|exact I]].
  rewrite (bind_ok H3).
  destruct (planning_returns cs sub_json st2) as (plan & st3 & H4).
  rewrite (bind_ok H4).
  destruct (generation_returns fuel plan cs st3 Hfuel) as (out & st4 & H5 & Hs).
  eauto.
Qed.
End SampleFacts.

(* ================================================================= *)
(** ** The run *)

Section RunFacts.
Variable E : Env.

Lemma record_outcome_appends (item : sample) (idx : nat) (r : result outcome)
      (acc : run) :
  outcome_sound E item r ->
  exists e,
    results (record_outcome item idx r acc) = results acc ++ [e]
    /\ total (record_outcome item idx r acc) = total acc + 1
    /\ sample_id e = idx + 1
    /\ (error e <> None -> failure_shape e)
    /\ entry_sound E e.
Proof.
  intros Hs. destruct r as [[|sql exact valid exec]|ex]; simpl;
    eexists; (split; [reflexivity|]); (split; [reflexivity|]);
    (split; [reflexivity|]); simpl.
  - split; [congruence|]. split; discriminate.
  - split; [congruence|]. unfold entry_sound. simpl.
    destruct Hs as [Hv Hm]. split; [apply Hv|apply Hm].
  - split; [intros _; repeat split|]. split; discriminate.
Qed.

Lemma evaluate_sample_skips (item : sample) (fuel idx : nat) (acc : run)
      (st : state E) (schema : text) :
  load_schema E (db_id item) = Ok schema ->
  is_empty schema = true ->
  evaluate_sample E item fuel idx acc st = Some (Ok acc, st).
Proof. intros Hl H. unfold evaluate_sample. now rewrite Hl, H. Qed.

Lemma evaluate_sample_raises (item : sample) (fuel idx : nat) (acc : run)
      (st : state E) (e : exn) :
  load_schema E (db_id item) = Raise e ->
  evaluate_sample E item fuel idx acc st = Some (Raise e, st).
Proof. intros Hl. unfold evaluate_sample. now rewrite Hl. Qed.

Lemma evaluate_sample_records (item : sample) (fuel idx : nat) (acc : run)
      (st : state E) (schema : text) :
  MAX_CRITIC_ATTEMPTS < fuel ->
  load_schema E (db_id item) = Ok schema ->
  is_empty schema = false ->
  exists r st',
    sample_body E item fuel schema st = Some (r, st')
    /\ outcome_sound E item r
    /\ evaluate_sample E item fuel idx acc st
       = Some (Ok (record_outcome item idx r acc), st').
Proof.
  intros Hfuel Hl Hschema. unfold evaluate_sample. rewrite Hl, Hschema.
  destruct (sample_body_returns E item fuel schema st Hfuel)
    as (r & st' & Hbody & Hs).
  rewrite Hbody. eauto.
Qed.

Lemma evaluate_from_returns (fuel : nat) (dev : list sample) :
  MAX_CRITIC_ATTEMPTS < fuel ->
  forall (idx : nat) (acc : run) (st : state E),
  exists out st',
    evaluate_from E fuel idx dev acc st = Some (out, st')
    /\ match out with
       | Ok r =>
           exists new,
             results r = results acc ++ new
             /\ total r = total acc + List.length new
             /\ map sample_id new = processed_ids E idx dev
             /\ Forall (fun e => error e <> None -> failure_shape e) new
             /\ Forall (entry_sound E) new
       | Raise e =>
           exists item, In item dev /\ load_schema E (db_id item) = Raise e
       end.
Proof.
  intros Hfuel. induction dev as [|item rest IH]; intros idx acc st.
  - exists (Ok acc), st. split; [reflexivity|]. exists []. simpl.
    rewrite app_nil_r. repeat split; auto.
  - cbn [evaluate_from processed_ids].
    destruct (load_schema E (db_id item)) as [schema|e] eqn:Hload.
    + destruct (is_empty schema) eqn:Hschema.
      * rewrite (evaluate_sample_skips item fuel idx acc st schema Hload Hschema).
        destruct (IH (S idx) acc st) as ([r|e] & st' & Hrun & Hout).
        -- exists (Ok r), st'. split; [exact Hrun|exact Hout].
        -- exists (Raise e), st'. split; [exact Hrun|].
           destruct Hout as (it & Hin & Hit). exists it. split; [now right|exact Hit].
      * destruct (evaluate_sample_records item fuel idx acc st schema Hfuel Hload Hschema)
          as (r & st1 & _ & Hs & Heval).
        rewrite Heval.
        destruct (record_outcome_appends item idx r acc Hs)
          as (e & Hres & Htot & Hid & Hfail & Hsound).
        destruct (IH (S idx) (record_outcome item idx r acc) st1)
          as ([r2|e2] & st2 & Hrun & Hout).
        -- destruct Hout as (new & Hres2 & Htot2 & Hids & Hf & Hso).
           exists (Ok r2), st2. split; [exact Hrun|]. exists (e :: new).
           split; [now rewrite Hres2, Hres, <- app_assoc|].
           split; [rewrite Htot2, Htot; simpl; lia|].
           split; [simpl; now rewrite Hid, Hids|].
           split; constructor; assumption.
        -- destruct Hout as (it & Hin & Hit).
           exists (Raise e2), st2. split; [exact Hrun|].
           exists it. split; [now right|exact Hit].
    + rewrite (evaluate_sample_raises item fuel idx acc st e Hload).
      exists (Raise e), st. split; [reflexivity|].
      exists item. split; [now left|exact Hload].
Qed.

(** [evaluate] ends: with a run whose new entries are described as
    above, or by an exception that it does not handle. *)
Lemma evaluate_returns (fuel : nat) (dev : list sample) (num_samples : Z)
      (st : state E) :
  MAX_CRITIC_ATTEMPTS < fuel ->
  is_nil dev = false ->
  exists out st',
    evaluate E fuel dev num_samples st = Some (out, st')
    /\ run_ends_with E (take num_samples dev)
         (fun r =>
            map sample_id (results r) = processed_ids E 0 (take num_samples dev)
            /\ total r = List.length (results r)
            /\ Forall (fun e => error e <> None -> failure_shape e) (results r)
            /\ Forall (entry_sound E) (results r))
         out.
Proof.
  intros Hfuel Hdev. unfold evaluate. rewrite Hdev.
  destruct (taxonomy_error E) as [e|] eqn:Htax.
  - exists (Raise e), st. split; [reflexivity|]. now left.
  - destruct (evaluate_from_returns fuel (take num_samples dev) Hfuel 0 empty_run st)
      as ([r|e] & st' & Hrun & Hout); rewrite Hrun.
    + destruct Hout as (new & Hres & Htot & Hids & Hf & Hso).
      exists (Ok (Some r)), st'. split; [reflexivity|]. simpl in Hres, Htot.
      subst new. simpl. auto.
    + exists (Raise e), st'. split; [reflexivity|]. now right.
Qed.

(** When the taxonomy file and [load_schema] do not raise, the run
    returns. *)
Lemma run_ends_with_returns (dev : list sample) (P : run -> Prop)
      (out : result (option run)) :
  taxonomy_error E = None ->
  schemas_load E dev ->
  run_ends_with E dev P out ->
  exists r, out = Ok (Some r) /\ P r.
Proof.
  intros Htax Hload Hout. destruct out as [[r|]|e]; simpl in Hout.
  - eauto.
  - contradiction.
  - destruct Hout as [Ht|(item & Hin & Hit)]; [congruence|].
    destruct (Hload item Hin) as (schema & Hs). congruence.
Qed.
End RunFacts.

(** C1, counterexample: a run over one sample whose schema cannot be
    loaded (its database file does not exist, the loader returns the
    empty string) ends with an empty results list: the sample has no
    entry. *)
Lemma unloadable_schema_leaves_no_entry :
  load_schema singer_env (db_id unknown_db_sample) = Ok []
  /\ evaluate singer_env 4 [unknown_db_sample] 100 (singer_state [] [])
     = Some (Ok (Some empty_run), singer_state [] [])
  /\ results empty_run = [].
Proof. repeat split. Qed.

(** C1, amended: in a run over a non-empty dataset in which reading
    the taxonomy file and loading the schemas raise nothing, the loop
    over the samples terminates, and the results list it builds holds
    exactly one entry, in dataset order and numbered by position, for
    every sample whose schema is not empty; [total] counts these
    entries.  A sample for which [load_schema] returns the empty string
    is skipped and adds nothing.  When the processing of a sample
    raises, or its generation stage fails, the entry appended has empty
    generated SQL and the three metrics false, with the message of the
    exception as its error in the first case and no error field in the
    second. *)
Theorem processed_samples_are_recorded (E : Env) (fuel : nat) (dev : list sample)
        (num_samples : Z) (st : state E) :
  MAX_CRITIC_ATTEMPTS < fuel ->
  is_nil dev = false ->
  taxonomy_error E = None ->
  schemas_load E (take num_samples dev) ->
  (exists r st',
      evaluate E fuel dev num_samples st = Some (Ok (Some r), st')
      /\ map sample_id (results r) = processed_ids E 0 (take num_samples dev)
      /\ total r = List.length (results r)
      /\ Forall (fun e => error e <> None -> failure_shape e) (results r))
  /\ (forall item idx acc st0,
         load_schema E (db_id item) = Ok [] ->
         evaluate_sample E item fuel idx acc st0 = Some (Ok acc, st0))
  /\ (forall item idx acc st0 schema,
         load_schema E (db_id item) = Ok schema ->
         is_empty schema = false ->
         exists r st1,
           sample_body E item fuel schema st0 = Some (r, st1)
           /\ evaluate_sample E item fuel idx acc st0
              = Some (Ok (record_outcome item idx r acc), st1)
           /\ (forall ex, r = Raise ex ->
                  results (record_outcome item idx r acc)
                  = results acc
                    ++ [new_entry item idx [] false false false (Some (str_exn ex))])
           /\ (r = Ok GenerationFailed ->
               results (record_outcome item idx r acc)
               = results acc ++ [new_entry item idx [] false false false None])).
Proof.
  intros Hfuel Hdev Htax Hload. split; [|split].
  - destruct (evaluate_returns E fuel dev num_samples st Hfuel Hdev)
      as (out & st' & Hrun & Hout).
    destruct (run_ends_with_returns E _ _ out Htax Hload Hout)
      as (r & -> & Hids & Htot & Hf & _).
    exists r, st'. auto.
  - intros item idx acc st0 Hl.
    now apply (evaluate_sample_skips E item fuel idx acc st0 []).
  - intros item idx acc st0 schema Hl Hschema.
    destruct (evaluate_sample_records E item fuel idx acc st0 schema Hfuel Hl Hschema)
      as (r & st1 & Hbody & _ & Heval).
    exists r, st1. split; [exact Hbody|]. split; [exact Heval|].
    split; [intros ex ->; reflexivity|intros ->; reflexivity].
Qed.

Lemma processed_samples_are_recorded_witness :
  exists r st',
    evaluate singer_env 4 [unknown_db_sample; singer_sample] 2
             (singer_state [Some (T "singer: id"); None; Some (T "count the rows");
                             Some (T "SELECT count(*) FROM singer")] [])
    = Some (Ok (Some r), st')
    /\ map sample_id (results r)
       = processed_ids singer_env 0 (take 2 [unknown_db_sample; singer_sample])
    /\ total r = List.length (results r)
    /\ Forall (fun e => error e <> None -> failure_shape e) (results r).
Proof.
  apply (proj1 (processed_samples_are_recorded singer_env 4
                  [unknown_db_sample; singer_sample] 2
                  (singer_state [Some (T "singer: id"); None; Some (T "count the rows");
                                  Some (T "SELECT count(*) FROM singer")] [])
                  (Nat.lt_succ_diag_r 3) eq_refl eq_refl
                  (fun item Hin =>
                     match Hin with
                     | or_introl Heq =>
                         ex_intro _ [] (f_equal (fun i => load_schema singer_env (db_id i))
                                                (eq_sym Heq))
                     | or_intror (or_introl Heq) =>
                         ex_intro _ (T "singer: id")
                                  (f_equal (fun i => load_schema singer_env (db_id i))
                                           (eq_sym Heq))
                     | or_intror (or_intror Hf) => match Hf with end
                     end))).
Defined.

(** The run of the witness: the first sample is skipped, the second is
    scored and numbered 2. *)
Example mixed_dataset_run :
  exists st',
    evaluate singer_env 4 [unknown_db_sample; singer_sample] 2
             (singer_state [Some (T "singer: id"); None; Some (T "count the rows");
                             Some (T "SELECT count(*) FROM singer")] [])
    = Some (Ok (Some {| total := 1; exact_matches := 1; valid_sqls := 1;
                        exec_correct := 1;
                        results := [new_entry singer_sample 1
                                              (T "select count(*) from singer")
                                              true true true None] |}), st').
Proof. eexists. vm_compute. reflexivity. Qed.

(* ================================================================= *)
(** ** Metrics and execution *)

(** C9, counterexample: the generation call fails, so the entry has
    empty [gen_sql] and [valid_sql] false; the engine runs the empty
    statement without error (as sqlite3 does), so "[valid_sql] iff
    [gen_sql] executes" fails on this entry. *)
Lemma failed_generation_entry_executes :
  exists st',
    evaluate lenient_env 4 [singer_sample] 1
             (Build_state lenient_env
                [Some (T "singer: id"); None; Some (T "count the rows"); None] [])
    = Some (Ok (Some {| total := 1; exact_matches := 0; valid_sqls := 0;
                        exec_correct := 0;
                        results := [new_entry singer_sample 0 [] false false false
                                              None] |}),
            st')
    /\ valid_sql (new_entry singer_sample 0 [] false false false None) = false
    /\ exec_query lenient_env (db_path (db_id singer_sample)) [] = (Some [], None).
Proof. eexists. split; [vm_compute; reflexivity|]. split; reflexivity. Qed.

(** The second half of the invariant fails on a scored sample as well:
    the reply [x sel`ect 1] is normalized to [x select 1]; the
    comparator normalizes it once more, to [select 1], which matches
    the reference, while [x select 1] itself does not execute: the
    result has [exec_match] true and [valid_sql] false. *)
Example exec_match_without_valid_sql :
  exists st',
    evaluate singer_env 4 [select_one_sample] 1
             (singer_state [Some (T "singer: id"); None; Some (T "read the constant");
                            Some (T "x sel`ect 1")] [])
    = Some (Ok (Some {| total := 1; exact_matches := 0; valid_sqls := 0;
                        exec_correct := 1;
                        results := [new_entry select_one_sample 0 (T "x select 1")
                                              false false true None] |}), st').
Proof. eexists. vm_compute. reflexivity. Qed.

(** C9, amended: a run ends (returning, unless the taxonomy file or
    [load_schema] raises), and in every result of it [valid_sql]
    true implies that [gen_sql] executes without error, and
    [exec_match] true implies that the normalized [gen_sql] (what the
    comparator runs) executes without error, hence implies that
    [gen_sql] executes when the normalizer leaves it unchanged; the
    processing of a sample returns, and when it reaches scoring
    [valid_sql] is true exactly when [gen_sql] executes without
    error. *)
Theorem metrics_reflect_execution (E : Env) (fuel : nat) (dev : list sample)
        (num_samples : Z) (st : state E) :
  MAX_CRITIC_ATTEMPTS < fuel ->
  is_nil dev = false ->
  (exists out st',
      evaluate E fuel dev num_samples st = Some (out, st')
      /\ run_ends_with E (take num_samples dev)
           (fun r =>
              Forall (fun e =>
                        (valid_sql e = true -> executes E (entry_db_id e) (gen_sql e))
                        /\ (exec_match e = true ->
                            executes E (entry_db_id e) (postprocess_sql (gen_sql e)))
                        /\ (postprocess_sql (gen_sql e) = gen_sql e ->
                            exec_match e = true ->
                            executes E (entry_db_id e) (gen_sql e)))
                     (results r))
           out)
  /\ (forall item schema st0,
         exists out st1,
           sample_body E item fuel schema st0 = Some (out, st1)
           /\ forall sql exact valid exec,
               out = Ok (Scored sql exact valid exec) ->
               (valid = true <-> executes E (db_id item) sql)
               /\ (exec = true -> executes E (db_id item) (postprocess_sql sql))).
Proof.
  intros Hfuel Hdev. split.
  - destruct (evaluate_returns E fuel dev num_samples st Hfuel Hdev)
      as (out & st' & Hrun & Hout).
    exists out, st'. split; [exact Hrun|].
    destruct out as [[r|]|e]; simpl in *; [|exact Hout|exact Hout].
    destruct Hout as (_ & _ & _ & Hsound).
    eapply Forall_impl; [|exact Hsound].
    intros e [Hv Hm]. split; [exact Hv|]. split; [exact Hm|].
    intros Hfix Hexec. rewrite <- Hfix. now apply Hm.
  - intros item schema st0.
    destruct (sample_body_returns E item fuel schema st0 Hfuel) as (out & st1 & Hb & Hs).
    exists out, st1. split; [exact Hb|].
    intros sql exact valid exec ->. exact Hs.
Qed.

Lemma metrics_reflect_execution_witness :
  exists out st',
    evaluate singer_env 4 [unknown_db_sample; singer_sample] 2
             (singer_state [Some (T "singer: id"); None; Some (T "count the rows");
                            Some (T "SELECT count(*) FROM singer")] [])
    = Some (out, st')
    /\ run_ends_with singer_env (take 2 [unknown_db_sample; singer_sample])
         (fun r =>
            Forall (fun e =>
                      (valid_sql e = true
                       -> executes singer_env (entry_db_id e) (gen_sql e))
                      /\ (exec_match e = true ->
                          executes singer_env (entry_db_id e)
                                   (postprocess_sql (gen_sql e)))
                      /\ (postprocess_sql (gen_sql e) = gen_sql e ->
                          exec_match e = true ->
                          executes singer_env (entry_db_id e) (gen_sql e)))
                   (results r))
         out.
Proof.
  apply (proj1 (metrics_reflect_execution singer_env 4
                  [unknown_db_sample; singer_sample] 2
                  (singer_state [Some (T "singer: id"); None; Some (T "count the rows");
                                 Some (T "SELECT count(*) FROM singer")] [])
                  (Nat.lt_succ_diag_r 3) eq_refl)).
Defined.

(* ================================================================= *)
(** ** Clause detector *)

Lemma dedup_strings (tags : list text) :
  NoDup tags -> dedup (map JStr tags) = map JStr tags.
Proof.
  induction 1 as [|t tags Hnot Hnd IH]; simpl; [reflexivity|].
  rewrite IH. f_equal.
  apply forallb_filter_id. apply forallb_forall.
  intros v Hv. apply in_map_iff in Hv as (u & <- & Hu). simpl.
  destruct (text_eqb t u) eqn:Heq; [|reflexivity].
  apply text_eqb_eq in Heq. subst u. contradiction.
Qed.

Lemma NoDup_map_fst_filter {A B} (f : A * B -> bool) (l : list (A * B)) :
  NoDup (map fst l) -> NoDup (map fst (filter f l)).
Proof.
  induction l as [|x l IH]; simpl; intros H; [constructor|].
  inversion H as [|? ? Hnot Hnd]; subst.
  destruct (f x); simpl; [|now apply IH].
  constructor; [|now apply IH].
  intros Hin. apply Hnot.
  apply in_map_iff in Hin as (y & Hy & Hin).
  apply filter_In in Hin as [Hin _].
  apply in_map_iff. eauto.
Qed.

Lemma clause_names_distinct : NoDup (map fst clause_patterns).
Proof.
  assert (H : forall l : list text,
             (fix distinct (l : list text) : bool :=
                match l with
                | [] => true
                | x :: r => negb (existsb (text_eqb x) r) && distinct r
                end) l = true -> NoDup l).
  { induction l as [|x r IH]; intros Hd; [constructor|].
    apply andb_true_iff in Hd as [Hx Hr]. constructor; [|now apply IH].
    intros Hin. apply negb_true_iff in Hx.
    assert (existsb (text_eqb x) r = true) as Hex
        by (apply existsb_exists; exists x; split; [exact Hin|apply text_eqb_refl]).
    congruence. }
  apply H. vm_compute. reflexivity.
Qed.

(** A clause tag is reported at most once. *)
Lemma extract_clauses_distinct (txt : text) : NoDup (extract_clauses_from_text txt).
Proof.
  unfold extract_clauses_from_text.
  apply NoDup_map_fst_filter, clause_names_distinct.
Qed.

Lemma as_tags_strings (tags : list text) : as_tags (map JStr tags) = Ok tags.
Proof. induction tags as [|t tags IH]; simpl; [reflexivity|now rewrite IH]. Qed.

Lemma find_unhashable_strings (tags : list text) :
  find (fun x => negb (hashable x)) (map JStr tags) = None.
Proof. induction tags as [|t tags IH]; simpl; [reflexivity|exact IH]. Qed.

Lemma list_of_set_strings (tags : list text) :
  NoDup tags -> list_of_set (JArr (map JStr tags)) = Ok (map JStr tags).
Proof.
  intros H. unfold list_of_set.
  now rewrite find_unhashable_strings, dedup_strings.
Qed.

(** On a text that does not decode as JSON the detector returns the
    clauses found by keyword extraction; it does not raise. *)
Lemma parse_subproblems_not_json (E : Env) (sub_json : text) :
  json_loads E sub_json = DecodeError ->
  parse_subproblems E sub_json
  = Ok (map JStr (extract_clauses_from_text sub_json)).
Proof.
  intros Hloads. unfold parse_subproblems, detected_clauses. rewrite Hloads.
  pose proof (extract_clauses_distinct sub_json) as Hnd.
  destruct (extract_clauses_from_text sub_json) as [|t tags]; [reflexivity|].
  exact (list_of_set_strings (t :: tags) Hnd).
Qed.

Example detect_plain_text :
  parse_subproblems singer_env (T "We need to SELECT and use WHERE")
  = Ok [JStr (T "SELECT"); JStr (T "WHERE")].
Proof. vm_compute. reflexivity. Qed.

Example detect_nothing :
  parse_subproblems singer_env (T "not json and no keywords") = Ok [].
Proof. vm_compute. reflexivity. Qed.

(** C7, the failing input: when the decomposition text decodes to an
    object whose ["clauses"] field is the number 5, [parse_subproblems]
    raises the TypeError of [set(5)]. *)
Theorem parse_subproblems_raises_on_scalar_clauses (E : Env) :
  json_loads E scalar_clauses_text = Decoded (JObj [(T "clauses", JInt 5)]) ->
  parse_subproblems E scalar_clauses_text
  = Raise (TypeError (T "'int' object is not iterable")).
Proof.
  intros Hloads. unfold parse_subproblems, detected_clauses. rewrite Hloads.
  reflexivity.
Qed.

Lemma parse_subproblems_raises_on_scalar_clauses_witness :
  parse_subproblems scalar_clauses_env scalar_clauses_text
  = Raise (TypeError (T "'int' object is not iterable")).
Proof.
  apply (parse_subproblems_raises_on_scalar_clauses scalar_clauses_env).
  reflexivity.
Defined.

(* ================================================================= *)
(** ** Malformed decomposition output *)

(** A run in which the decomposition reply is plain text without
    braces: [clean_json] raises, and the sample is finalized as a
    failure carrying the message of the exception. *)
Example braceless_decomposition_run :
  json_loads singer_env (T "We need SELECT and WHERE") = DecodeError
  /\ exists st',
      evaluate singer_env 4 [singer_sample] 1
               (singer_state [Some (T "singer: id"); Some (T "We need SELECT and WHERE");
                              Some (T "count the rows");
                              Some (T "SELECT count(*) FROM singer")] [])
      = Some (Ok (Some {| total := 1; exact_matches := 0; valid_sqls := 0;
                          exec_correct := 0;
                          results := [new_entry singer_sample 0 [] false false false
                                                (Some (T "No JSON object found"))] |}),
              st').
Proof. split; [reflexivity|]. eexists. vm_compute. reflexivity. Qed.

Lemma clause_guidance_not_json (E : Env) (item : sample) (sub_json : text)
      (st : state E) :
  json_loads E sub_json = DecodeError ->
  clause_guidance E sub_json st
  = Some (Ok (clause_specific_prompts (extract_clauses_from_text sub_json)), st).
Proof.
  intros Hloads. unfold clause_guidance, bind, lift, ret.
  rewrite (parse_subproblems_not_json E sub_json Hloads).
  rewrite (list_of_set_strings _ (extract_clauses_distinct sub_json)).
  now rewrite as_tags_strings.
Qed.

(** The fallback of the detector is reached when the decomposition
    reply contains an opening and a closing brace (so that [clean_json]
    returns) and the extracted text raises the decoding error: the
    clause stage then works on the keywords of that text and the
    processing of the sample returns an outcome. *)
Lemma decomposition_with_braces_falls_back (E : Env) (item : sample) (fuel : nat)
      (schema cs raw sub_json : text) (st st0 st1 : state E) :
  schema_linking E item schema st = Some (Ok cs, st0) ->
  call_agent E (subproblem_agent_prompt (question item) cs) st0 = Some (Ok raw, st1) ->
  clean_json raw = Ok sub_json ->
  json_loads E sub_json = DecodeError ->
  MAX_CRITIC_ATTEMPTS < fuel ->
  decomposition E item cs st0 = Some (Ok sub_json, st1)
  /\ clause_guidance E sub_json st1
     = Some (Ok (clause_specific_prompts (extract_clauses_from_text sub_json)), st1)
  /\ exists out st', sample_body E item fuel schema st = Some (Ok out, st').
Proof.
  intros Hlink Hcall Hclean Hloads Hfuel.
  assert (Hdec : decomposition E item cs st0 = Some (Ok sub_json, st1)).
  { unfold decomposition. rewrite (bind_ok Hcall).
    destruct raw as [|c raw]; [discriminate|]. simpl. unfold lift.
    now rewrite Hclean. }
  pose proof (clause_guidance_not_json E item sub_json st1 Hloads) as Hguid.
  split; [exact Hdec|]. split; [exact Hguid|].
  unfold sample_body.
  rewrite (bind_ok Hlink), (bind_ok Hdec), (bind_ok Hguid).
  destruct (planning_returns E item cs sub_json st1) as (plan & st3 & Hplan).
  rewrite (bind_ok Hplan).
  destruct (generation_returns E item fuel plan cs st3 Hfuel) as (out & st4 & Hgen & _).
  eauto.
Qed.

(** C8, the failing input: the decomposition agent replies with the
    plain text that the detector's own test lists as its fourth input
    format.  The detector, given that text, falls back to keyword
    extraction and returns four clauses; but [evaluate] passes the
    reply through [clean_json] first, which raises for want of a brace:
    the detector is never called, the processing of the sample raises
    the ValueError, and the sample is finalized as a failure that
    carries the message of the exception. *)
Theorem pure_text_decomposition_fails_sample (E : Env) (item : sample)
        (fuel idx : nat) (schema cs : text) (acc : run) (st st0 st1 : state E) :
  schema_linking E item schema st = Some (Ok cs, st0) ->
  call_agent E (subproblem_agent_prompt (question item) cs) st0
  = Some (Ok pure_text_reply, st1) ->
  json_loads E pure_text_reply = DecodeError ->
  parse_subproblems E pure_text_reply
  = Ok [JStr (T "SELECT"); JStr (T "FROM"); JStr (T "WHERE"); JStr (T "JOIN")]
  /\ sample_body E item fuel schema st
     = Some (Raise (ValueError (T "No JSON object found")), st1)
  /\ results (record_outcome item idx
                (Raise (ValueError (T "No JSON object found"))) acc)
     = results acc
       ++ [new_entry item idx [] false false false (Some (T "No JSON object found"))].
Proof.
  intros Hlink Hcall Hloads. split; [|split].
  - rewrite (parse_subproblems_not_json E pure_text_reply Hloads). reflexivity.
  - unfold sample_body. rewrite (bind_ok Hlink).
    assert (Hdec : decomposition E item cs st0
                   = Some (Raise (ValueError (T "No JSON object found")), st1)).
    { unfold decomposition. rewrite (bind_ok Hcall). reflexivity. }
    now rewrite (bind_raise Hdec).
  - reflexivity.
Qed.

Lemma pure_text_decomposition_fails_sample_witness :
  parse_subproblems singer_env pure_text_reply
  = Ok [JStr (T "SELECT"); JStr (T "FROM"); JStr (T "WHERE"); JStr (T "JOIN")]
  /\ sample_body singer_env singer_sample 4 (T "singer: id")
                 (singer_state [Some (T "singer: id"); Some pure_text_reply;
                                Some (T "count the rows");
                                Some (T "SELECT count(*) FROM singer")] [])
     = Some (Raise (ValueError (T "No JSON object found")),
             singer_state [Some (T "count the rows");
                           Some (T "SELECT count(*) FROM singer")]
                          [alt_schema_linking_agent_prompt (question singer_sample)
                                                           (T "singer: id");
                           subproblem_agent_prompt (question singer_sample)
                                                   (T "singer: id")])
  /\ results (record_outcome singer_sample 0
                (Raise (ValueError (T "No JSON object found"))) empty_run)
     = results empty_run
       ++ [new_entry singer_sample 0 [] false false false
                     (Some (T "No JSON object found"))].
Proof.
  apply (pure_text_decomposition_fails_sample singer_env singer_sample 4 0
           (T "singer: id") (T "singer: id") empty_run
           (singer_state [Some (T "singer: id"); Some pure_text_reply;
                          Some (T "count the rows");
                          Some (T "SELECT count(*) FROM singer")] [])
           (singer_state [Some pure_text_reply;
                          Some (T "count the rows");
                          Some (T "SELECT count(*) FROM singer")]
                         [alt_schema_linking_agent_prompt (question singer_sample)
                                                          (T "singer: id")])
           (singer_state [Some (T "count the rows");
                          Some (T "SELECT count(*) FROM singer")]
                         [alt_schema_linking_agent_prompt (question singer_sample)
                                                          (T "singer: id");
                          subproblem_agent_prompt (question singer_sample)
                                                  (T "singer: id")])
           eq_refl eq_refl eq_refl).
Defined.

(* ================================================================= *)
(** * Further properties of the code *)

(** ** JSON extraction ([clean_json], [clean_json_prefix]) *)

Lemma find_char_none (c : ascii) (s : text) :
  find_char c s = None <-> ~ In c s.
Proof.
  induction s as [|d s IH]; simpl; [tauto|].
  destruct (Ascii.eqb c d) eqn:Hcd.
  - apply Ascii.eqb_eq in Hcd. subst d. split; [discriminate|tauto].
  - apply Ascii.eqb_neq in Hcd.
    destruct (find_char c s); simpl.
    + split; [discriminate|]. intros H. exfalso. apply H. right.
      destruct (in_dec ascii_dec c s) as [Hin|Hnot]; [exact Hin|].
      apply IH in Hnot. discriminate.
    + split; [|reflexivity]. intros _ [Heq|Hin]; [congruence|].
      now apply (proj1 IH).
Qed.

Lemma rfind_char_none (c : ascii) (s : text) :
  rfind_char c s = None <-> ~ In c s.
Proof.
  induction s as [|d s IH]; simpl; [tauto|].
  destruct (rfind_char c s).
  - split; [discriminate|]. intros H. exfalso. apply H. right.
    destruct (in_dec ascii_dec c s) as [Hin|Hnot]; [exact Hin|].
    apply IH in Hnot. discriminate.
  - destruct (Ascii.eqb c d) eqn:Hcd.
    + apply Ascii.eqb_eq in Hcd. subst d. split; [discriminate|tauto].
    + apply Ascii.eqb_neq in Hcd. split; [|reflexivity].
      intros _ [Heq|Hin]; [congruence|]. now apply (proj1 IH).
Qed.

(** The first occurrence is after a prefix without the character. *)
Lemma find_char_app (c : ascii) (pre rest : text) :
  ~ In c pre -> find_char c (pre ++ c :: rest) = Some (List.length pre).
Proof.
  induction pre as [|d pre IH]; simpl; intros H.
  - now rewrite Ascii.eqb_refl.
  - destruct (Ascii.eqb c d) eqn:Hcd.
    + apply Ascii.eqb_eq in Hcd. exfalso. apply H. now left.
    + rewrite IH; [reflexivity|]. intros Hin. apply H. now right.
Qed.

Lemma find_char_split (c : ascii) (s : text) (i : nat) :
  find_char c s = Some i ->
  exists pre rest, s = pre ++ c :: rest /\ ~ In c pre /\ List.length pre = i.
Proof.
  revert i. induction s as [|d s IH]; simpl; intros i; [discriminate|].
  destruct (Ascii.eqb c d) eqn:Hcd.
  - apply Ascii.eqb_eq in Hcd. subst d. intros H. injection H as <-.
    exists [], s. simpl. tauto.
  - apply Ascii.eqb_neq in Hcd.
    destruct (find_char c s) as [j|]; simpl; [|discriminate].
    intros H. injection H as <-.
    destruct (IH j eq_refl) as (pre & rest & -> & Hpre & Hlen).
    exists (d :: pre), rest. simpl. repeat split; [|congruence].
    intros [Heq|Hin]; [congruence|tauto].
Qed.

Lemma rfind_char_app (c : ascii) (a b : text) :
  rfind_char c (a ++ b)
  = match rfind_char c b with
    | Some k => Some (List.length a + k)
    | None => rfind_char c a
    end.
Proof.
  induction a as [|d a IH]; simpl.
  - destruct (rfind_char c b); reflexivity.
  - rewrite IH. destruct (rfind_char c b); [reflexivity|].
    reflexivity.
Qed.

Lemma rfind_char_last (c : ascii) (a suf : text) :
  ~ In c suf -> rfind_char c (a ++ c :: suf) = Some (List.length a).
Proof.
  intros H. rewrite rfind_char_app. simpl.
  rewrite (proj2 (rfind_char_none c suf) H), Ascii.eqb_refl.
  f_equal. lia.
Qed.

Lemma rfind_char_split (c : ascii) (s : text) (i : nat) :
  rfind_char c s = Some i ->
  exists a suf, s = a ++ c :: suf /\ ~ In c suf /\ List.length a = i.
Proof.
  revert i. induction s as [|d s IH]; simpl; intros i; [discriminate|].
  destruct (rfind_char c s) as [j|] eqn:Hr.
  - intros H. injection H as <-.
    destruct (IH j eq_refl) as (a & suf & -> & Hsuf & Hlen).
    exists (d :: a), suf. simpl. repeat split; [exact Hsuf|congruence].
  - destruct (Ascii.eqb c d) eqn:Hcd; [|discriminate].
    apply Ascii.eqb_eq in Hcd. subst d. intros H. injection H as <-.
    exists [], s. simpl. repeat split. now apply rfind_char_none.
Qed.

Lemma strip_chars_id (f : ascii -> bool) (s : text) :
  match s with c :: _ => f c = false | [] => True end ->
  match rev s with c :: _ => f c = false | [] => True end ->
  strip_chars f s = s.
Proof.
  intros Hh Hl. unfold strip_chars.
  rewrite (drop_while_id f s Hh), (drop_while_id f (rev s) Hl).
  apply rev_involutive.
Qed.

(** A text between braces is left as it is by the final [strip]. *)
Lemma strip_braced (body : text) :
  strip_chars json_strip_char ("{" :: body ++ ["}"]) = "{" :: body ++ ["}"].
Proof.
  apply strip_chars_id; [reflexivity|].
  change ("{" :: body ++ ["}"]) with (("{" :: body) ++ ["}"]).
  rewrite rev_app_distr. reflexivity.
Qed.

Lemma slice_middle (pre mid suf : text) :
  slice (List.length pre) (List.length pre + List.length mid) (pre ++ mid ++ suf) = mid.
Proof.
  unfold slice. rewrite firstn_app, firstn_all2 by lia.
  replace (List.length pre + List.length mid - List.length pre)
    with (List.length mid) by lia.
  rewrite firstn_app, firstn_all, Nat.sub_diag. simpl. rewrite app_nil_r.
  rewrite skipn_app, skipn_all, Nat.sub_diag. reflexivity.
Qed.

(** X1: [clean_json] raises exactly when the text has no opening brace
    (first message) or has one but no closing brace (second message);
    otherwise it returns. *)
Theorem clean_json_raises_iff (txt : text) :
  (clean_json txt = Raise (ValueError (T "No JSON object found")) <-> ~ In "{" txt)
  /\ (clean_json txt = Raise (ValueError (T "No closing '}' found"))
      <-> In "{" txt /\ ~ In "}" txt)
  /\ ((exists s, clean_json txt = Ok s) <-> In "{" txt /\ In "}" txt).
Proof.
  unfold clean_json.
  assert (Hf : find_char "{" txt = None <-> ~ In "{" txt) by apply find_char_none.
  assert (Hr : rfind_char "}" txt = None <-> ~ In "}" txt) by apply rfind_char_none.
  assert (Hf' : find_char "{" txt <> None -> In "{" txt).
  { intros Hne. destruct (in_dec ascii_dec "{" txt) as [Hin|Hnot]; [exact Hin|].
    apply Hf in Hnot. contradiction. }
  assert (Hr' : rfind_char "}" txt <> None -> In "}" txt).
  { intros Hne. destruct (in_dec ascii_dec "}" txt) as [Hin|Hnot]; [exact Hin|].
    apply Hr in Hnot. contradiction. }
  destruct (find_char "{" txt) as [i|]; destruct (rfind_char "}" txt) as [j|].
  - assert (In "{" txt) by (apply Hf'; discriminate).
    assert (In "}" txt) by (apply Hr'; discriminate).
    split; [split; [discriminate|tauto]|].
    split; [split; [discriminate|tauto]|].
    split; [tauto|eauto].
  - assert (In "{" txt) by (apply Hf'; discriminate).
    assert (~ In "}" txt) by now apply Hr.
    split; [split; [discriminate|tauto]|].
    split; [tauto|].
    split; [intros [s Hs]; discriminate|tauto].
  - assert (~ In "{" txt) by now apply Hf.
    split; [tauto|].
    split; [split; [discriminate|tauto]|].
    split; [intros [s Hs]; discriminate|tauto].
  - assert (~ In "{" txt) by now apply Hf.
    split; [tauto|].
    split; [split; [discriminate|tauto]|].
    split; [intros [s Hs]; discriminate|tauto].
Qed.

Lemma clean_json_braced (pre body suf : text) :
  ~ In "{" pre ->
  ~ In "}" suf ->
  clean_json (pre ++ ("{" :: body ++ ["}"]) ++ suf) = Ok ("{" :: body ++ ["}"]).
Proof.
  intros Hpre Hsuf. unfold clean_json.
  change (pre ++ ("{" :: body ++ ["}"]) ++ suf)
    with (pre ++ "{" :: ((body ++ ["}"]) ++ suf)) at 1.
  rewrite (find_char_app "{" pre _ Hpre).
  replace (pre ++ ("{" :: body ++ ["}"]) ++ suf)
    with ((pre ++ "{" :: body) ++ "}" :: suf)
    by (rewrite <- !app_assoc; simpl; now rewrite <- app_assoc).
  rewrite (rfind_char_last "}" (pre ++ "{" :: body) suf Hsuf).
  replace ((pre ++ "{" :: body) ++ "}" :: suf)
    with (pre ++ ("{" :: body ++ ["}"]) ++ suf)
    by (rewrite <- !app_assoc; simpl; now rewrite <- app_assoc).
  replace (List.length (pre ++ "{" :: body) + 1)
    with (List.length pre + List.length ("{" :: body ++ ["}"]))
    by (rewrite !length_app; simpl; rewrite length_app; simpl; lia).
  rewrite slice_middle. now rewrite strip_braced.
Qed.


(** X2: when the text is some prefix without an opening brace, then a
    text between braces, then a suffix without a closing brace,
    [clean_json] returns exactly the text between the braces, braces
    included, whatever surrounds it. *)
Theorem clean_json_extracts_object (pre body suf : text) :
  ~ In "{" pre ->
  ~ In "}" suf ->
  clean_json (pre ++ ("{" :: body ++ ["}"]) ++ suf) = Ok ("{" :: body ++ ["}"])
  /\ clean_json (pre ++ ("{" :: body ++ ["}"]) ++ suf)
     = clean_json ("{" :: body ++ ["}"]).
Proof.
  intros Hpre Hsuf.
  pose proof (clean_json_braced pre body suf Hpre Hsuf) as Hfull.
  pose proof (clean_json_braced [] body [] (fun H => H) (fun H => H)) as Hself.
  rewrite app_nil_r in Hself. simpl app in Hself.
  split; [exact Hfull|congruence].
Qed.

Lemma clean_json_extracts_object_witness :
  clean_json (T "Sure, here it is: " ++ ("{" :: T "x: [1, 2]" ++ ["}"]) ++ T " hope it helps")
  = Ok ("{" :: T "x: [1, 2]" ++ ["}"]).
Proof.
  apply (proj1 (clean_json_extracts_object (T "Sure, here it is: ") (T "x: [1, 2]")
                  (T " hope it helps")
                  ltac:(vm_compute; intuition discriminate)
                  ltac:(vm_compute; intuition discriminate))).
Defined.

(** X3: what [clean_json] returns is either empty (the last closing
    brace comes before the first opening brace) or a text that begins
    with an opening brace and ends with a closing brace, on which
    [clean_json] changes nothing. *)
Theorem clean_json_result_shape (txt s : text) :
  clean_json txt = Ok s ->
  s = [] \/ (exists body, s = "{" :: body ++ ["}"]) /\ clean_json s = Ok s.
Proof.
  unfold clean_json.
  destruct (find_char "{" txt) as [i|] eqn:Hf; [|discriminate].
  destruct (rfind_char "}" txt) as [j|] eqn:Hr; [|discriminate].
  intros H. injection H as <-.
  destruct (find_char_split "{" txt i Hf) as (pre & r & -> & Hpre & Hlen).
  change (pre ++ "{" :: r) with (pre ++ ["{"] ++ r) in Hr.
  rewrite app_assoc, rfind_char_app in Hr.
  destruct (rfind_char "}" r) as [k|] eqn:Hk.
  - right.
    destruct (rfind_char_split "}" r k Hk) as (body & suf & -> & Hsuf & _).
    assert (Heq : clean_json (pre ++ ("{" :: body ++ ["}"]) ++ suf)
                  = Ok ("{" :: body ++ ["}"]))
      by now apply clean_json_braced.
    assert (Hself : clean_json ([] ++ ("{" :: body ++ ["}"]) ++ [])
                    = Ok ("{" :: body ++ ["}"]))
      by (apply clean_json_braced; simpl; tauto).
    rewrite app_nil_r in Hself. simpl app in Hself.
    unfold clean_json in Heq.
    replace (pre ++ ("{" :: body ++ ["}"]) ++ suf)
      with (pre ++ "{" :: body ++ "}" :: suf) in Heq
      by (simpl; now rewrite <- app_assoc).
    rewrite Hf in Heq.
    change (pre ++ "{" :: body ++ "}" :: suf)
      with (pre ++ ["{"] ++ body ++ "}" :: suf) in Heq.
    rewrite app_assoc, rfind_char_app, Hk in Heq.
    injection Heq as Heq.
    injection Hr as <-.
    change (pre ++ "{" :: body ++ "}" :: suf)
      with (pre ++ ["{"] ++ body ++ "}" :: suf).
    rewrite app_assoc, Heq.
    split; [eauto|exact Hself].
  - left. rewrite rfind_char_app in Hr. simpl in Hr.
    destruct (rfind_char_split "}" pre j Hr) as (a & suf & Hp & _ & Hj).
    unfold slice. rewrite skipn_all2; [reflexivity|].
    rewrite length_firstn. subst pre. rewrite length_app in Hlen. simpl in Hlen. lia.
Qed.

Lemma clean_json_result_shape_witness :
  @nil ascii = [] \/ (exists body, [] = "{" :: body ++ ["}"]) /\ clean_json [] = Ok [].
Proof. apply (clean_json_result_shape (T "} then {") []). reflexivity. Defined.

Lemma skipn_prefix (pre rest : text) : skipn (List.length pre) (pre ++ rest) = rest.
Proof. now rewrite skipn_app, skipn_all, Nat.sub_diag. Qed.

(** X4: [clean_json_prefix] raises only when the text has no opening
    brace; without a closing brace it returns the empty string, where
    [clean_json] raises. *)
Theorem clean_json_prefix_without_closing_brace (txt : text) :
  ((exists e, clean_json_prefix txt = Raise e) <-> ~ In "{" txt)
  /\ (In "{" txt -> ~ In "}" txt ->
      clean_json_prefix txt = Ok []
      /\ clean_json txt = Raise (ValueError (T "No closing '}' found"))).
Proof.
  unfold clean_json_prefix, clean_json.
  pose proof (find_char_none "{" txt) as Hf.
  destruct (find_char "{" txt) as [i|] eqn:Hfind.
  - split.
    + split; [intros [e He]; discriminate|].
      intros Hnot. apply Hf in Hnot. discriminate.
    + intros _ Hno. rewrite (proj2 (rfind_char_none "}" txt) Hno).
      split; reflexivity.
  - split.
    + split; [intros _; now apply Hf|eauto].
    + intros Hin. exfalso. now apply (proj1 Hf).
Qed.

Lemma clean_json_prefix_without_closing_brace_witness :
  clean_json_prefix (T "the critic says {oops") = Ok []
  /\ clean_json (T "the critic says {oops")
     = Raise (ValueError (T "No closing '}' found")).
Proof.
  apply (proj2 (clean_json_prefix_without_closing_brace (T "the critic says {oops"))).
  - vm_compute. tauto.
  - vm_compute. intuition discriminate.
Defined.

(** X5: on a prefix without an opening brace, a text between braces and
    a suffix without a closing brace, [clean_json_prefix] cuts the
    trimmed text at the index of the closing brace in the untrimmed
    text: it keeps, after the closing brace, as many characters of the
    suffix as the prefix is long.  With an empty prefix it returns what
    [clean_json] returns. *)
Theorem clean_json_prefix_keeps_suffix (pre body suf : text) :
  ~ In "{" pre ->
  ~ In "}" suf ->
  clean_json_prefix (pre ++ ("{" :: body ++ ["}"]) ++ suf)
  = Ok (strip_chars json_strip_char
          (("{" :: body ++ ["}"]) ++ firstn (List.length pre) suf))
  /\ (pre = [] ->
      clean_json_prefix (pre ++ ("{" :: body ++ ["}"]) ++ suf)
      = clean_json (pre ++ ("{" :: body ++ ["}"]) ++ suf)).
Proof.
  intros Hpre Hsuf.
  assert (Hmain : clean_json_prefix (pre ++ ("{" :: body ++ ["}"]) ++ suf)
                  = Ok (strip_chars json_strip_char
                          (("{" :: body ++ ["}"]) ++ firstn (List.length pre) suf))).
  { assert (Hfind : find_char "{" (pre ++ ("{" :: body ++ ["}"]) ++ suf)
                    = Some (List.length pre))
      by (simpl; now apply find_char_app).
    assert (Hrfind : rfind_char "}" (pre ++ ("{" :: body ++ ["}"]) ++ suf)
                     = Some (List.length pre + List.length body + 1)).
    { replace (pre ++ ("{" :: body ++ ["}"]) ++ suf)
        with ((pre ++ "{" :: body) ++ "}" :: suf)
        by (rewrite <- !app_assoc; simpl; now rewrite <- app_assoc).
      rewrite (rfind_char_last "}" (pre ++ "{" :: body) suf Hsuf).
      rewrite length_app. simpl. f_equal. lia. }
    unfold clean_json_prefix. rewrite Hfind, Hrfind, skipn_prefix.
    unfold remove_leading_fence, remove_leading_quotes. simpl drop_while.
    cbn [starts_with T list_ascii_of_string app Ascii.eqb Bool.eqb andb].
    replace (List.length pre + List.length body + 1 + 1)
      with (List.length ("{" :: body ++ ["}"]) + List.length pre)
      by (simpl; rewrite length_app; simpl; lia).
    change ("{" :: (body ++ ["}"]) ++ suf) with (("{" :: body ++ ["}"]) ++ suf).
    now rewrite firstn_app_2. }
  split; [exact Hmain|].
  intros ->. rewrite Hmain. simpl firstn. rewrite app_nil_r.
  rewrite (clean_json_braced [] body suf Hpre Hsuf).
  now rewrite strip_braced.
Qed.

Lemma clean_json_prefix_keeps_suffix_witness :
  clean_json_prefix (T "Fix: " ++ ("{" :: T "a" ++ ["}"]) ++ T " and more text")
  = Ok (T "{a} and").
Proof.
  rewrite (proj1 (clean_json_prefix_keeps_suffix (T "Fix: ") (T "a") (T " and more text")
                    ltac:(vm_compute; intuition discriminate)
                    ltac:(vm_compute; intuition discriminate))).
  reflexivity.
Defined.

(* ================================================================= *)
(** ** SQL normalizer ([postprocess_sql]) *)

Lemma forallb_not_backtick (s : text) :
  forallb not_backtick s = true -> ~ In "`" s.
Proof.
  intros H Hin. rewrite forallb_forall in H. specialize (H _ Hin). discriminate.
Qed.

(** X6: on every output of the normalizer each of its formatting steps
    is already done: the text is lower-case, has no backtick, has no
    leading or trailing whitespace, no run of whitespace other than a
    single space, and no whitespace before a comma. *)
Theorem postprocess_sql_output_is_formatted (x : text) :
  lower (postprocess_sql x) = postprocess_sql x
  /\ ~ In "`" (postprocess_sql x)
  /\ remove_fences (postprocess_sql x) = postprocess_sql x
  /\ strip (postprocess_sql x) = postprocess_sql x
  /\ collapse_ws (postprocess_sql x) = postprocess_sql x
  /\ remove_space_before_comma (postprocess_sql x) = postprocess_sql x.
Proof.
  destruct (postprocess_sql_tidy x) as (Hl & Hb & Hp & Ha & Hh & Hlast).
  split; [now apply lower_id|].
  split; [now apply forallb_not_backtick|].
  split; [now apply remove_fences_id|].
  split; [now apply strip_id|].
  split; [|now apply remove_space_before_comma_id].
  unfold collapse_ws. apply collapse_from_id; [exact Hp| |discriminate].
  exact (adj_weaken no_ws_before no_ws_pair _ no_ws_before_pair Ha).
Qed.

Lemma in_drop_while (f : ascii -> bool) (c : ascii) (s : text) :
  In c (drop_while f s) -> In c s.
Proof.
  destruct (drop_while_split f s) as (pre & Hs & _). intros H.
  rewrite Hs. apply in_or_app. now right.
Qed.

Lemma in_strip (c : ascii) (s : text) : In c (strip s) -> In c s.
Proof.
  destruct (strip_chars_split is_space s) as (pre & suf & Hs & _). intros H.
  rewrite Hs. apply in_or_app. right. apply in_or_app. now left.
Qed.

Lemma in_cut_to_statement (c : ascii) (s : text) :
  In c (cut_to_statement s) -> In c s.
Proof.
  unfold cut_to_statement.
  destruct (search_start false s) as [suffix|] eqn:Hs; [|tauto].
  destruct (search_start_suffix s false suffix Hs) as (pre & -> & _).
  intros H. apply in_or_app. now right.
Qed.

Lemma from_input_lowered (x s : text) :
  (forall c, In c s -> In c x) -> forallb (from_input x) (lower s) = true.
Proof.
  intros Hsub. apply forallb_forall. intros c Hc.
  unfold lower in Hc. apply in_map_iff in Hc as (d & <- & Hd).
  unfold from_input. apply orb_true_iff. right.
  apply existsb_exists. exists (lower_char d). split; [|apply Ascii.eqb_refl].
  unfold lower. apply in_map. now apply Hsub.
Qed.

(** X7: on an ASCII text the normalizer only deletes, lower-cases, and
    turns whitespace into spaces: its output is never longer than its
    input, and every character of the output is a space or the
    lower-case form of a character of the input.  (Outside ASCII
    [str.lower] may lengthen a text.) *)
Theorem postprocess_sql_only_removes (x : text) :
  ascii_text x = true ->
  List.length (postprocess_sql x) <= List.length x
  /\ forall c, In c (postprocess_sql x) -> c = " " \/ In c (lower x).
Proof.
  intros _. split.
  - pose proof (postprocess_sql_length x).
    pose proof (proj1 (cut_to_statement_length x)). lia.
  - assert (H : forallb (from_input x) (postprocess_sql x) = true).
    { unfold postprocess_sql.
      apply strip_terminator_forallb, remove_space_before_comma_forallb,
        strip_forallb, collapse_from_forallb; [reflexivity|].
      apply remove_backticks_forallb, remove_fences_forallb,
        remove_label_forallb, remove_fences_forallb.
      apply from_input_lowered.
      intros c Hc. now apply in_cut_to_statement, in_strip. }
    intros c Hc. rewrite forallb_forall in H. specialize (H c Hc).
    unfold from_input in H. apply orb_true_iff in H as [H|H].
    + left. now apply Ascii.eqb_eq in H.
    + right. apply existsb_exists in H as (d & Hd & Heq).
      apply Ascii.eqb_eq in Heq. now subst d.
Qed.

Lemma postprocess_sql_only_removes_witness :
  List.length (postprocess_sql (T "Answer:  SELECT Name , Age FROM `singer` ;"))
  <= List.length (T "Answer:  SELECT Name , Age FROM `singer` ;")
  /\ forall c,
      In c (postprocess_sql (T "Answer:  SELECT Name , Age FROM `singer` ;")) ->
      c = " " \/ In c (lower (T "Answer:  SELECT Name , Age FROM `singer` ;")).
Proof.
  apply (postprocess_sql_only_removes
           (T "Answer:  SELECT Name , Age FROM `singer` ;")).
  reflexivity.
Defined.

Lemma postprocess_sql_converges_from (m : nat) :
  forall z, List.length (postprocess_sql z) <= m ->
  exists j, j <= m
    /\ postprocess_sql (Nat.iter j postprocess_sql (postprocess_sql z))
       = Nat.iter j postprocess_sql (postprocess_sql z).
Proof.
  induction m as [|m IH]; intros z Hlen.
  - exists 0. split; [lia|]. simpl.
    destruct (postprocess_sql z); [reflexivity|simpl in Hlen; lia].
  - destruct (list_eq_dec ascii_dec (postprocess_sql (postprocess_sql z))
                          (postprocess_sql z)) as [Heq|Hne].
    + exists 0. split; [lia|exact Heq].
    + assert (Hlt : List.length (postprocess_sql (postprocess_sql z))
                    < List.length (postprocess_sql z)).
      { apply postprocess_sql_shrinks_unsettled; [apply postprocess_sql_tidy|].
        destruct (statement_at_start (postprocess_sql z)) eqn:Hs; [|now left].
        destruct (starts_with (T "sql") (postprocess_sql z)) eqn:Hl; [now right; left|].
        destruct (ends_with_char ";" (postprocess_sql z)) eqn:He; [now right; right|].
        exfalso. apply Hne. now apply postprocess_sql_fixed_point_iff. }
      destruct (IH (postprocess_sql z)) as (j & Hj & Hfix); [lia|].
      exists (S j). split; [lia|]. now rewrite !Nat.iter_succ_r.
Qed.

(** X8: a second pass of [postprocess_sql] leaves the text unchanged
    exactly when the first output does not end with a semicolon, does
    not start with the label [sql] and has its first statement keyword,
    if any, at its start; otherwise the second pass makes the text
    strictly shorter.  Hence repeated normalization reaches a text that
    no further pass changes, after at most as many passes as the text
    is long, plus one. *)
Theorem postprocess_sql_second_pass (x : text) :
  (postprocess_sql (postprocess_sql x) = postprocess_sql x
   <-> ends_with_char ";" (postprocess_sql x) = false
       /\ starts_with (T "sql") (postprocess_sql x) = false
       /\ statement_at_start (postprocess_sql x) = true)
  /\ (postprocess_sql (postprocess_sql x) <> postprocess_sql x ->
      List.length (postprocess_sql (postprocess_sql x))
      < List.length (postprocess_sql x))
  /\ exists n, n <= List.length x
       /\ postprocess_sql (Nat.iter (S n) postprocess_sql x)
          = Nat.iter (S n) postprocess_sql x.
Proof.
  split; [apply postprocess_sql_fixed_point_iff|]. split.
  - intros Hne. apply postprocess_sql_shrinks_unsettled; [apply postprocess_sql_tidy|].
    destruct (statement_at_start (postprocess_sql x)) eqn:Hs; [|now left].
    destruct (starts_with (T "sql") (postprocess_sql x)) eqn:Hl; [now right; left|].
    destruct (ends_with_char ";" (postprocess_sql x)) eqn:He; [now right; right|].
    exfalso. apply Hne. now apply postprocess_sql_fixed_point_iff.
  - destruct (postprocess_sql_converges_from (List.length (postprocess_sql x)) x
                (le_n _)) as (j & Hj & Hfix).
    exists j. split.
    + pose proof (postprocess_sql_length x).
      pose proof (proj1 (cut_to_statement_length x)). lia.
    + rewrite Nat.iter_succ_r. exact Hfix.
Qed.

Lemma lower_char_not_space (c : ascii) : is_space (lower_char c) = is_space c.
Proof. destruct c as [[] [] [] [] [] [] [] []]; reflexivity. Qed.

(** The suffix found by the search begins with the keyword. *)
Lemma search_start_keyword (s : text) :
  forall b suffix, search_start b s = Some suffix -> keyword_here suffix = true.
Proof.
  induction s as [|c s IH]; intros b suffix; simpl; [discriminate|].
  destruct (negb b && keyword_here (c :: s)) eqn:Hk.
  - intros H. injection H as <-. now apply andb_true_iff in Hk as [_ Hk].
  - apply IH.
Qed.

Lemma starts_with_full (p s : text) :
  starts_with p s = true -> List.length s <= List.length p -> s = p.
Proof.
  revert s. induction p as [|x p IH]; intros [|y s]; simpl; intros H Hlen;
    try reflexivity; try discriminate; try lia.
  apply andb_true_iff in H as [Hxy Hrest]. apply Ascii.eqb_eq in Hxy. subst y.
  f_equal. apply IH; [exact Hrest|lia].
Qed.

(** A text that begins with non-blank characters keeps them when it is
    stripped. *)
Lemma prefix_of_split (k r s suf : text) :
  k ++ r = s ++ suf ->
  forallb (fun c => negb (is_space c)) k = true ->
  Forall (fun c => is_space c = true) suf ->
  exists r', s = k ++ r'.
Proof.
  revert s. induction k as [|c k IH]; intros s Heq Hk Hsuf; [now exists s|].
  simpl in Hk. apply andb_true_iff in Hk as [Hc Hk].
  destruct s as [|d s].
  - simpl in Heq. subst suf. inversion Hsuf as [|? ? Hsp _]; subst.
    rewrite Hsp in Hc. discriminate.
  - simpl in Heq. injection Heq as <- Heq.
    destruct (IH s Heq Hk Hsuf) as (r' & ->). now exists r'.
Qed.

Lemma strip_keeps_prefix (k r : text) :
  k <> [] ->
  forallb (fun c => negb (is_space c)) k = true ->
  exists r', strip (k ++ r) = k ++ r'.
Proof.
  intros Hne Hk.
  destruct (strip_chars_split is_space (k ++ r)) as (pre & suf & Hs & Hpre & Hsuf).
  destruct pre as [|p pre].
  - simpl in Hs. exact (prefix_of_split k r _ suf Hs Hk Hsuf).
  - destruct k as [|c k]; [contradiction|].
    simpl in Hs, Hk. injection Hs as <- _.
    inversion Hpre as [|? ? Hsp _]; subst.
    apply andb_true_iff in Hk as [Hc _]. rewrite Hsp in Hc. discriminate.
Qed.

Lemma starts_with_app (k r : text) : starts_with k (k ++ r) = true.
Proof.
  induction k as [|c k IH]; simpl; [reflexivity|].
  now rewrite Ascii.eqb_refl.
Qed.

Lemma starts_with_split (k s : text) :
  starts_with k s = true -> exists r, s = k ++ r.
Proof.
  revert s. induction k as [|c k IH]; intros s; simpl; [now exists s|].
  destruct s as [|d s]; [discriminate|].
  intros H. apply andb_true_iff in H as [Hcd Hr]. apply Ascii.eqb_eq in Hcd. subst d.
  destruct (IH s Hr) as (r & ->). now exists r.
Qed.

(** The steps after the lower-casing keep a leading keyword. *)
Lemma keyword_kept_by_steps (k r : text) :
  k = T "select" \/ k = T "insert" ->
  exists r',
    strip_terminator
      (remove_space_before_comma
         (strip (collapse_ws
                   (remove_backticks
                      (remove_fences (remove_label (remove_fences (k ++ r))))))))
    = k ++ r'.
Proof.
  intros Hk.
  assert (Hns : forallb (fun c => negb (is_space c)) k = true)
    by (destruct Hk as [->| ->]; reflexivity).
  assert (Hne : k <> []) by (destruct Hk as [->| ->]; discriminate).
  assert (H1 : remove_fences (k ++ r) = k ++ remove_fences r)
    by (destruct Hk as [->| ->]; reflexivity).
  assert (H2 : forall t, remove_label (k ++ t) = k ++ t)
    by (intros t; destruct Hk as [->| ->]; reflexivity).
  assert (H3 : forall t, remove_fences (k ++ t) = k ++ remove_fences t)
    by (intros t; destruct Hk as [->| ->]; reflexivity).
  assert (H4 : forall t, remove_backticks (k ++ t) = k ++ remove_backticks t)
    by (intros t; destruct Hk as [->| ->]; reflexivity).
  assert (H5 : forall t, collapse_ws (k ++ t) = k ++ collapse_from false t)
    by (intros t; destruct Hk as [->| ->]; reflexivity).
  assert (H6 : forall t, remove_space_before_comma (k ++ t)
                         = k ++ remove_space_before_comma t)
    by (intros t; destruct Hk as [->| ->]; reflexivity).
  rewrite H1, H2, H3, H4, H5.
  destruct (strip_keeps_prefix k (collapse_from false
                                    (remove_backticks (remove_fences (remove_fences r))))
                               Hne Hns) as (r1 & ->).
  rewrite H6. unfold strip_terminator.
  destruct (ends_with_char ";" (k ++ remove_space_before_comma r1)) eqn:He;
    [|eauto].
  assert (Hr : remove_space_before_comma r1 <> []).
  { intros Hnil. rewrite Hnil, app_nil_r in He.
    destruct Hk as [->| ->]; discriminate. }
  unfold drop_last. rewrite (removelast_app k Hr).
  apply strip_keeps_prefix; assumption.
Qed.

(** X9: when an ASCII raw text contains a statement keyword ([select]
    or [insert] as a word, in any case), the normalized text begins
    with that keyword in lower case: everything before the first
    keyword is discarded.  (Outside ASCII the search of the code also
    matches letters that fold to an ASCII letter.) *)
Theorem postprocess_sql_starts_with_keyword (x suffix : text) :
  ascii_text x = true ->
  search_start false x = Some suffix ->
  keyword_first (postprocess_sql x) = true.
Proof.
  intros _ Hs.
  pose proof (search_start_keyword x false suffix Hs) as Hk.
  unfold keyword_here in Hk. apply andb_true_iff in Hk as [Hk _].
  assert (Hsix : lower (firstn 6 suffix) = T "select"
                 \/ lower (firstn 6 suffix) = T "insert").
  { assert (Hle : List.length (lower (firstn 6 suffix)) <= 6)
      by (unfold lower; rewrite length_map, length_firstn; apply Nat.le_min_l).
    apply orb_true_iff in Hk as [Hk|Hk]; [left|right];
      (apply starts_with_full; [exact Hk|exact Hle]). }
  assert (Hns : forallb (fun c => negb (is_space c)) (firstn 6 suffix) = true).
  { apply forallb_forall. intros c Hc.
    rewrite <- lower_char_not_space.
    assert (Hin : In (lower_char c) (lower (firstn 6 suffix)))
      by (unfold lower; now apply in_map).
    destruct Hsix as [Heq|Heq]; rewrite Heq in Hin;
      simpl in Hin; intuition (subst; try reflexivity);
      match goal with H : _ = lower_char c |- _ => rewrite <- H; reflexivity end. }
  assert (Hne : firstn 6 suffix <> []).
  { intros Hnil. rewrite Hnil in Hsix. destruct Hsix; discriminate. }
  unfold postprocess_sql, cut_to_statement. rewrite Hs.
  rewrite <- (firstn_skipn 6 suffix).
  destruct (strip_keeps_prefix (firstn 6 suffix) (skipn 6 suffix) Hne Hns) as (r & ->).
  unfold lower at 1. rewrite map_app. fold (lower (firstn 6 suffix)). fold (lower r).
  destruct (keyword_kept_by_steps (lower (firstn 6 suffix)) (lower r) Hsix) as (r' & ->).
  unfold keyword_first.
  destruct Hsix as [-> | ->]; rewrite starts_with_app; [reflexivity|apply orb_true_r].
Qed.

Lemma postprocess_sql_starts_with_keyword_witness :
  keyword_first (postprocess_sql (T "Here is the query you asked for:
```sql
Select name from singer;
```")) = true.
Proof.
  apply (postprocess_sql_starts_with_keyword _ (T "Select name from singer;
```")); reflexivity.
Defined.

(* ================================================================= *)
(** ** Result comparator ([normalize_rows], [exec_query],
       [query_execution], [load_schema]) *)

Section SortedFacts.
Context {A : Type}.
Variable leb : A -> A -> bool.
Hypothesis leb_total : forall x y, leb x y = true \/ leb y x = true.

Lemma insert_sorted_hd (x a : A) (l : list A) :
  leb a x = true ->
  HdRel (fun u v => leb u v = true) a l ->
  HdRel (fun u v => leb u v = true) a (insert_sorted leb x l).
Proof.
  intros Hax Hl. destruct l as [|y l]; simpl; [now constructor|].
  inversion Hl; subst. destruct (leb x y); now constructor.
Qed.

Lemma insert_sorted_sorted (x : A) (l : list A) :
  Sorted (fun u v => leb u v = true) l ->
  Sorted (fun u v => leb u v = true) (insert_sorted leb x l).
Proof.
  induction 1 as [|y l Hs IH Hhd]; simpl.
  - repeat constructor.
  - destruct (leb x y) eqn:Hxy.
    + constructor; [now constructor|now constructor].
    + constructor; [exact IH|].
      apply insert_sorted_hd; [|exact Hhd].
      destruct (leb_total x y); congruence.
Qed.

Lemma sorted_sorted (l : list A) : Sorted (fun u v => leb u v = true) (sorted leb l).
Proof.
  unfold sorted. induction l as [|x l IH]; simpl; [constructor|].
  now apply insert_sorted_sorted.
Qed.
End SortedFacts.

(** X10: the canonical form produced by [normalize_rows] is in ascending
    order: its rows are sorted (as tuples of strings), and the cells of
    every row are sorted (as strings). *)
Theorem normalize_rows_ascending (rows : list row) :
  Sorted (fun a b => tuple_leb a b = true) (normalize_rows rows)
  /\ Forall (fun r => Sorted (fun a b => text_leb a b = true) r)
            (normalize_rows rows).
Proof.
  split.
  - apply sorted_sorted. intros x y. apply lex_leb_total, text_leb_total.
  - unfold normalize_rows.
    eapply Permutation_Forall; [apply sorted_is_permutation|].
    apply Forall_forall. intros r Hr.
    apply in_map_iff in Hr as (r0 & <- & _).
    apply sorted_sorted, text_leb_total.
Qed.

Lemma exec_query_outcome (E : Env) (db_file sql : text) :
  (exists rows, exec_query E db_file sql = (Some rows, None))
  \/ (exists msg, exec_query E db_file sql = (None, Some msg)).
Proof.
  unfold exec_query. destruct (path_exists E db_file); simpl; [|eauto].
  destruct (sqlite_execute E db_file sql); eauto.
Qed.

Lemma rows_eqb_refl (a : list (list text)) : rows_eqb a a = true.
Proof. now apply rows_eqb_eq. Qed.

Lemma rows_eqb_sym (a b : list (list text)) : rows_eqb a b = rows_eqb b a.
Proof.
  destruct (rows_eqb a b) eqn:Hab, (rows_eqb b a) eqn:Hba; try reflexivity.
  - apply rows_eqb_eq in Hab. subst b. now rewrite rows_eqb_refl in Hba.
  - apply rows_eqb_eq in Hba. subst b. now rewrite rows_eqb_refl in Hab.
Qed.

(** X11: the verdict of [query_execution] is the comparison of the
    outcomes of its two executions, the reference first.  That
    comparison is a partial equivalence on outcomes, whatever the
    engine returned: it is symmetric (the verdict is the same when
    candidate and reference trade places), transitive, and an outcome
    matches itself exactly when it carries no error; the error
    returned is always the candidate's, never the reference's.  (With
    an engine that answers the same way every time, this makes
    execution-match a partial equivalence on the statements of a
    database.) *)
Theorem execution_match_is_partial_equivalence (E : Env) (item : sample) (sql : text)
        (a b c : option (list row) * option text) :
  query_execution E item sql
  = compare_outcomes
      (exec_query E (db_path (db_id item)) (postprocess_sql (query item)))
      (exec_query E (db_path (db_id item)) (postprocess_sql sql))
  /\ fst (compare_outcomes a b) = fst (compare_outcomes b a)
  /\ (fst (compare_outcomes a b) = true ->
      fst (compare_outcomes b c) = true ->
      fst (compare_outcomes a c) = true)
  /\ (is_outcome a -> (fst (compare_outcomes a a) = true <-> snd a = None))
  /\ snd (compare_outcomes a b) = snd b.
Proof.
  split.
  { unfold query_execution, compare_outcomes.
    destruct (exec_query E (db_path (db_id item)) (postprocess_sql (query item)))
      as [gold_rows gold_err].
    destruct (exec_query E (db_path (db_id item)) (postprocess_sql sql))
      as [gen_rows gen_err].
    reflexivity. }
  split; [|split; [|split]].
  - destruct a as [[ra|] [ea|]], b as [[rb|] [eb|]]; simpl; try reflexivity.
    apply rows_eqb_sym.
  - destruct a as [[ra|] [ea|]], b as [[rb|] [eb|]], c as [[rc|] [ec|]]; simpl;
      try discriminate.
    intros H1 H2. apply rows_eqb_eq in H1, H2. apply rows_eqb_eq. congruence.
  - intros Ha. destruct a as [[ra|] [ea|]]; simpl in *; try contradiction.
    + split; [reflexivity|intros _; apply rows_eqb_refl].
    + split; discriminate.
  - destruct a as [[ra|] [ea|]], b as [[rb|] [eb|]]; reflexivity.
Qed.

Lemma execution_match_is_partial_equivalence_witness :
  fst (compare_outcomes (Some [[CInt 6]], None) (Some [[CInt 6]], None)) = true
  <-> snd (Some [[CInt 6]], @None text) = None.
Proof.
  apply (proj1 (proj2 (proj2 (proj2
           (execution_match_is_partial_equivalence singer_env singer_sample []
              (Some [[CInt 6]], None) (Some [[CInt 6]], None)
              (Some [[CInt 6]], None)))))).
  exact I.
Defined.

(** X12: [load_schema] and [exec_query] test the same file: when the
    database file of a sample does not exist the schema is empty (so
    the run skips the sample) and every comparison reports the
    missing file; when the schema is not empty the file exists and
    [exec_query] is the SQL engine's answer. *)
Theorem missing_database_file (E : Env) (item : sample) :
  (path_exists E (db_path (db_id item)) = false ->
   load_schema E (db_id item) = Ok []
   /\ forall sql,
       query_execution E item sql
       = (false, Some (T "Database file does not exist: " ++ db_path (db_id item))))
  /\ (forall schema,
         load_schema E (db_id item) = Ok schema ->
         is_empty schema = false ->
         path_exists E (db_path (db_id item)) = true
         /\ forall sql,
             exec_query E (db_path (db_id item)) sql
             = match sqlite_execute E (db_path (db_id item)) sql with
               | inl rows => (Some rows, None)
               | inr msg => (None, Some msg)
               end).
Proof.
  unfold load_schema, query_execution, exec_query. split.
  - intros ->. simpl. split; reflexivity.
  - intros schema.
    destruct (path_exists E (db_path (db_id item))); simpl.
    + intros _ _. split; reflexivity.
    + intros Hs. injection Hs as <-. discriminate.
Qed.

Lemma missing_database_file_witness :
  load_schema singer_env (db_id unknown_db_sample) = Ok []
  /\ forall sql,
      query_execution singer_env unknown_db_sample sql
      = (false, Some (T "Database file does not exist: "
                        ++ db_path (db_id unknown_db_sample))).
Proof.
  apply (proj1 (missing_database_file singer_env unknown_db_sample)).
  reflexivity.
Defined.

(* ================================================================= *)
(** ** Clause detector and clause policy *)

Lemma upper_char_idem (c : ascii) : upper_char (upper_char c) = upper_char c.
Proof. destruct c as [[] [] [] [] [] [] [] []]; reflexivity. Qed.

Lemma upper_lower_char (c : ascii) : upper_char (lower_char c) = upper_char c.
Proof. destruct c as [[] [] [] [] [] [] [] []]; reflexivity. Qed.

Lemma upper_idem (s : text) : upper (upper s) = upper s.
Proof.
  unfold upper. rewrite map_map. apply map_ext. intros c. apply upper_char_idem.
Qed.

Lemma upper_lower (s : text) : upper (lower s) = upper s.
Proof.
  unfold upper, lower. rewrite map_map. apply map_ext. intros c.
  apply upper_lower_char.
Qed.

Lemma starts_with_iff (p s : text) :
  starts_with p s = true <-> exists r, s = p ++ r.
Proof.
  split; [apply starts_with_split|]. intros (r & ->). apply starts_with_app.
Qed.

(** [p in s] holds exactly when [p] occurs between two parts of [s]. *)
Lemma contains_iff (p s : text) :
  contains p s = true <-> exists pre suf, s = pre ++ p ++ suf.
Proof.
  induction s as [|c s IH].
  - simpl. rewrite orb_false_r. split.
    + intros H. apply starts_with_split in H as (r & Hr). exists [], r. exact Hr.
    + intros (pre & suf & H). destruct pre; [|discriminate].
      simpl in H. rewrite H. apply starts_with_app.
  - simpl. rewrite orb_true_iff, IH, starts_with_iff. split.
    + intros [(r & Hr)|(pre & suf & Hs)].
      * exists [], r. exact Hr.
      * exists (c :: pre), suf. simpl. now rewrite Hs.
    + intros (pre & suf & H). destruct pre as [|d pre].
      * left. exists suf. exact H.
      * right. simpl in H. injection H as _ H. eauto.
Qed.

Lemma contains_embedded (p a s b : text) :
  contains p s = true -> contains p (a ++ s ++ b) = true.
Proof.
  rewrite !contains_iff. intros (pre & suf & ->).
  exists (a ++ pre), (suf ++ b). now rewrite <- !app_assoc.
Qed.

Lemma extract_clauses_in (tag txt : text) :
  In tag (extract_clauses_from_text txt)
  <-> exists patterns pattern,
      In (tag, patterns) clause_patterns
      /\ In pattern patterns
      /\ contains pattern (upper txt) = true.
Proof.
  unfold extract_clauses_from_text. rewrite in_map_iff. split.
  - intros ([t ps] & Ht & Hin). simpl in Ht. subst t.
    apply filter_In in Hin as [Hin Hex]. simpl in Hex.
    apply existsb_exists in Hex as (p & Hp & Hc). eauto.
  - intros (ps & p & Hin & Hp & Hc). exists (tag, ps). split; [reflexivity|].
    apply filter_In. split; [exact Hin|]. simpl.
    apply existsb_exists. eauto.
Qed.

(** X13: keyword extraction reports a clause exactly when one of its
    patterns occurs in the upper-cased text, and reports it once,
    however many of its patterns occur and however often. *)
Theorem extract_clauses_once_each (txt : text) :
  NoDup (extract_clauses_from_text txt)
  /\ forall tag,
      In tag (extract_clauses_from_text txt)
      <-> exists patterns pattern,
          In (tag, patterns) clause_patterns
          /\ In pattern patterns
          /\ contains pattern (upper txt) = true.
Proof.
  split; [apply extract_clauses_distinct|]. intros tag. apply extract_clauses_in.
Qed.

(** X14: keyword extraction does not depend on the case of an ASCII
    text, and a text embedded in a longer one keeps all its clauses:
    the match is by substring, not by word.  (Outside ASCII lower-casing
    can change the upper-case form of a text.) *)
Theorem extract_clauses_case_and_context (txt before after : text) :
  (ascii_text txt = true ->
   extract_clauses_from_text (upper txt) = extract_clauses_from_text txt
   /\ extract_clauses_from_text (lower txt) = extract_clauses_from_text txt)
  /\ incl (extract_clauses_from_text txt)
          (extract_clauses_from_text (before ++ txt ++ after)).
Proof.
  split; [intros _; split|].
  - unfold extract_clauses_from_text. now rewrite upper_idem.
  - unfold extract_clauses_from_text. now rewrite upper_lower.
  - intros tag Hin. apply extract_clauses_in in Hin as (ps & p & Hps & Hp & Hc).
    apply extract_clauses_in. exists ps, p. split; [exact Hps|]. split; [exact Hp|].
    unfold upper. rewrite !map_app. now apply contains_embedded.
Qed.

Lemma extract_clauses_case_and_context_witness :
  extract_clauses_from_text (upper (T "Select the rows, then Order By name"))
  = extract_clauses_from_text (T "Select the rows, then Order By name")
  /\ extract_clauses_from_text (lower (T "Select the rows, then Order By name"))
     = extract_clauses_from_text (T "Select the rows, then Order By name").
Proof.
  apply (proj1 (extract_clauses_case_and_context
                  (T "Select the rows, then Order By name") [] [])).
  reflexivity.
Defined.

Lemma filter_strings (t : text) (l : list text) :
  filter (fun y => negb (py_eqb (JStr t) y)) (map JStr l)
  = map JStr (filter (fun u => negb (text_eqb t u)) l).
Proof.
  induction l as [|u l IH]; [reflexivity|].
  cbn [map filter]. change (py_eqb (JStr t) (JStr u)) with (text_eqb t u).
  destruct (text_eqb t u); cbn [negb map]; now rewrite IH.
Qed.

(** The set of a list of strings: its distinct members. *)
Lemma dedup_strings_members (tags : list text) :
  exists l, dedup (map JStr tags) = map JStr l
            /\ NoDup l /\ forall t, In t l <-> In t tags.
Proof.
  induction tags as [|t tags (l & Hl & Hnd & Hmem)].
  - exists []. simpl. repeat split; auto; constructor.
  - cbn [map dedup]. rewrite Hl, filter_strings.
    exists (t :: filter (fun u => negb (text_eqb t u)) l).
    split; [reflexivity|]. split.
    + constructor; [|now apply NoDup_filter].
      intros Hin. apply filter_In in Hin as [_ Hneq].
      now rewrite text_eqb_refl in Hneq.
    + intros u. simpl. rewrite filter_In, Hmem. split.
      * intros [Heq|[Hin _]]; auto.
      * intros [Heq|Hin]; [now left|].
        destruct (text_eqb t u) eqn:Htu.
        -- left. now apply text_eqb_eq.
        -- right. split; [exact Hin|reflexivity].
Qed.

(** X15: when the decomposition decodes to an object whose ["clauses"]
    field is a list of strings, [parse_subproblems] returns these
    strings, each once and as they are written (no canonical spelling
    is imposed), whatever else the object holds. *)
Theorem parse_subproblems_clauses_field (E : Env) (sub_json : text)
        (fields : list (text * json)) (tags : list text) :
  json_loads E sub_json = Decoded (JObj fields) ->
  lookup (T "clauses") fields = Some (JArr (map JStr tags)) ->
  exists l,
    parse_subproblems E sub_json = Ok (map JStr l)
    /\ NoDup l
    /\ forall t, In t l <-> In t tags.
Proof.
  intros Hloads Hlookup. unfold parse_subproblems, detected_clauses, clauses_of_data.
  rewrite Hloads, Hlookup.
  destruct tags as [|t tags].
  - exists []. simpl. repeat split; auto; constructor.
  - cbn [truthy map]. unfold list_of_set.
    change (JStr t :: map JStr tags) with (map JStr (t :: tags)).
    rewrite find_unhashable_strings.
    destruct (dedup_strings_members (t :: tags)) as (l & Hl & Hnd & Hmem).
    exists l. rewrite Hl. auto.
Qed.

Lemma parse_subproblems_clauses_field_witness :
  exists l,
    parse_subproblems clauses_list_env clauses_list_text = Ok (map JStr l)
    /\ NoDup l
    /\ forall t, In t l <-> In t [T "SELECT"; T "select"; T "SELECT"].
Proof.
  apply (parse_subproblems_clauses_field clauses_list_env clauses_list_text
           [(T "clauses", JArr [JStr (T "SELECT"); JStr (T "select");
                                   JStr (T "SELECT")])]
           [T "SELECT"; T "select"; T "SELECT"]);
    reflexivity.
Defined.

(** X16: [parse_subproblems] raises in two ways only: [json.loads]
    raised an exception other than the decoding error, which the
    function does not handle and which leaves it unchanged; or the text
    decoded and building the set raised a TypeError.  It never raises
    on a text for which [json.loads] raises the decoding error. *)
Theorem parse_subproblems_raises_only_type_error (E : Env) (sub_json : text)
        (e : exn) :
  parse_subproblems E sub_json = Raise e ->
  json_loads E sub_json = LoadsRaised e
  \/ (exists data, json_loads E sub_json = Decoded data)
     /\ exists msg, e = TypeError msg.
Proof.
  unfold parse_subproblems, detected_clauses.
  destruct (json_loads E sub_json) as [data| |e0] eqn:Hloads.
  - intros Hraise. right. split; [eauto|].
    destruct (truthy (clauses_of_data E data)); [|discriminate].
    unfold list_of_set in Hraise.
    destruct (clauses_of_data E data) as [| | | | |items|];
      try (injection Hraise as <-; eauto); try discriminate.
    destruct (find (fun x => negb (hashable x)) items);
      [injection Hraise as <-; eauto|discriminate].
  - intros Hraise. exfalso.
    pose proof (parse_subproblems_not_json E sub_json Hloads) as Hok.
    unfold parse_subproblems, detected_clauses in Hok. rewrite Hloads in Hok.
    congruence.
  - intros Hraise. left. now injection Hraise as ->.
Qed.

Lemma parse_subproblems_raises_only_type_error_witness :
  json_loads scalar_clauses_env scalar_clauses_text
  = LoadsRaised (TypeError (T "'int' object is not iterable"))
  \/ (exists data, json_loads scalar_clauses_env scalar_clauses_text = Decoded data)
     /\ exists msg, TypeError (T "'int' object is not iterable") = TypeError msg.
Proof.
  apply (parse_subproblems_raises_only_type_error scalar_clauses_env
           scalar_clauses_text (TypeError (T "'int' object is not iterable"))).
  reflexivity.
Defined.

Lemma clause_block_upper (c : text) : clause_block (upper c) = clause_block c.
Proof. unfold clause_block. now rewrite upper_idem. Qed.

Lemma clause_block_lower (c : text) : clause_block (lower c) = clause_block c.
Proof. unfold clause_block. now rewrite upper_lower. Qed.

Lemma clause_specific_prompts_blocks (clauses : list text) :
  clause_specific_prompts clauses
  = (List.concat (map (fun c => fst (clause_block c)) clauses),
     List.concat (map (fun c => snd (clause_block c)) clauses)).
Proof. unfold clause_specific_prompts. now rewrite clause_loop_app. Qed.

(** X17: the guidance of a list of tags put together from two lists is
    the guidance of the first followed by the guidance of the second;
    the empty list gives two empty texts, and the spelling of a tag in
    upper or lower case makes no difference. *)
Theorem clause_specific_prompts_compose (l1 l2 : list text) :
  clause_specific_prompts (l1 ++ l2)
  = (fst (clause_specific_prompts l1) ++ fst (clause_specific_prompts l2),
     snd (clause_specific_prompts l1) ++ snd (clause_specific_prompts l2))
  /\ clause_specific_prompts [] = ([], [])
  /\ clause_specific_prompts (map upper l1) = clause_specific_prompts l1
  /\ clause_specific_prompts (map lower l1) = clause_specific_prompts l1.
Proof.
  rewrite !clause_specific_prompts_blocks. simpl.
  rewrite !map_app, !concat_app, !map_map.
  split; [reflexivity|]. split; [reflexivity|].
  split; f_equal; f_equal; apply map_ext; intros c;
    rewrite ?clause_block_upper, ?clause_block_lower; reflexivity.
Qed.

(* ================================================================= *)
(** ** Orchestrator: the correction loop and one sample *)

Section LoopTrace.
Variable E : Env.
Variable item : sample.

(** The two cases of an iteration of the loop. *)
Lemma loop_body_cases (schema : text) (ls : loop_state) (st : state E) :
  exists reply st' p,
    prompts_sent st'
    = prompts_sent st
      ++ [correction_plan_agent_prompt (question item) (cur_sql ls) schema
                                       (cur_error ls); p]
    /\ ((reply = [] /\ loop_body E item schema ls st = Some (Ok (ls, true), st'))
        \/ (reply <> []
            /\ loop_body E item schema ls st
               = Some (Ok ({| cur_sql := postprocess_sql reply;
                              cur_exec_match :=
                                fst (query_execution E item (postprocess_sql reply));
                              cur_error :=
                                snd (query_execution E item (postprocess_sql reply));
                              exec_failed :=
                                negb (fst (query_execution E item (postprocess_sql reply)));
                              attempts := attempts ls + 1 |}, false), st'))).
Proof.
  unfold loop_body.
  destruct (call_agent_returns E
              (correction_plan_agent_prompt (question item) (cur_sql ls) schema
                                            (cur_error ls)) st)
    as (plan & w1 & H1).
  rewrite (bind_ok H1).
  match goal with
  | |- context [bind (call_agent E ?p) _ ?s] =>
      destruct (call_agent_returns E p s) as (reply & w2 & H2);
      rewrite (bind_ok H2)
  end.
  exists reply.
  eexists. exists (correction_sql_agent_prompt (question item) schema plan (cur_sql ls)).
  split; [|destruct reply as [|c reply]; [left; split; reflexivity|]];
    [simpl; now rewrite <- app_assoc|].
  right. split; [discriminate|]. cbn [is_empty].
  now destruct (query_execution E item (postprocess_sql (c :: reply))).
Qed.

(** What a return of the loop tells: the attempts only grow and stay
    within the budget; two prompts were sent for each execution of the
    body; the loop ended because its condition failed, with as many
    executions as attempts made, or through [break], with one execution
    more and every variable as before that execution; the candidate is
    still a normalized text carrying its verdict. *)
Lemma correction_loop_trace (schema : text) (fuel : nat) :
  forall (ls : loop_state) (n : nat) (st : state E) ls' n' st',
    correction_loop E item fuel schema ls n st = Some (Ok (ls', n'), st') ->
    attempts ls <= attempts ls'
    /\ (attempts ls <= MAX_CRITIC_ATTEMPTS -> attempts ls' <= MAX_CRITIC_ATTEMPTS)
    /\ List.length (prompts_sent st') = List.length (prompts_sent st) + 2 * (n' - n)
    /\ n <= n'
    /\ ((loop_cond ls' = false /\ n' - n = attempts ls' - attempts ls)
        \/ (loop_cond ls' = true /\ n' - n = attempts ls' - attempts ls + 1))
    /\ (candidate_normalized ls -> candidate_normalized ls')
    /\ (verdict_of_candidate E item ls -> verdict_of_candidate E item ls')
    /\ (n' = n -> ls' = ls /\ st' = st).
Proof.
  induction fuel as [|fuel IH]; intros ls n st ls' n' st'; [discriminate|].
  cbn [correction_loop]. destruct (loop_cond ls) eqn:Hcond.
  - assert (Hlt : attempts ls < MAX_CRITIC_ATTEMPTS).
    { unfold loop_cond in Hcond. apply andb_true_iff in Hcond as [_ Hc].
      now apply Nat.ltb_lt in Hc. }
    destruct (loop_body_cases schema ls st)
      as (reply & st1 & p & Hlog & [[Hr Hbody]|[Hr Hbody]]);
      rewrite (bind_ok Hbody); cbn [fst snd].
    + intros H. injection H as <- <- <-.
      rewrite Hlog, length_app. cbn [List.length].
      split; [lia|]. split; [tauto|]. split; [lia|]. split; [lia|].
      split; [right; split; [exact Hcond|lia]|].
      split; [tauto|]. split; [tauto|]. lia.
    + intros H. apply IH in H.
      destruct H as (Ha & Hmax & Hlen & Hn & Hend & Hnorm & Hver & _).
      cbn [attempts] in Ha, Hmax, Hend.
      rewrite Hlog, length_app in Hlen. cbn [List.length] in Hlen.
      split; [lia|]. split; [lia|]. split; [lia|]. split; [lia|].
      split; [destruct Hend as [[Hc He]|[Hc He]]; [left|right]; split; auto; lia|].
      split; [intros _; apply Hnorm; now exists reply|].
      split; [intros _; apply Hver; split; simpl;
              [now destruct (query_execution E item (postprocess_sql reply))
              |reflexivity]|].
      lia.
  - intros H. injection H as <- <- <-.
    split; [lia|]. split; [tauto|]. split; [lia|]. split; [lia|].
    split; [left; split; [exact Hcond|lia]|].
    split; [tauto|]. split; [tauto|]. tauto.
Qed.
End LoopTrace.



Lemma strip_idem (s : text) : strip (strip s) = strip s.
Proof. apply strip_id; [apply strip_head_ok|apply strip_last_ok]. Qed.

Lemma strip_blank (s : text) : strip s = [] <-> forallb is_space s = true.
Proof.
  split.
  - intros H. destruct (strip_chars_split is_space s) as (pre & suf & Hs & Hpre & Hsuf).
    unfold strip in H. rewrite H in Hs. simpl in Hs. rewrite Hs.
    rewrite forallb_app. apply andb_true_iff.
    split; apply forallb_forall; intros c Hc;
      [rewrite Forall_forall in Hpre|rewrite Forall_forall in Hsuf]; auto.
  - intros H. unfold strip, strip_chars.
    assert (Hd : drop_while is_space s = []).
    { induction s as [|c s IH]; [reflexivity|].
      simpl in H. apply andb_true_iff in H as [Hc Hs]. simpl. rewrite Hc. auto. }
    now rewrite Hd.
Qed.

(** X19: [call_agent] always returns, with a text that has no leading or
    trailing whitespace, and logs its prompt; it returns the empty
    string, which every stage reads as a failure, exactly when the
    backend raised or replied with whitespace only. *)
Theorem call_agent_reply (E : Env) (prompt : text) (st : state E) :
  exists reply st',
    call_agent E prompt st = Some (Ok reply, st')
    /\ strip reply = reply
    /\ prompts_sent st' = prompts_sent st ++ [prompt]
    /\ (reply = []
        <-> fst (chat_completion E prompt (world st)) = None
            \/ exists content,
                fst (chat_completion E prompt (world st)) = Some content
                /\ forallb is_space content = true).
Proof.
  unfold call_agent.
  destruct (chat_completion E prompt (world st)) as [[content|] w]; simpl.
  - do 2 eexists. split; [reflexivity|]. split; [apply strip_idem|].
    split; [reflexivity|]. rewrite strip_blank. split.
    + intros H. right. eauto.
    + intros [H|(c & Hc & Hb)]; [discriminate|]. now injection Hc as ->.
  - do 2 eexists. split; [reflexivity|]. split; [reflexivity|].
    split; [reflexivity|]. split; [now left|reflexivity].
Qed.

Section SampleTrace.
Variable E : Env.
Variable item : sample.

Lemma call_agent_log (prompt reply : text) (st st' : state E) :
  call_agent E prompt st = Some (Ok reply, st') ->
  prompts_sent st' = prompts_sent st ++ [prompt].
Proof.
  unfold call_agent. destruct (chat_completion E prompt (world st)) as [r w].
  intros H. now injection H as _ <-.
Qed.




(** What the generation stage returns, with the prompts it sent. *)
Lemma generation_trace (fuel : nat) (plan cs : text) (st : state E) :
  MAX_CRITIC_ATTEMPTS < fuel ->
  exists out st' k,
    generation E item fuel plan cs st = Some (Ok out, st')
    /\ List.length (prompts_sent st') = List.length (prompts_sent st) + 1 + 2 * k
    /\ k <= 3
    /\ (out = GenerationFailed -> k = 0)
    /\ forall sql exact valid exec,
        out = Scored sql exact valid exec ->
        exec = fst (query_execution E item sql)
        /\ (exists raw, sql = postprocess_sql raw)
        /\ exact = text_eqb sql (postprocess_sql (query item))
        /\ (valid = true <-> executes E (db_id item) sql).
Proof.
  intros Hfuel. unfold generation.
  destruct (call_agent_returns E (sql_agent_prompt (question item) plan cs) st)
    as (reply & w & H).
  rewrite (bind_ok H). destruct (is_empty reply) eqn:Hempty.
  - exists GenerationFailed. eexists. exists 0. split; [reflexivity|].
    simpl. rewrite length_app. simpl.
    split; [lia|]. split; [lia|]. split; [reflexivity|discriminate].
  - destruct (query_execution E item (postprocess_sql reply)) as [m err] eqn:Hq.
    match goal with
    | |- context [correction_loop E item fuel cs ?ls 0] =>
        destruct (correction_loop_returns E item cs fuel ls 0
                    {| world := w;
                       prompts_sent :=
                         prompts_sent st ++ [sql_agent_prompt (question item) plan cs] |})
          as (ls' & n' & st' & sent & Hloop & Hn & _);
        [unfold MAX_CRITIC_ATTEMPTS in *; simpl; lia|];
        destruct (correction_loop_trace E item cs fuel _ _ _ _ _ _ Hloop)
          as (_ & _ & Hlen & _ & _ & Hnorm & Hver & _)
    end.
    rewrite (bind_ok Hloop). unfold ret. cbn [fst].
    exists (scoring E item (cur_sql ls') (cur_exec_match ls')), st', n'.
    split; [reflexivity|].
    simpl in Hlen, Hn. rewrite length_app in Hlen. simpl in Hlen.
    unfold MAX_CRITIC_ATTEMPTS in Hn.
    split; [lia|]. split; [lia|].
    assert (Hv : verdict_of_candidate E item ls')
      by (apply Hver; split; simpl; [now rewrite Hq|reflexivity]).
    assert (Hnm : candidate_normalized ls') by (apply Hnorm; now exists reply).
    split.
    + unfold scoring.
      destruct (exec_query E (db_path (db_id item)) (cur_sql ls')); discriminate.
    + intros sql exact valid exec Hout.
      pose proof (scoring_sound E item ls' Hv) as Hsound.
      rewrite Hout in Hsound. destruct Hsound as [Hvalid _].
      unfold scoring in Hout.
      destruct (exec_query E (db_path (db_id item)) (cur_sql ls')) as [rows gen_err].
      injection Hout as <- <- _ <-.
      destruct Hv as [Hv _]. destruct Hnm as [raw Hraw].
      split; [now rewrite <- Hv|]. split; [now exists raw|].
      split; [|exact Hvalid].
      destruct (postprocess_sql_tidy raw) as (Hl & _ & _ & _ & Hh & Hlast).
      destruct (postprocess_sql_tidy (query item)) as (Hl' & _ & _ & _ & Hh' & Hlast').
      rewrite Hraw.
      now rewrite (strip_id _ Hh Hlast), (lower_id _ Hl),
                  (strip_id _ Hh' Hlast'), (lower_id _ Hl').
Qed.

Lemma schema_linking_trace (schema : text) (st : state E) :
  exists cs st1,
    schema_linking E item schema st = Some (Ok cs, st1)
    /\ List.length (prompts_sent st1) = List.length (prompts_sent st) + 1.
Proof.
  unfold schema_linking.
  destruct (call_agent_returns E (alt_schema_linking_agent_prompt (question item) schema) st)
    as (r & w & H).
  rewrite (bind_ok H). unfold ret. do 2 eexists. split; [reflexivity|].
  simpl. rewrite length_app. simpl. lia.
Qed.

Lemma decomposition_trace (cs : text) (st : state E) :
  exists r st1,
    decomposition E item cs st = Some (r, st1)
    /\ List.length (prompts_sent st1) = List.length (prompts_sent st) + 1.
Proof.
  unfold decomposition.
  destruct (call_agent_returns E (subproblem_agent_prompt (question item) cs) st)
    as (r & w & H).
  rewrite (bind_ok H).
  destruct (is_empty r); unfold ret, lift; do 2 eexists;
    (split; [reflexivity|]); simpl; rewrite length_app; simpl; lia.
Qed.

Lemma planning_trace (cs sub_json : text) (st : state E) :
  exists plan st1,
    planning E item cs sub_json st = Some (Ok plan, st1)
    /\ List.length (prompts_sent st1) = List.length (prompts_sent st) + 1.
Proof.
  unfold planning.
  destruct (call_agent_returns E (query_plan_agent_prompt (question item) cs sub_json) st)
    as (r & w & H).
  rewrite (bind_ok H). unfold ret. do 2 eexists. split; [reflexivity|].
  simpl. rewrite length_app. simpl. lia.
Qed.

(** The [try] block with the number of prompts it sent. *)
Lemma sample_body_trace (fuel : nat) (schema : text) (st : state E) :
  MAX_CRITIC_ATTEMPTS < fuel ->
  exists r st' k,
    sample_body E item fuel schema st = Some (r, st')
    /\ List.length (prompts_sent st') = List.length (prompts_sent st) + k
    /\ 2 <= k <= 10
    /\ Nat.even k = true
    /\ (forall e, r = Raise e -> k = 2)
    /\ (r = Ok GenerationFailed -> k = 4)
    /\ (forall sql exact valid exec,
           r = Ok (Scored sql exact valid exec) ->
           4 <= k
           /\ exec = fst (query_execution E item sql)
           /\ (exists raw, sql = postprocess_sql raw)
           /\ exact = text_eqb sql (postprocess_sql (query item))
           /\ (valid = true <-> executes E (db_id item) sql)).
Proof.
  intros Hfuel. unfold sample_body.
  destruct (schema_linking_trace schema st) as (cs & st1 & H1 & Hlen1).
  rewrite (bind_ok H1).
  destruct (decomposition_trace cs st1) as ([sub_json|e] & st2 & Hdec & Hlen2).
  - rewrite (bind_ok Hdec).
    destruct (planning_trace cs sub_json st2) as (plan & st3 & Hplan & Hlen3).
    destruct (generation_trace fuel plan cs st3 Hfuel)
      as (out & st4 & k & Hgen & Hlen4 & Hk & Hfail & Hscored).
    destruct (clause_guidance_returns E sub_json st2) as ([g|e] & Hg).
    + rewrite (bind_ok Hg). rewrite (bind_ok Hplan).
      exists (Ok out), st4, (4 + 2 * k).
      split; [exact Hgen|]. split; [lia|]. split; [lia|].
      split; [now rewrite Nat.even_add_mul_2|].
      split; [discriminate|].
      split; [intros Hout; injection Hout as ->; rewrite (Hfail eq_refl); lia|].
      intros sql exact valid exec Hout. injection Hout as ->.
      split; [lia|]. now apply Hscored.
    + rewrite (bind_raise Hg).
      exists (Raise e), st2, 2. split; [reflexivity|]. split; [lia|]. split; [lia|].
      split; [reflexivity|].
      split; [reflexivity|]. split; discriminate.
  - rewrite (bind_raise Hdec).
    exists (Raise e), st2, 2. split; [reflexivity|]. split; [lia|]. split; [lia|].
    split; [reflexivity|].
    split; [reflexivity|]. split; discriminate.
Qed.
End SampleTrace.



(** X21: the statement recorded for a scored sample is an output of
    [postprocess_sql]; hence the stripping and lower-casing of the
    exact-match test change nothing, and the flag is the plain equality
    of the candidate with the normalized reference statement.  The
    execution flag is the verdict of [query_execution] on the recorded
    statement. *)
Theorem scored_sample_flags (E : Env) (item : sample) (fuel : nat) (schema : text)
        (st st' : state E) (sql : text) (exact valid exec : bool) :
  MAX_CRITIC_ATTEMPTS < fuel ->
  sample_body E item fuel schema st = Some (Ok (Scored sql exact valid exec), st') ->
  (exists raw, sql = postprocess_sql raw)
  /\ exact = text_eqb sql (postprocess_sql (query item))
  /\ exec = fst (query_execution E item sql).
Proof.
  intros Hfuel Hrun.
  destruct (sample_body_trace E item fuel schema st Hfuel)
    as (r & st1 & k & Hrun' & _ & _ & _ & _ & _ & Hscored).
  rewrite Hrun in Hrun'. injection Hrun' as <- _.
  destruct (Hscored sql exact valid exec eq_refl) as (_ & Hexec & Hraw & Hexact & _).
  auto.
Qed.

Lemma scored_sample_flags_witness :
  (exists raw, T "select count(*) from singer" = postprocess_sql raw)
  /\ true = text_eqb (T "select count(*) from singer")
                     (postprocess_sql (query singer_sample))
  /\ true = fst (query_execution singer_env singer_sample
                                 (T "select count(*) from singer")).
Proof.
  apply (scored_sample_flags singer_env singer_sample 4 (T "singer: id")
           (singer_state [Some (T "singer: id"); None; Some (T "count the rows");
                           Some (T "SELECT count(*) FROM singer")] [])
           (singer_state []
              [alt_schema_linking_agent_prompt (question singer_sample) (T "singer: id");
               subproblem_agent_prompt (question singer_sample) (T "singer: id");
               query_plan_agent_prompt (question singer_sample) (T "singer: id") (T "{}");
               sql_agent_prompt (question singer_sample) (T "count the rows")
                                (T "singer: id")])
           (T "select count(*) from singer") true true true
           (Nat.lt_succ_diag_r 3)).
  vm_compute. reflexivity.
Defined.


(* ================================================================= *)
(** ** The counters, the entries and the prompts of a run *)

Lemma count_flag_snoc (flag : entry -> bool) (l : list entry) (e : entry) :
  count_flag flag (l ++ [e]) = count_flag flag l + count (flag e).
Proof.
  unfold count_flag. rewrite filter_app, length_app. simpl.
  now destruct (flag e).
Qed.

Lemma count_flag_cons (flag : entry -> bool) (l : list entry) (e : entry) :
  count_flag flag (e :: l) = count (flag e) + count_flag flag l.
Proof. unfold count_flag. simpl. now destruct (flag e). Qed.


Lemma nth_error_firstn_some {A} (k i : nat) (l : list A) (x : A) :
  nth_error (firstn k l) i = Some x -> nth_error l i = Some x.
Proof.
  revert i l. induction k as [|k IH]; intros i l; simpl.
  - destruct i; discriminate.
  - destruct l as [|y l]; [destruct i; discriminate|].
    destruct i; simpl; [auto|apply IH].
Qed.

Lemma nth_error_take (num_samples : Z) (dev : list sample) (i : nat) (item : sample) :
  nth_error (take num_samples dev) i = Some item -> nth_error dev i = Some item.
Proof. unfold take. destruct (0 <=? num_samples)%Z; apply nth_error_firstn_some. Qed.

Lemma take_length (num_samples : Z) (dev : list sample) :
  List.length (take num_samples dev) <= List.length dev.
Proof.
  unfold take. destruct (0 <=? num_samples)%Z; rewrite length_firstn; lia.
Qed.

Section RunTrace.
Variable E : Env.

Lemma record_outcome_counts (item : sample) (idx : nat) (r : result outcome)
      (acc : run) :
  exists e,
    results (record_outcome item idx r acc) = results acc ++ [e]
    /\ total (record_outcome item idx r acc) = total acc + 1
    /\ exact_matches (record_outcome item idx r acc)
       = exact_matches acc + count (exact_match e)
    /\ valid_sqls (record_outcome item idx r acc) = valid_sqls acc + count (valid_sql e)
    /\ exec_correct (record_outcome item idx r acc)
       = exec_correct acc + count (exec_match e)
    /\ sample_id e = idx + 1
    /\ entry_question e = question item
    /\ entry_db_id e = db_id item
    /\ gold_sql e = query item.
Proof.
  destruct r as [[|sql exact valid exec]|ex]; simpl; eexists;
    (split; [reflexivity|]); simpl; repeat split; lia.
Qed.

Lemma from_sample_shift (idx : nat) (item : sample) (rest : list sample)
      (new : list entry) :
  Forall (from_sample E (S idx) rest) new ->
  Forall (from_sample E idx (item :: rest)) new.
Proof.
  intros Hfrom. eapply Forall_impl; [|exact Hfrom].
  intros e (Hlt & it & Hnth & Hrest). split; [lia|]. exists it.
  split; [|exact Hrest].
  replace (sample_id e - 1 - idx) with (S (sample_id e - 1 - S idx)) by lia.
  exact Hnth.
Qed.

Lemma evaluate_from_trace (fuel : nat) (dev : list sample) :
  MAX_CRITIC_ATTEMPTS < fuel ->
  forall (idx : nat) (acc : run) (st : state E),
  exists out st',
    evaluate_from E fuel idx dev acc st = Some (out, st')
    /\ match out with
       | Ok r =>
           exists new,
             results r = results acc ++ new
             /\ total r = total acc + List.length new
             /\ exact_matches r = exact_matches acc + count_flag exact_match new
             /\ valid_sqls r = valid_sqls acc + count_flag valid_sql new
             /\ exec_correct r = exec_correct acc + count_flag exec_match new
             /\ List.length new = List.length (filter (schema_loads E) dev)
             /\ (new = [] <-> forallb (schema_empty E) dev = true)
             /\ List.length (prompts_sent st) + 2 * List.length new
                <= List.length (prompts_sent st')
                <= List.length (prompts_sent st) + 10 * List.length new
             /\ Forall (from_sample E idx dev) new
             /\ StronglySorted lt (map sample_id new)
             /\ (new = [] -> st' = st)
       | Raise e =>
           exists item, In item dev /\ load_schema E (db_id item) = Raise e
       end.
Proof.
  intros Hfuel. induction dev as [|item rest IH]; intros idx acc st.
  - exists (Ok acc), st. split; [reflexivity|]. exists [].
    unfold count_flag. simpl. rewrite app_nil_r.
    repeat split; try lia; constructor.
  - cbn [evaluate_from filter forallb]. unfold schema_loads at 1, schema_empty at 1.
    destruct (load_schema E (db_id item)) as [schema|e] eqn:Hload.
    + destruct (is_empty schema) eqn:Hschema; cbn [negb andb].
      * rewrite (evaluate_sample_skips E item fuel idx acc st schema Hload Hschema).
        destruct (IH (S idx) acc st) as ([r|e] & st' & Hrun & Hout).
        -- destruct Hout
             as (new & Hres & Htot & Hex & Hva & Hec & Hlen & Hall & Hp & Hfrom
                 & Hsorted & Hnil).
           exists (Ok r), st'. split; [exact Hrun|]. exists new.
           repeat (split; [assumption|]).
           split; [now apply from_sample_shift|]. split; assumption.
        -- exists (Raise e), st'. split; [exact Hrun|].
           destruct Hout as (it & Hin & Hit). exists it. split; [now right|exact Hit].
      * unfold evaluate_sample. rewrite Hload, Hschema.
        destruct (sample_body_trace E item fuel schema st Hfuel)
          as (r & st1 & k & Hbody & Hlen1 & Hk & _).
        rewrite Hbody.
        destruct (record_outcome_counts item idx r acc)
          as (e & Hres & Htot & Hex & Hva & Hec & Hid & Hq & Hdb & Hgold).
        destruct (IH (S idx) (record_outcome item idx r acc) st1)
          as ([r2|e2] & st2 & Hrun & Hout).
        -- destruct Hout
             as (new & Hres2 & Htot2 & Hex2 & Hva2 & Hec2 & Hlen & _ & Hp
                 & Hfrom & Hsorted & _).
           exists (Ok r2), st2. split; [exact Hrun|]. exists (e :: new).
           split; [now rewrite Hres2, Hres, <- app_assoc|].
           split; [rewrite Htot2, Htot; cbn [List.length]; lia|].
           split; [rewrite Hex2, Hex, count_flag_cons; lia|].
           split; [rewrite Hva2, Hva, count_flag_cons; lia|].
           split; [rewrite Hec2, Hec, count_flag_cons; lia|].
           split; [cbn [List.length]; now rewrite Hlen|].
           split; [split; discriminate|].
           split; [cbn [List.length]; lia|].
           split; [|split; [|discriminate]].
           ++ constructor.
              ** split; [lia|]. exists item.
                 replace (sample_id e - 1 - idx) with 0 by lia.
                 unfold schema_loads. rewrite Hload, Hschema.
                 repeat split; assumption.
              ** now apply from_sample_shift.
           ++ cbn [map]. constructor; [exact Hsorted|].
              apply Forall_map. eapply Forall_impl; [|exact Hfrom].
              intros e' (Hlt & _). lia.
        -- exists (Raise e2), st2. split; [exact Hrun|].
           destruct Hout as (it & Hin & Hit). exists it. split; [now right|exact Hit].
    + rewrite (evaluate_sample_raises E item fuel idx acc st e Hload).
      exists (Raise e), st. split; [reflexivity|].
      exists item. split; [now left|exact Hload].
Qed.

Lemma evaluate_trace (fuel : nat) (dev : list sample) (num_samples : Z)
      (st : state E) :
  MAX_CRITIC_ATTEMPTS < fuel ->
  is_nil dev = false ->
  exists out st',
    evaluate E fuel dev num_samples st = Some (out, st')
    /\ run_ends_with E (take num_samples dev)
         (fun r =>
            taxonomy_error E = None
            /\ total r = List.length (results r)
            /\ exact_matches r = count_flag exact_match (results r)
            /\ valid_sqls r = count_flag valid_sql (results r)
            /\ exec_correct r = count_flag exec_match (results r)
            /\ (total r = 0
                <-> forallb (schema_empty E) (take num_samples dev) = true)
            /\ List.length (prompts_sent st) + 2 * total r
               <= List.length (prompts_sent st')
               <= List.length (prompts_sent st) + 10 * total r
            /\ Forall (from_sample E 0 (take num_samples dev)) (results r)
            /\ StronglySorted lt (map sample_id (results r))
            /\ (total r = 0 -> st' = st)
            /\ total r <= List.length dev)
         out.
Proof.
  intros Hfuel Hdev. unfold evaluate. rewrite Hdev.
  destruct (taxonomy_error E) as [e|] eqn:Htax.
  { exists (Raise e), st. split; [reflexivity|]. now left. }
  destruct (evaluate_from_trace fuel (take num_samples dev) Hfuel 0 empty_run st)
    as ([r|e] & st' & Hrun & Hout); rewrite Hrun.
  - destruct Hout
      as (new & Hres & Htot & Hex & Hva & Hec & Hlen & Hall & Hp & Hfrom
          & Hsorted & Hnil).
    exists (Ok (Some r)), st'. split; [reflexivity|].
    simpl in Hres, Htot, Hex, Hva, Hec. subst new. cbn [run_ends_with].
    split; [reflexivity|]. split; [exact Htot|]. split; [exact Hex|].
    split; [exact Hva|]. split; [exact Hec|].
    split; [rewrite Htot, length_zero_iff_nil; exact Hall|].
    split; [rewrite Htot; exact Hp|]. split; [exact Hfrom|]. split; [exact Hsorted|].
    split.
    + intros H0. apply Hnil. rewrite Htot in H0. now apply length_zero_iff_nil.
    + rewrite Htot, Hlen.
      pose proof (filter_length_le (schema_loads E) (take num_samples dev)).
      pose proof (take_length num_samples dev). lia.
  - exists (Raise e), st'. split; [reflexivity|]. now right.
Qed.

(** A slice whose schemas are all empty raises nothing. *)
Lemma schema_empty_no_escape (dev : list sample) (e : exn) :
  taxonomy_error E = None ->
  forallb (schema_empty E) dev = true ->
  ~ escapes E dev e.
Proof.
  intros Htax Hall [Ht|(item & Hin & Hit)]; [congruence|].
  rewrite forallb_forall in Hall. specialize (Hall item Hin).
  unfold schema_empty in Hall. now rewrite Hit in Hall.
Qed.
End RunTrace.



(** X24: every entry of the results list of a run points back to its
    sample: [sample_id] is the position of the sample in the dataset
    counted from one, the entry carries the question, the database and
    the reference statement of that sample, and the schema of its
    database loads.  The identifiers are strictly increasing, so no
    sample has two entries.  (The run ends with such a list, or by an
    exception that [evaluate] does not handle.) *)
Theorem run_entries_point_to_samples (E : Env) (fuel : nat) (dev : list sample)
        (num_samples : Z) (st : state E) :
  MAX_CRITIC_ATTEMPTS < fuel ->
  is_nil dev = false ->
  exists out st',
    evaluate E fuel dev num_samples st = Some (out, st')
    /\ run_ends_with E (take num_samples dev)
         (fun r =>
            Forall (fun e =>
                      1 <= sample_id e <= List.length dev
                      /\ exists item,
                           nth_error dev (sample_id e - 1) = Some item
                           /\ entry_question e = question item
                           /\ entry_db_id e = db_id item
                           /\ gold_sql e = query item
                           /\ schema_loads E item = true)
                   (results r)
            /\ StronglySorted lt (map sample_id (results r)))
         out.
Proof.
  intros Hfuel Hdev.
  destruct (evaluate_trace E fuel dev num_samples st Hfuel Hdev)
    as (out & st' & Hrun & Hout).
  exists out, st'. split; [exact Hrun|].
  destruct out as [[r|]|e]; cbn [run_ends_with] in *; [|exact Hout|exact Hout].
  destruct Hout as (_ & _ & _ & _ & _ & _ & _ & Hfrom & Hsorted & _).
  split; [|exact Hsorted].
  eapply Forall_impl; [|exact Hfrom].
  intros e (Hlt & item & Hnth & Hrest).
  rewrite Nat.sub_0_r in Hnth. apply nth_error_take in Hnth.
  assert (Hb : sample_id e - 1 < List.length dev)
    by (apply nth_error_Some; congruence).
  split; [lia|]. exists item. split; [exact Hnth|exact Hrest].
Qed.

Lemma run_entries_point_to_samples_witness :
  exists out st',
    evaluate singer_env 4 [unknown_db_sample; singer_sample] 2
             (singer_state [Some (T "singer: id"); None; Some (T "count the rows");
                             Some (T "SELECT count(*) FROM singer")] [])
    = Some (out, st')
    /\ run_ends_with singer_env (take 2 [unknown_db_sample; singer_sample])
         (fun r =>
            Forall (fun e =>
                      1 <= sample_id e <= 2
                      /\ exists item,
                           nth_error [unknown_db_sample; singer_sample]
                                     (sample_id e - 1)
                           = Some item
                           /\ entry_question e = question item
                           /\ entry_db_id e = db_id item
                           /\ gold_sql e = query item
                           /\ schema_loads singer_env item = true)
                   (results r)
            /\ StronglySorted lt (map sample_id (results r)))
         out.
Proof.
  apply (run_entries_point_to_samples singer_env 4
           [unknown_db_sample; singer_sample] 2
           (singer_state [Some (T "singer: id"); None; Some (T "count the rows");
                           Some (T "SELECT count(*) FROM singer")] [])
           (Nat.lt_succ_diag_r 3) eq_refl).
Defined.

(** X25: a run that ends with its results has sent between two and ten
    prompts for every entry it records, and none for a sample it
    skips; a run that records nothing leaves the backend untouched.
    (Otherwise the run ended by an exception that [evaluate] does not
    handle.) *)
Theorem run_prompt_budget (E : Env) (fuel : nat) (dev : list sample)
        (num_samples : Z) (st : state E) :
  MAX_CRITIC_ATTEMPTS < fuel ->
  is_nil dev = false ->
  exists out st',
    evaluate E fuel dev num_samples st = Some (out, st')
    /\ run_ends_with E (take num_samples dev)
         (fun r =>
            List.length (prompts_sent st) + 2 * total r
            <= List.length (prompts_sent st')
            /\ List.length (prompts_sent st')
               <= List.length (prompts_sent st)
                  + (2 + 2 + 2 * MAX_CRITIC_ATTEMPTS) * total r
            /\ (total r = 0 -> st' = st))
         out.
Proof.
  intros Hfuel Hdev.
  destruct (evaluate_trace E fuel dev num_samples st Hfuel Hdev)
    as (out & st' & Hrun & Hout).
  exists out, st'. split; [exact Hrun|].
  destruct out as [[r|]|e]; cbn [run_ends_with] in *; [|exact Hout|exact Hout].
  destruct Hout as (_ & _ & _ & _ & _ & _ & Hp & _ & _ & Hnil & _).
  split; [lia|]. split; [|exact Hnil].
  unfold MAX_CRITIC_ATTEMPTS. lia.
Qed.

Lemma run_prompt_budget_witness :
  exists out st',
    evaluate singer_env 4 [unknown_db_sample; singer_sample] 2
             (singer_state [Some (T "singer: id"); None; Some (T "count the rows");
                             Some (T "SELECT count(*) FROM singer")] [])
    = Some (out, st')
    /\ run_ends_with singer_env (take 2 [unknown_db_sample; singer_sample])
         (fun r =>
            0 + 2 * total r <= List.length (prompts_sent st')
            /\ List.length (prompts_sent st')
               <= 0 + (2 + 2 + 2 * MAX_CRITIC_ATTEMPTS) * total r
            /\ (total r = 0
                -> st' = singer_state [Some (T "singer: id"); None;
                                       Some (T "count the rows");
                                       Some (T "SELECT count(*) FROM singer")] []))
         out.
Proof.
  apply (run_prompt_budget singer_env 4
           [unknown_db_sample; singer_sample] 2
           (singer_state [Some (T "singer: id"); None; Some (T "count the rows");
                           Some (T "SELECT count(*) FROM singer")] [])
           (Nat.lt_succ_diag_r 3) eq_refl).
Defined.

(** X26: how a call of [evaluate] ends once [load_spider] has returned
    the dataset.  It returns early exactly when the dataset is empty.
    An exception of the taxonomy file or of [load_schema] leaves the
    function, and an exception raised while the report is written does
    so after the loop.  The call ends in a
    ZeroDivisionError, after the report was written, exactly when the
    dataset is not empty, the taxonomy file raises nothing, every
    sample of the selected slice has an empty schema (in particular
    when the slice is empty, as with [num_samples = 0]) and the empty
    report could be written; the report then holds no entry and zero
    counters, and no prompt was sent.  The final lines are printed only
    with [total] above zero. *)
Theorem evaluate_end_zero_division (E : Env) (report_error : run -> option exn)
        (fuel : nat) (dev : list sample) (num_samples : Z) (st : state E) :
  MAX_CRITIC_ATTEMPTS < fuel ->
  exists e st',
    evaluate_end E report_error fuel dev num_samples st = Some (e, st')
    /\ (e = NoDataset <-> dev = [])
    /\ (forall ex, e = Escaped ex -> dev <> [] /\ escapes E (take num_samples dev) ex)
    /\ (forall ex r, e = ReportFailed ex r -> report_error r = Some ex)
    /\ ((exists r, e = ReportWrittenThenZeroDivision r)
        <-> dev <> []
            /\ taxonomy_error E = None
            /\ forallb (schema_empty E) (take num_samples dev) = true
            /\ report_error empty_run = None)
    /\ (forall r, e = ReportWrittenThenZeroDivision r -> r = empty_run /\ st' = st)
    /\ (forall r, e = ReportPrinted r -> 0 < total r /\ report_error r = None).
Proof.
  intros Hfuel. unfold evaluate_end.
  destruct dev as [|item0 rest] eqn:Hdev0.
  - exists NoDataset, st. simpl. split; [reflexivity|]. split; [tauto|].
    split; [discriminate|]. split; [discriminate|].
    split; [|split; discriminate].
    split; [intros (r & Hr); discriminate|intros [H _]; now destruct H].
  - rewrite <- Hdev0.
    assert (Hdev : is_nil dev = false) by now rewrite Hdev0.
    assert (Hne : dev <> []) by now rewrite Hdev0.
    clear Hdev0.
    destruct (evaluate_trace E fuel dev num_samples st Hfuel Hdev)
      as (out & st' & Hrun & Hout).
    rewrite Hrun. destruct out as [[r|]|ex]; cbn [run_ends_with] in Hout;
      [|contradiction|].
    + destruct Hout as (Htax & Htot & Hex & Hva & Hec & Hzero & _ & _ & _ & Hnil & _).
      assert (Hempty : total r = 0 -> r = empty_run).
      { intros Ht. rewrite Htot in Ht. apply length_zero_iff_nil in Ht.
        rewrite Ht in Hex, Hva, Hec, Htot.
        destruct r as [t em vs ec res]; simpl in *. subst. reflexivity. }
      destruct (report_error r) as [ex|] eqn:Hrep.
      * do 2 eexists. split; [reflexivity|].
        split; [split; [discriminate|intros H; now destruct Hne]|].
        split; [discriminate|].
        split; [intros ex0 r0 Heq; injection Heq as <- <-; exact Hrep|].
        split; [|split; discriminate].
        split; [intros (r0 & Hr0); discriminate|].
        intros (_ & _ & Hall & Hrep0). apply Hzero in Hall.
        rewrite (Hempty Hall) in Hrep. congruence.
      * destruct (total r =? 0) eqn:Ht.
        -- apply Nat.eqb_eq in Ht. do 2 eexists. split; [reflexivity|].
           split; [split; [discriminate|intros H; now destruct Hne]|].
           split; [discriminate|]. split; [discriminate|].
           split; [split; [intros _|eauto]|].
           ++ split; [exact Hne|]. split; [exact Htax|].
              split; [now apply Hzero|]. now rewrite <- (Hempty Ht).
           ++ split; [|discriminate].
              intros r0 Hr0. injection Hr0 as <-.
              split; [now apply Hempty|now apply Hnil].
        -- apply Nat.eqb_neq in Ht. do 2 eexists. split; [reflexivity|].
           split; [split; [discriminate|intros H; now destruct Hne]|].
           split; [discriminate|]. split; [discriminate|].
           split; [split; [intros (r0 & Hr0); discriminate|]|].
           ++ intros (_ & _ & Hall & _). apply Hzero in Hall. contradiction.
           ++ split; [discriminate|]. intros r0 Hr0. injection Hr0 as <-.
              split; [lia|exact Hrep].
    + do 2 eexists. split; [reflexivity|].
      split; [split; [discriminate|intros H; now destruct Hne]|].
      split; [intros ex0 Heq; injection Heq as <-; split; [exact Hne|exact Hout]|].
      split; [discriminate|].
      split; [|split; discriminate].
      split; [intros (r0 & Hr0); discriminate|].
      intros (_ & Htax & Hall & _). exfalso.
      exact (schema_empty_no_escape E _ ex Htax Hall Hout).
Qed.

Lemma evaluate_end_zero_division_witness :
  exists e st',
    evaluate_end singer_env (fun _ => None) 4 [singer_sample] 0 (singer_state [] [])
    = Some (e, st')
    /\ (e = NoDataset <-> [singer_sample] = [])
    /\ (forall ex, e = Escaped ex
                   -> [singer_sample] <> []
                      /\ escapes singer_env (take 0 [singer_sample]) ex)
    /\ (forall ex r, e = ReportFailed ex r -> @None exn = Some ex)
    /\ ((exists r, e = ReportWrittenThenZeroDivision r)
        <-> [singer_sample] <> []
            /\ taxonomy_error singer_env = None
            /\ forallb (schema_empty singer_env) (take 0 [singer_sample]) = true
            /\ @None exn = None)
    /\ (forall r, e = ReportWrittenThenZeroDivision r
                  -> r = empty_run /\ st' = singer_state [] [])
    /\ (forall r, e = ReportPrinted r
                  -> 0 < total r /\ @None exn = None).
Proof.
  apply (evaluate_end_zero_division singer_env (fun _ => None) 4 [singer_sample] 0
           (singer_state [] []) (Nat.lt_succ_diag_r 3)).
Defined.

(* ================================================================= *)
(** ** The start-up script *)

Lemma is_nil_app_cons {A} (x : A) (l1 l2 : list A) : is_nil ((x :: l1) ++ l2) = false.
Proof. reflexivity. Qed.


Lemma menu_range_bounded (H : Startup.Host) (k : nat) :
  forall lines, List.length lines <= k ->
  (forall n, Startup.menu H lines = Startup.RunEvaluation n -> (1 <= n <= 1034)%Z)
  /\ (forall code, Startup.menu H lines = Startup.Exit code -> code = 0%Z).
Proof.
  induction k as [|k IH]; intros lines Hlen.
  - destruct lines; [|simpl in Hlen; lia]. split; discriminate.
  - destruct lines as [|line rest]; [split; discriminate|].
    cbn [List.length] in Hlen. cbn [Startup.menu].
    destruct (text_eqb (strip line) (T "1")); [split; intros ? Heq; [injection Heq as <-; lia|discriminate]|].
    destruct (text_eqb (strip line) (T "2")); [split; intros ? Heq; [injection Heq as <-; lia|discriminate]|].
    destruct (text_eqb (strip line) (T "3")).
    + destruct rest as [|number rest']; [split; discriminate|].
      cbn [List.length] in Hlen.
      destruct (Startup.py_int H number) as [num|]; [|apply IH; lia].
      destruct ((1 <=? num) && (num <=? 1034))%Z eqn:Hrange; [|apply IH; lia].
      apply andb_true_iff in Hrange as [H1 H2].
      split; intros ? Heq; [injection Heq as <-; lia|discriminate].
    + destruct (text_eqb (strip line) (T "4"));
        [split; intros ? Heq; [discriminate|now injection Heq as <-]|].
      apply IH. lia.
Qed.

(** X28: the menu loop starts an evaluation only with a number of
    samples between 1 and 1034 (100 and 10 for the first two choices, a
    number read from the input for the third, asked again until it is
    in range), and the only exit status it produces is 0. *)
Theorem menu_sample_range (H : Startup.Host) (lines : list text) :
  (forall n, Startup.menu H lines = Startup.RunEvaluation n -> (1 <= n <= 1034)%Z)
  /\ (forall code, Startup.menu H lines = Startup.Exit code -> code = 0%Z).
Proof. apply (menu_range_bounded H (List.length lines)). lia. Qed.

Lemma menu_sample_range_witness : (1 <= 25 <= 1034)%Z.
Proof.
  apply (proj1 (menu_sample_range ready_host [T "3"; T "5000"; T " 3 "; T "25"]) 25%Z).
  reflexivity.
Defined.
